(** * pyconfigatron: a shallow embedding of [pyconfigatron/__init__.py]

    The module keeps a tree of [ConfigStore] objects that all point to one
    [ConfigTree] holding the lock flag, and a [Configuration] that records
    registration directives and merges them into the tree.

    Python objects are mutable and shared, so the embedding keeps an explicit
    object heap: a [ConfigStore] or a [ConfigTree] is an address into a
    growing list of objects (objects are never freed, a new object takes the
    next index).  Methods are state-passing functions returning the new heap
    together with an outcome: a value, a raised exception, or [Stuck] for what
    lies outside the embedding: a dangling address (Python has none), an
    exhausted recursion budget, and a write to an instance slot through
    [object.__setattr__].

    The definitions come first: the values the YAML collaborator produces,
    the heap, [ConfigStore], [Configuration], then the reference definitions
    the properties are stated with.  The properties follow. *)

From Stdlib Require Import ZArith Lia Ascii String.
From stdpp Require Import base list strings sorting.

Set Warnings "-register-all".
Open Scope string_scope.

(** ** Python values as the YAML collaborator produces them *)

(** Keys of mappings are strings (the only keys attribute access can name).
    A [dict] is an association list with distinct keys, iterated in list
    order; floats are left out. *)

Inductive pyval : Type :=
| PNone
| PBool (b : bool)
| PInt (z : Z)
| PStr (s : string)
| PList (l : list pyval)
| PDict (m : list (string * pyval)).

Definition is_dict (v : pyval) : bool :=
  match v with PDict _ => true | _ => false end.

(** [d[k]] on a dict, first binding of the key *)
Fixpoint dict_get {V : Type} (k : string) (d : list (string * V)) : option V :=
  match d with
  | [] => None
  | (k', v) :: d' => if String.eqb k k' then Some v else dict_get k d'
  end.

(** [d[k] = v]: an existing key keeps its place, a new key goes last *)
Fixpoint dict_set {V : Type} (k : string) (v : V) (d : list (string * V))
  : list (string * V) :=
  match d with
  | [] => [(k, v)]
  | (k', v') :: d' =>
      if String.eqb k k' then (k, v) :: d' else (k', v') :: dict_set k v d'
  end.

Definition dict_has {V : Type} (k : string) (d : list (string * V)) : bool :=
  match dict_get k d with Some _ => true | None => false end.

Definition keys {V : Type} (d : list (string * V)) : list string := map fst d.

(** Python truth value *)
Definition truthy (v : pyval) : bool :=
  match v with
  | PNone => false
  | PBool b => b
  | PInt z => negb (Z.eqb z 0)
  | PStr s => negb (String.eqb s "")
  | PList l => match l with [] => false | _ => true end
  | PDict m => match m with [] => false | _ => true end
  end.

Definition is_none (v : pyval) : bool :=
  match v with PNone => true | _ => false end.

Definition type_name (v : pyval) : string :=
  match v with
  | PNone => "NoneType"
  | PBool _ => "bool"
  | PInt _ => "int"
  | PStr _ => "str"
  | PList _ => "list"
  | PDict _ => "dict"
  end.

(** [s.startswith(p)] *)
Definition startswith (p s : string) : bool := String.prefix p s.

(** [s.split('.')] *)
Fixpoint split_dot_aux (acc : string) (s : string) : list string :=
  match s with
  | EmptyString => [acc]
  | String c s' =>
      if Ascii.eqb c "."%char then acc :: split_dot_aux "" s'
      else split_dot_aux (acc ++ String c "") s'
  end.

Definition split_dot (s : string) : list string := split_dot_aux "" s.

(** ** Exceptions and outcomes *)

Inductive exn : Type :=
| Error_ (args : list string)
| MissingEnvironment (msg : string)
| UndefinedKeyError (msg : string)
| LockedError (msg : string)
| ConfigFileError (msg : string)
| AttributeError (msg : string)
| TypeError (msg : string)
| KeyError (msg : string)
| NameError (msg : string)
| IOError (msg : string).

Inductive outcome (A : Type) : Type :=
| Ok (a : A)
| Raise (e : exn)
| Stuck.

Arguments Ok {A} a.
Arguments Raise {A} e.
Arguments Stuck {A}.

(** State and exception monad: the state reached when an exception is raised
    is kept, as Python keeps every mutation done before the [raise]. *)
Definition M (S A : Type) : Type := S -> S * outcome A.

Definition ret {S A} (a : A) : M S A := fun s => (s, Ok a).
Definition raise {S A} (e : exn) : M S A := fun s => (s, Raise e).
Definition stuck {S A} : M S A := fun s => (s, Stuck).
Definition bind {S A B} (m : M S A) (f : A -> M S B) : M S B :=
  fun s =>
    match m s with
    | (s', Ok a) => f a s'
    | (s', Raise e) => (s', Raise e)
    | (s', Stuck) => (s', Stuck)
    end.

Notation "'let*' x ':=' m 'in' k" := (bind m (fun x => k))
  (at level 10, x name, m at level 100, k at level 200).
Notation "m ';;' k" := (bind m (fun _ => k))
  (at level 100, k at level 200, right associativity).

(** ** The object heap *)

Abbreviation addr := nat (only parsing).

(** What a slot of [_attributes] holds: a plain value, or a reference to a
    [ConfigStore] object. *)
Inductive obj : Type :=
| OVal (v : pyval)
| ORef (a : addr).

Record ConfigStore : Type := mkStore {
  _config_tree : addr;
  _name : string;
  _path : list string;
  _attributes : list (string * obj)
}.

(** [trees] holds the [locked] field of each [ConfigTree] object. *)
Record heap : Type := mkHeap {
  trees : list bool;
  stores : list ConfigStore
}.

Definition with_attributes (s : ConfigStore) (d : list (string * obj)) : ConfigStore :=
  mkStore (_config_tree s) (_name s) (_path s) d.

Definition read_store (a : addr) : M heap ConfigStore :=
  fun h => match stores h !! a with
           | Some s => (h, Ok s)
           | None => (h, Stuck)
           end.

Definition write_store (a : addr) (s : ConfigStore) : M heap unit :=
  fun h => (mkHeap (trees h) (<[a := s]> (stores h)), Ok tt).

(** [ConfigStore(config_tree, name, path)] with a given tree *)
Definition new_store (t : addr) (name : string) (path : list string) : M heap addr :=
  fun h => (mkHeap (trees h) (stores h ++ [mkStore t name path []]),
            Ok (length (stores h))).

(** the [locked] property: [self._config_tree.locked] *)
Definition get_locked (a : addr) : M heap bool :=
  let* s := read_store a in
  fun h => match trees h !! _config_tree s with
           | Some b => (h, Ok b)
           | None => (h, Stuck)
           end.

Definition set_locked (a : addr) (b : bool) : M heap unit :=
  let* s := read_store a in
  fun h => match trees h !! _config_tree s with
           | Some _ => (mkHeap (<[_config_tree s := b]> (trees h)) (stores h), Ok tt)
           | None => (h, Stuck)
           end.

(** ** ConfigStore *)

Definition __getitem__ (a : addr) (key : string) : M heap obj :=
  let* s := read_store a in
  match dict_get key (_attributes s) with
  | Some o => ret o
  | None =>
      let* locked := get_locked a in
      if (locked : bool) then
        raise (UndefinedKeyError
                 ("Configuration key not found: " ++ _name s ++ "." ++ key))
      else
        let* c := new_store (_config_tree s) (_name s ++ "." ++ key) (_path s ++ [key]) in
        write_store a (with_attributes s (dict_set key (ORef c) (_attributes s))) ;;
        let* s' := read_store a in
        match dict_get key (_attributes s') with
        | Some o => ret o
        | None => raise (KeyError key)
        end
  end.

Definition __setitem__ (a : addr) (key : string) (value : obj) : M heap unit :=
  let* locked := get_locked a in
  if (locked : bool) then
    let* s := read_store a in
    raise (LockedError ("Cannot set key " ++ key ++ " for locked " ++ _name s))
  else
    let* s := read_store a in
    write_store a (with_attributes s (dict_set key value (_attributes s))).

(** Names [hasattr(ConfigStore, key)] finds for a key that does not start
    with an underscore: the public methods and the property of the class
    body, and [mro], which every class has.  Names with a leading underscore
    never reach the test. *)
Definition class_attributes : list string :=
  ["locked"; "clear"; "update_dict"; "to_dict"; "iteritems"; "items"; "mro"].

Definition hasattr_ConfigStore (key : string) : bool :=
  existsb (String.eqb key) class_attributes.

Definition obj_truthy (o : obj) : bool :=
  match o with OVal v => truthy v | ORef _ => true end.

(** [super(ConfigStore, self).__getattr__(key)]: [object] has no
    [__getattr__]. *)
Definition super_getattr {A : Type} (key : string) : M heap A :=
  raise (AttributeError "'super' object has no attribute '__getattr__'").

(** [super(ConfigStore, self).__setattr__(key, value)]: for [locked] the
    property setter runs and stores the value in the tree (only its truth
    value is ever read); the instance slots behind the other names are not
    part of the embedding. *)
Definition super_setattr (a : addr) (key : string) (value : obj) : M heap unit :=
  if String.eqb key "locked" then set_locked a (obj_truthy value) else stuck.

Definition __getattr__ (a : addr) (key : string) : M heap obj :=
  if startswith "_" key || hasattr_ConfigStore key then super_getattr key
  else __getitem__ a key.

Definition __setattr__ (a : addr) (key : string) (value : obj) : M heap unit :=
  if startswith "_" key || hasattr_ConfigStore key then super_setattr a key value
  else __setitem__ a key value.

(** [clear] asks for [self.attributes], not [self._attributes]: the name goes
    through [__getattr__] and is looked up as a configuration key, and
    [.clear()] is then called on whatever that key holds.  The budget bounds
    the chain of [ConfigStore.clear] calls. *)
Fixpoint clear (fuel : nat) (a : addr) : M heap unit :=
  match fuel with
  | 0 => stuck
  | S n =>
      let* o := __getattr__ a "attributes" in
      match o with
      | ORef c => clear n c
      | OVal (PDict _) =>
          let* s := read_store a in
          write_store a
            (with_attributes s (dict_set "attributes" (OVal (PDict [])) (_attributes s)))
      | OVal v =>
          raise (AttributeError ("'" ++ type_name v ++ "' object has no attribute 'clear'"))
      end
  end.

(** One turn of the loop of [update_dict], for the pair [(key, value)]; the
    inner loop is [update_dict] on the child. *)
Fixpoint update_item (value : pyval) (a : addr) (key : string) {struct value}
  : M heap unit :=
  match value with
  | PDict m =>
      let* o := __getitem__ a key in
      match o with
      | ORef c =>
          (fix items (m : list (string * pyval)) : M heap unit :=
             match m with
             | [] => ret tt
             | (k, v) :: m' => update_item v c k ;; items m'
             end) m
      | OVal w =>
          raise (AttributeError
                   ("'" ++ type_name w ++ "' object has no attribute 'update_dict'"))
      end
  | _ => __setitem__ a key (OVal value)
  end.

Fixpoint update_dict (a : addr) (d : list (string * pyval)) : M heap unit :=
  match d with
  | [] => ret tt
  | (key, value) :: d' => update_item value a key ;; update_dict a d'
  end.

(** [x.update_dict(d)] for arbitrary receiver and argument: the method
    exists on a [ConfigStore] only, and [d.iteritems()] on a dict only. *)
Definition call_update_dict (x : obj) (d : pyval) : M heap unit :=
  match x with
  | ORef a =>
      match d with
      | PDict m => update_dict a m
      | _ => raise (AttributeError
                     ("'" ++ type_name d ++ "' object has no attribute 'iteritems'"))
      end
  | OVal w =>
      raise (AttributeError
               ("'" ++ type_name w ++ "' object has no attribute 'update_dict'"))
  end.

(** The loop of [to_dict]; [rec] is the call [value.to_dict()]. *)
Fixpoint to_dict_items (rec : addr -> M heap pyval)
    (items : list (string * obj)) (output : list (string * pyval)) : M heap pyval :=
  match items with
  | [] => ret (PDict output)
  | (key, value) :: rest =>
      let* value' := match value with
                     | ORef c => rec c
                     | OVal v => ret v
                     end in
      to_dict_items rec rest (dict_set key value' output)
  end.

(** The budget bounds the depth of nested [to_dict] calls. *)
Fixpoint to_dict (fuel : nat) (a : addr) : M heap pyval :=
  match fuel with
  | 0 => stuck
  | S n =>
      let* s := read_store a in
      to_dict_items (to_dict n) (_attributes s) []
  end.

(** ** Operators on plain values used by [mixin_config] *)

Definition lift_outcome {S A : Type} (r : outcome A) : M S A := fun s => (s, r).

(** [x in c] for a string [x] *)
Definition py_contains (x : string) (c : pyval) : outcome bool :=
  match c with
  | PDict m => Ok (dict_has x m)
  | PList l => Ok (existsb (fun v => match v with
                                     | PStr s => String.eqb x s
                                     | _ => false
                                     end) l)
  | PStr s => Ok (match String.index 0 x s with Some _ => true | None => false end)
  | _ => Raise (TypeError ("argument of type '" ++ type_name c ++ "' is not iterable"))
  end.

(** [c[x]] for a string [x] *)
Definition py_index (c : pyval) (x : string) : outcome pyval :=
  match c with
  | PDict m => match dict_get x m with
               | Some v => Ok v
               | None => Raise (KeyError x)
               end
  | PList _ => Raise (TypeError "list indices must be integers, not str")
  | PStr _ => Raise (TypeError "string indices must be integers, not str")
  | _ => Raise (TypeError ("'" ++ type_name c ++ "' object has no attribute '__getitem__'"))
  end.

(** [x[key]] for whatever the mount loop holds in [base_config] *)
Definition obj_getitem (x : obj) (key : string) : M heap obj :=
  match x with
  | ORef a => __getitem__ a key
  | OVal w => match py_index w key with
              | Ok v => ret (OVal v)
              | Raise e => raise e
              | Stuck => stuck
              end
  end.

(** ** Configuration *)

Record directive : Type := mkDirective {
  config : pyval;
  filepath : option string;
  raw : bool;
  optional : bool;
  nested : option string
}.

Record Configuration : Type := mkConfiguration {
  directives : list directive;
  env : string;
  configatron : addr
}.

(** The process state: the one [Configuration] object and the heap of the
    objects it reaches. *)
Record world : Type := mkWorld {
  conf : Configuration;
  mem : heap
}.

Definition on_heap {A : Type} (m : M heap A) : M world A :=
  fun w => match m (mem w) with
           | (h, r) => (mkWorld (conf w) h, r)
           end.

Definition self : M world Configuration := fun w => (w, Ok (conf w)).

Definition set_conf (c : Configuration) : M world unit :=
  fun w => (mkWorld c (mem w), Ok tt).

(** Truth value of [directive['filepath']] *)
Definition has_filepath (d : directive) : bool :=
  match filepath d with
  | Some p => negb (String.eqb p "")
  | None => false
  end.

Definition show_filepath (d : directive) : string :=
  match filepath d with Some p => p | None => "None" end.

Definition missing_environment_message (e f : string) : string :=
  "Current environment " ++ e ++ " not defined in config file " ++ f
  ++ ". (HINT: you should have a YAML key of " ++ e
  ++ ". You may want to inherit a default via YAML's `<<` operator.)".

(** The loop over [directive['nested'].split('.')] *)
Fixpoint descend (base_config : obj) (path : list string) : M heap obj :=
  match path with
  | [] => ret base_config
  | key :: rest =>
      let* next := obj_getitem base_config key in
      descend next rest
  end.

Definition mixin_config (d : directive) : M world unit :=
  let* c := self in
  if optional d && is_none (config d) then ret tt
  else
    (if negb (raw d) && has_filepath d && negb (is_none (config d)) then
       let* present := lift_outcome (py_contains (env c) (config d)) in
       if (present : bool) then ret tt
       else raise (MissingEnvironment
                     (missing_environment_message (env c) (show_filepath d)))
     else ret tt) ;;
    let* choice :=
      (if raw d then ret (config d)
       else if has_filepath d && truthy (config d) then
         lift_outcome (py_index (config d) (env c))
       else if has_filepath d then ret (PDict [])
       else ret (config d)) in
    on_heap (__setattr__ (configatron c) "locked" (OVal (PBool false))) ;;
    let* base_config :=
      on_heap (match nested d with
               | Some n => descend (ORef (configatron c)) (split_dot n)
               | None => ret (ORef (configatron c))
               end) in
    on_heap (call_update_dict base_config choice) ;;
    on_heap (__setattr__ (configatron c) "locked" (OVal (PBool true))).

Definition register_parsed (cfg : pyval) (fp : option string)
    (rw opt : bool) (nst : option string) : M world unit :=
  let directive := mkDirective cfg fp rw opt nst in
  let* c := self in
  set_conf (mkConfiguration (directives c ++ [directive]) (env c) (configatron c)) ;;
  mixin_config directive.

Fixpoint for_each {S A : Type} (f : A -> M S unit) (l : list A) : M S unit :=
  match l with
  | [] => ret tt
  | x :: l' => f x ;; for_each f l'
  end.

(** The budget is the one of [ConfigStore.clear]. *)
Definition reapply_config (fuel : nat) : M world unit :=
  let* c := self in
  on_heap (clear fuel (configatron c)) ;;
  let* c := self in
  for_each mixin_config (directives c).

Definition set_env (fuel : nat) (e : string) : M world unit :=
  let* c := self in
  set_conf (mkConfiguration (directives c) e (configatron c)) ;;
  reapply_config fuel.

(** [ConfigTree()] and [ConfigStore()] with the default arguments *)
Definition new_tree : M heap addr :=
  fun h => (mkHeap (trees h ++ [false]) (stores h), Ok (length (trees h))).

Definition new_root : M heap addr :=
  let* t := new_tree in new_store t "config" [].

(** [Configuration()], the environment found by [discover_env] given *)
Definition Configuration_init (e : string) : M heap Configuration :=
  let* root := new_root in
  __setattr__ root "locked" (OVal (PBool true)) ;;
  ret (mkConfiguration [] e root).

(** The state of a fresh process whose environment is [e] *)
Definition fresh_process (e : string) : world :=
  match Configuration_init e (mkHeap [] []) with
  | (h, Ok c) => mkWorld c h
  | (h, _) => mkWorld (mkConfiguration [] e 0) h
  end.

(** *** [register]: the file system and the YAML collaborator are given *)

(** Names bound at module level when [register] runs: the two imports, the
    classes and the four assignments at the end of the module. *)
Definition module_globals : list string :=
  ["os"; "yaml"; "Error"; "MissingEnvironment"; "UndefinedKeyError";
   "LockedError"; "ConfigFileError"; "ConfigTree"; "ConfigStore";
   "Configuration"; "_config"; "register"; "set_env"; "configatron"].

Definition load_global {S : Type} (name : string) : M S unit :=
  if existsb (String.eqb name) module_globals then ret tt
  else raise (NameError ("global name '" ++ name ++ "' is not defined")).

Section Register.

(** contents of the file at a path, [None] when there is no such file *)
Variable fs : string -> option string.
(** [yaml.load]: the document, or the text of the exception it raises *)
Variable yaml_load : string -> pyval + string.

Definition path_exists (p : string) : bool :=
  match fs p with Some _ => true | None => false end.

Definition register (fp : string) (rw opt : bool) (nst : option string)
  : M world unit :=
  let* cfg :=
    (if negb (startswith "/" fp) then
       raise (Error_ ["Register only accepts absolute paths, not {}. (This ensures that config is always correctly loaded rather than depending on your current directory. To avoid this error in the future, you may want to use a wrapper that expands paths based on a base directory.)"; fp])
     else if opt && negb (path_exists fp) then ret PNone
     else
       match fs fp with
       | None => raise (IOError ("[Errno 2] No such file or directory: '" ++ fp ++ "'"))
       | Some f =>
           match yaml_load f with
           | inl cfg => ret cfg
           | inr e =>
               (* except Exception as e: *)
               load_global "sys" ;;
               raise (ConfigFileError (e ++ " (while loading " ++ fp ++ ")"))
           end
       end) in
  register_parsed cfg (Some fp) rw opt nst.

End Register.

(** The file of the example of the specification *)
Definition env_yaml : pyval :=
  PDict [("prod", PDict [("x", PInt 1)]); ("dev", PDict [("x", PInt 2)])].

Definition example_fs (p : string) : option string :=
  if String.eqb p "/env.yaml" then Some "prod: {x: 1}
dev: {x: 2}" else None.

Definition example_yaml (f : string) : pyval + string :=
  if String.eqb f "prod: {x: 1}
dev: {x: 2}" then inl env_yaml else inr "could not parse".

(** ** Reference definitions for the merge properties *)

(** The merge of a mapping [d] into a plain mapping [p], as the description
    of [mergeDict] reads on plain data: a nested mapping merges into the
    mapping already under its key (an empty one when the key is new) and
    cannot merge into a scalar; any other value replaces what the key had. *)
Fixpoint merge_item (value : pyval) (key : string) (p : list (string * pyval))
    {struct value} : option (list (string * pyval)) :=
  match value with
  | PDict m =>
      let items :=
        fix items (m : list (string * pyval)) (acc : list (string * pyval)) :=
          match m with
          | [] => Some acc
          | (k, v) :: m' =>
              match merge_item v k acc with
              | Some acc' => items m' acc'
              | None => None
              end
          end in
      match dict_get key p with
      | None =>
          match items m [] with
          | Some q => Some (dict_set key (PDict q) p)
          | None => None
          end
      | Some (PDict q0) =>
          match items m q0 with
          | Some q => Some (dict_set key (PDict q) p)
          | None => None
          end
      | Some _ => None
      end
  | _ => Some (dict_set key value p)
  end.

Fixpoint merge_plain (p d : list (string * pyval)) : option (list (string * pyval)) :=
  match d with
  | [] => Some p
  | (key, value) :: d' =>
      match merge_item value key p with
      | Some p' => merge_plain p' d'
      | None => None
      end
  end.

Fixpoint merge_all (p : list (string * pyval)) (ds : list (list (string * pyval)))
  : option (list (string * pyval)) :=
  match ds with
  | [] => Some p
  | d :: ds' =>
      match merge_plain p d with
      | Some p' => merge_all p' ds'
      | None => None
      end
  end.

(** A Python dict has each key once, at every level of nesting. *)
Fixpoint distinct_keys (v : pyval) : Prop :=
  match v with
  | PDict m =>
      NoDup (keys m)
      /\ (fix all (m : list (string * pyval)) : Prop :=
            match m with
            | [] => True
            | (_, v') :: m' => distinct_keys v' /\ all m'
            end) m
  | _ => True
  end.

(** [shape t h a p F]: the node at [a] is the root of a tree of nodes of the
    [ConfigTree] [t] that reads as the plain mapping [p]; [F] lists the
    addresses of the nodes of the tree, each once: no node is shared. *)
Inductive shape (t : addr) (h : heap)
  : addr -> list (string * pyval) -> list addr -> Prop :=
| shape_node a s p F :
    stores h !! a = Some s ->
    _config_tree s = t ->
    kids t h (_attributes s) p F ->
    a ∉ F ->
    shape t h a p (a :: F)
with kids (t : addr) (h : heap)
  : list (string * obj) -> list (string * pyval) -> list addr -> Prop :=
| kids_nil : kids t h [] [] []
| kids_val k v attrs p F :
    is_dict v = false ->
    dict_get k attrs = None ->
    kids t h attrs p F ->
    kids t h ((k, OVal v) :: attrs) ((k, v) :: p) F
| kids_ref k c m Fc attrs p F :
    shape t h c m Fc ->
    dict_get k attrs = None ->
    kids t h attrs p F ->
    (forall x, x ∈ Fc -> x ∉ F) ->
    kids t h ((k, ORef c) :: attrs) ((k, PDict m) :: p) (Fc ++ F).

Scheme shape_mut := Induction for shape Sort Prop
  with kids_mut := Induction for kids Sort Prop.

(** What a step of a merge may do to the heap, seen from a tree with nodes
    [F]: the lock flags stay, no object disappears, live objects outside [F]
    stay as they are, and the nodes [F'] of the tree afterwards are nodes of
    [F] or new objects. *)
Definition within (h : heap) (F : list addr) (h' : heap) (F' : list addr) : Prop :=
  trees h' = trees h
  /\ length (stores h) <= length (stores h')
  /\ (forall x, x < length (stores h) -> x ∉ F -> stores h' !! x = stores h !! x)
  /\ (forall x, x ∈ F' -> x ∈ F \/ length (stores h) <= x).

(** An in-memory registration with [raw=True] and no mount path *)
Definition register_raw (d : list (string * pyval)) : M world unit :=
  register_parsed (PDict d) None true false None.

(** [update_item] follows [merge_item]: on a tree of unlocked nodes that
    reads [p], whenever the plain merge is defined the code returns, and the
    tree then reads the merged mapping. *)
Definition merges (v : pyval) : Prop :=
  forall (t a : addr) (k : string) (h : heap) p F p',
    shape t h a p F ->
    trees h !! t = Some false ->
    merge_item v k p = Some p' ->
    exists h' F',
      update_item v a k h = (h', Ok tt)
      /\ shape t h' a p' F'
      /\ within h F h' F'.

(** What [__getitem__], [__setitem__] and the merge built on them leave
    alone: the lock flags, and the tree each existing node belongs to. *)
Definition keeps_trees (h h' : heap) : Prop :=
  trees h' = trees h
  /\ forall a s, stores h !! a = Some s ->
       exists s', stores h' !! a = Some s' /\ _config_tree s' = _config_tree s.

Definition keeps {A : Type} (m : M heap A) : Prop :=
  forall h h' r, m h = (h', r) -> keeps_trees h h'.

(** Induction on a value through the mappings nested in it *)
Fixpoint pyval_nested_ind (P : pyval -> Prop)
    (Hleaf : forall v, is_dict v = false -> P v)
    (Hdict : forall m, Forall (fun kv => P (snd kv)) m -> P (PDict m))
    (v : pyval) {struct v} : P v :=
  match v with
  | PDict m =>
      Hdict m
        ((fix go (m : list (string * pyval)) : Forall (fun kv => P (snd kv)) m :=
            match m with
            | [] => List.Forall_nil _
            | kv :: m' =>
                @List.Forall_cons _ _ kv m'
                  (match kv return P (snd kv) with
                   | (_, v') => pyval_nested_ind P Hleaf Hdict v'
                   end)
                  (go m')
            end) m)
  | PNone => Hleaf PNone eq_refl
  | PBool b => Hleaf (PBool b) eq_refl
  | PInt z => Hleaf (PInt z) eq_refl
  | PStr s => Hleaf (PStr s) eq_refl
  | PList l => Hleaf (PList l) eq_refl
  end.

(** ** The rest of the module *)

(** *** [ConfigStore]: the dict-like methods, [__str__] and [__repr__] *)

Definition __str__ (a : addr) : M heap string :=
  let* s := read_store a in ret (_name s).

Definition iteritems (a : addr) : M heap (list (string * obj)) :=
  let* s := read_store a in ret (_attributes s).

Definition items (a : addr) : M heap (list (string * obj)) :=
  let* s := read_store a in ret (_attributes s).

Definition __iter__ (a : addr) : M heap (list string) :=
  let* s := read_store a in ret (keys (_attributes s)).

(** [sorted] on the items of a dict: the keys differ, so the order of two
    items is the order of their keys, which [str] compares byte by byte. *)
Fixpoint insert_item (x : string * obj) (l : list (string * obj))
  : list (string * obj) :=
  match l with
  | [] => [x]
  | y :: l' =>
      if String.leb (fst x) (fst y) then x :: l else y :: insert_item x l'
  end.

Fixpoint sorted_items (l : list (string * obj)) : list (string * obj) :=
  match l with
  | [] => []
  | x :: l' => insert_item x (sorted_items l')
  end.

Definition newline : string := String (ascii_of_nat 10) "".

(** [sep.join(l)] *)
Fixpoint join (sep : string) (l : list string) : string :=
  match l with
  | [] => ""
  | x :: l' =>
      match l' with
      | [] => x
      | _ => x ++ sep ++ join sep l'
      end
  end.

Section Repr.

(** [repr] of a plain value, the builtin behind [{!r}] *)
Variable repr_value : pyval -> string.

(** The loop of [__repr__]; [rec] is the call [repr(value)] on a node. *)
Fixpoint repr_items (rec : addr -> M heap string) (name : string)
    (l : list (string * obj)) (out : list string) : M heap string :=
  match l with
  | [] => ret (join newline out)
  | (key, value) :: rest =>
      match value with
      | ORef c =>
          let* rendered := rec c in
          if negb (String.eqb rendered "") then
            repr_items rec name rest (out ++ [rendered])
          else repr_items rec name rest out
      | OVal v =>
          repr_items rec name rest
            (out ++ [name ++ "." ++ key ++ " = " ++ repr_value v])
      end
  end.

(** The budget bounds the depth of nested [repr] calls. *)
Fixpoint __repr__ (fuel : nat) (a : addr) : M heap string :=
  match fuel with
  | 0 => stuck
  | S n =>
      let* s := read_store a in
      repr_items (__repr__ n) (_name s) (sorted_items (_attributes s)) []
  end.

End Repr.

(** *** [Configuration.discover_env] *)

(** The characters [str.strip()] removes *)
Definition is_space (c : ascii) : bool :=
  existsb (Ascii.eqb c)
    [ascii_of_nat 32; ascii_of_nat 9; ascii_of_nat 10;
     ascii_of_nat 11; ascii_of_nat 12; ascii_of_nat 13].

Fixpoint lstrip (s : string) : string :=
  match s with
  | EmptyString => EmptyString
  | String c s' => if is_space c then lstrip s' else s
  end.

Fixpoint rstrip (s : string) : string :=
  match s with
  | EmptyString => EmptyString
  | String c s' =>
      match rstrip s' with
      | EmptyString => if is_space c then EmptyString else String c EmptyString
      | r => String c r
      end
  end.

Definition strip (s : string) : string := rstrip (lstrip s).

(** [fs] gives the contents of the file at a path, as for [register]. *)
Definition discover_env (fs : string -> option string) : string :=
  match fs "/etc/flags/env" with
  | Some f => strip f
  | None => "local"
  end.

(** [Configuration()] *)
Definition new_Configuration (fs : string -> option string) : world :=
  fresh_process (discover_env fs).

(** ** Reference definitions for the further properties *)

(** Every [ConfigTree] of the heap is locked. *)
Definition all_locked (h : heap) : Prop :=
  forall t b, trees h !! t = Some b -> b = true.

(** A computation that leaves a heap with every tree locked as it is *)
Definition frozen {A : Type} (m : M heap A) : Prop :=
  forall h h' r, all_locked h -> m h = (h', r) -> h' = h.

(** A computation that never writes to the heap *)
Definition reads_only {A : Type} (m : M heap A) : Prop :=
  forall h h' r, m h = (h', r) -> h' = h.

(** A computation that leaves the [Configuration] object as it is *)
Definition keeps_conf {A : Type} (m : M world A) : Prop :=
  forall w w' r, m w = (w', r) -> conf w' = conf w.

(** The plain mapping [d] mounted under the keys [path] *)
Fixpoint nest (path : list string) (d : list (string * pyval))
  : list (string * pyval) :=
  match path with
  | [] => d
  | key :: rest => [(key, PDict (nest rest d))]
  end.

Definition first_char (s : string) : option ascii :=
  match s with
  | EmptyString => None
  | String c _ => Some c
  end.

Fixpoint last_char (s : string) : option ascii :=
  match s with
  | EmptyString => None
  | String c s' =>
      match last_char s' with
      | None => Some c
      | Some c' => Some c'
      end
  end.

(** [reads w p]: [to_dict] of the root returns the plain mapping [p], for
    every budget from some depth on, without changing the heap. *)
Definition reads (w : world) (p : list (string * pyval)) : Prop :=
  exists n, forall fuel, n <= fuel ->
    to_dict fuel (configatron (conf w)) (mem w) = (mem w, Ok (PDict p)).

(** The keys a mount path goes through *)
Definition mount_path (nst : option string) : list string :=
  match nst with
  | Some n => split_dot n
  | None => []
  end.

(** A plain mapping, or tree, that holds no plain value at any depth *)
Fixpoint no_leaf (v : pyval) : Prop :=
  match v with
  | PDict m =>
      (fix all (m : list (string * pyval)) : Prop :=
         match m with
         | [] => True
         | (_, v') :: m' => no_leaf v' /\ all m'
         end) m
  | _ => False
  end.

(** ** Reference definitions for the lock and merge statements *)

(** Every character of the string is one [str.strip()] removes. *)
Fixpoint all_space (s : string) : bool :=
  match s with
  | EmptyString => true
  | String c s' => is_space c && all_space s'
  end.

(** What [mixin_config] does before it unlocks, lines 166 to 179: [Ok None]
    when the directive is skipped, the mapping chosen for the merge, or the
    exception raised by the environment test or by the selection. *)
Definition before_unlock (d : directive) (e : string) : outcome (option pyval) :=
  if optional d && is_none (config d) then Ok None
  else
    match (if negb (raw d) && has_filepath d && negb (is_none (config d)) then
             match py_contains e (config d) with
             | Ok true => Ok tt
             | Ok false =>
                 Raise (MissingEnvironment
                          (missing_environment_message e (show_filepath d)))
             | Raise x => Raise x
             | Stuck => Stuck
             end
           else Ok tt) with
    | Ok _ =>
        match (if raw d then Ok (config d)
               else if has_filepath d && truthy (config d) then
                      py_index (config d) e
               else if has_filepath d then Ok (PDict [])
               else Ok (config d)) with
        | Ok choice => Ok (Some choice)
        | Raise x => Raise x
        | Stuck => Stuck
        end
    | Raise x => Raise x
    | Stuck => Stuck
    end.

(** What [mixin_config] does between the unlock and the lock, lines 182 to
    187: the mount navigation, then the merge. *)
Definition mount_and_merge (root : addr) (nst : option string) (choice : pyval)
  : M heap unit :=
  let* base_config :=
    match nst with
    | Some n => descend (ORef root) (split_dot n)
    | None => ret (ORef root)
    end in
  call_update_dict base_config choice.

(** A computation that never raises [MissingEnvironment] *)
Definition no_missing_environment {A : Type} (m : M heap A) : Prop :=
  forall h h' msg, m h <> (h', Raise (MissingEnvironment msg)).
(** * Properties *)

(** ** Lookup and assignment on one node *)

Ltac run_step :=
  unfold __getitem__, __setitem__, __getattr__, __setattr__, super_setattr,
    get_locked, set_locked, read_store, write_store, new_store, bind, ret,
    raise, stuck in *;
  simpl in *.

Lemma dict_get_set_eq {V : Type} (k : string) (v : V) (d : list (string * V)) :
  dict_get k (dict_set k v d) = Some v.
Proof.
  induction d as [|[k' v'] d IH]; simpl.
  - by rewrite String.eqb_refl.
  - destruct (String.eqb k k') eqn:E; simpl.
    + by rewrite String.eqb_refl.
    + by rewrite E.
Qed.

Lemma dict_get_set_ne {V : Type} (k k' : string) (v : V) (d : list (string * V)) :
  k <> k' -> dict_get k' (dict_set k v d) = dict_get k' d.
Proof.
  intros Hne. induction d as [|[k0 v0] d IH]; simpl.
  - destruct (String.eqb k' k) eqn:E; [|done].
    apply String.eqb_eq in E. congruence.
  - destruct (String.eqb k k0) eqn:E; simpl.
    + apply String.eqb_eq in E. subst k0.
      destruct (String.eqb k' k) eqn:E'; [|done].
      apply String.eqb_eq in E'. congruence.
    + by rewrite IH.
Qed.

Lemma dict_set_absent {V : Type} (k : string) (v : V) (d : list (string * V)) :
  dict_get k d = None -> dict_set k v d = (d ++ [(k, v)])%list.
Proof.
  induction d as [|[k' v'] d IH]; simpl; [done|].
  destruct (String.eqb k k'); [done|]. intros H. by rewrite IH.
Qed.

(** What [__getitem__] and [__setitem__] compute on a live node *)
Lemma getitem_run (h : heap) (a : addr) (s : ConfigStore) (key : string) :
  stores h !! a = Some s ->
  __getitem__ a key h =
    match dict_get key (_attributes s) with
    | Some o => (h, Ok o)
    | None =>
        match trees h !! _config_tree s with
        | Some true =>
            (h, Raise (UndefinedKeyError
                         ("Configuration key not found: " ++ _name s ++ "." ++ key)))
        | Some false =>
            (mkHeap (trees h)
               (<[a := with_attributes s
                         (dict_set key (ORef (length (stores h))) (_attributes s))]>
                  (stores h ++ [mkStore (_config_tree s) (_name s ++ "." ++ key)
                                  (_path s ++ [key]) []])%list),
             Ok (ORef (length (stores h))))
        | None => (h, Stuck)
        end
    end.
Proof.
  intros Hs. pose proof (lookup_lt_Some _ _ _ Hs) as Hlt.
  run_step. rewrite Hs. simpl.
  destruct (dict_get key (_attributes s)) as [o|]; [done|]. simpl.
  rewrite Hs. simpl.
  destruct (trees h !! _config_tree s) as [[|]|]; [done| |done]. simpl.
  rewrite list_lookup_insert_eq by (rewrite length_app; simpl; lia).
  simpl. by rewrite dict_get_set_eq.
Qed.

Lemma setitem_run (h : heap) (a : addr) (s : ConfigStore) (key : string) (value : obj) :
  stores h !! a = Some s ->
  __setitem__ a key value h =
    match trees h !! _config_tree s with
    | Some true =>
        (h, Raise (LockedError ("Cannot set key " ++ key ++ " for locked " ++ _name s)))
    | Some false =>
        (mkHeap (trees h)
           (<[a := with_attributes s (dict_set key value (_attributes s))]> (stores h)),
         Ok tt)
    | None => (h, Stuck)
    end.
Proof.
  intros Hs. run_step. rewrite Hs. simpl.
  destruct (trees h !! _config_tree s) as [[|]|]; simpl; [|by rewrite Hs|done].
  by rewrite Hs.
Qed.

(** C5: on a node whose tree is locked, [get] of an absent key raises
    [UndefinedKeyError] naming the dotted path and the key, and the heap (so
    the children of the node, and every other object) is left as it was: no
    node is created. *)
Theorem getitem_locked_missing (h : heap) (a : addr) (s : ConfigStore) (key : string) :
  stores h !! a = Some s ->
  trees h !! _config_tree s = Some true ->
  dict_get key (_attributes s) = None ->
  __getitem__ a key h =
    (h, Raise (UndefinedKeyError
                 ("Configuration key not found: " ++ _name s ++ "." ++ key))).
Proof.
  intros Hs Ht Hk. rewrite (getitem_run h a s key Hs).
  rewrite Hk. by rewrite Ht.
Qed.

(** C6: on a node whose tree is locked, [set] raises [LockedError] for every
    key and value and leaves the whole heap as it was. *)
Theorem setitem_locked (h : heap) (a : addr) (s : ConfigStore)
    (key : string) (value : obj) :
  stores h !! a = Some s ->
  trees h !! _config_tree s = Some true ->
  __setitem__ a key value h =
    (h, Raise (LockedError ("Cannot set key " ++ key ++ " for locked " ++ _name s))).
Proof.
  intros Hs Ht. rewrite (setitem_run h a s key value Hs). by rewrite Ht.
Qed.

(** C7: on a node whose tree is unlocked, [get] of an absent key allocates a
    node that did not exist, empty and named after its parent, stores it
    under the key (the other keys keep their values) and returns it; a second
    [get] returns the same address and changes nothing. *)
Theorem getitem_unlocked_missing (h : heap) (a : addr) (s : ConfigStore) (key : string) :
  stores h !! a = Some s ->
  trees h !! _config_tree s = Some false ->
  dict_get key (_attributes s) = None ->
  exists (h' : heap) (c : addr) (s' : ConfigStore),
    __getitem__ a key h = (h', Ok (ORef c))
    /\ stores h !! c = None
    /\ stores h' !! c =
         Some (mkStore (_config_tree s) (_name s ++ "." ++ key) (_path s ++ [key]) [])
    /\ stores h' !! a = Some s'
    /\ dict_get key (_attributes s') = Some (ORef c)
    /\ (forall k, k <> key -> dict_get k (_attributes s') = dict_get k (_attributes s))
    /\ __getitem__ a key h' = (h', Ok (ORef c)).
Proof.
  intros Hs Ht Hk.
  pose proof (lookup_lt_Some _ _ _ Hs) as Hlt.
  set (c := length (stores h)).
  set (child := mkStore (_config_tree s) (_name s ++ "." ++ key) (_path s ++ [key]) []).
  set (s' := with_attributes s (dict_set key (ORef c) (_attributes s))).
  assert (Ha' : <[a := s']> (stores h ++ [child])%list !! a = Some s').
  { apply list_lookup_insert_eq. rewrite length_app. simpl. lia. }
  exists (mkHeap (trees h) (<[a := s']> (stores h ++ [child])%list)), c, s'.
  split.
  { rewrite (getitem_run h a s key Hs). rewrite Hk. by rewrite Ht. }
  split.
  { apply lookup_ge_None. unfold c. lia. }
  split.
  { simpl. rewrite list_lookup_insert_ne by (unfold c; lia).
    rewrite lookup_app_r by (unfold c; lia).
    unfold c. by rewrite Nat.sub_diag. }
  split; [exact Ha'|].
  split; [apply dict_get_set_eq|].
  split.
  { intros k Hne. simpl. by apply dict_get_set_ne. }
  rewrite (getitem_run (mkHeap (trees h) (<[a := s']> (stores h ++ [child])%list))
             a s' key Ha').
  simpl. by rewrite dict_get_set_eq.
Qed.

(** C10: for a key that does not start with an underscore and that
    [hasattr(ConfigStore, key)] does not find, the attribute hooks are the
    item methods: [__getattr__] gives the result and the heap of
    [__getitem__], [__setattr__] those of [__setitem__], errors included.
    (Python calls [__getattr__] for exactly such names: the instance slots
    all start with an underscore.) *)
Theorem attribute_access_is_item_access (a : addr) (key : string) (value : obj) (h : heap) :
  startswith "_" key = false ->
  hasattr_ConfigStore key = false ->
  __getattr__ a key h = __getitem__ a key h
  /\ __setattr__ a key value h = __setitem__ a key value h.
Proof.
  intros Hu Hc. unfold __getattr__, __setattr__. by rewrite Hu, Hc.
Qed.

(** ** Loading and applying directives *)

Lemma world_eta (w : world) : mkWorld (conf w) (mem w) = w.
Proof. by destruct w. Qed.

(** C4: a directive with [raw=False], a file path, and a mapping document
    that is not empty and has no key for the active environment makes
    [mixin_config] raise [MissingEnvironment] with the message naming the
    environment and the file; the state after the raise is the state before
    it, nothing was unlocked or merged. *)
Theorem mixin_config_missing_environment
    (w : world) (d : directive) (m : list (string * pyval)) (fp : string) :
  raw d = false ->
  filepath d = Some fp ->
  fp <> "" ->
  config d = PDict m ->
  m <> [] ->
  dict_get (env (conf w)) m = None ->
  mixin_config d w =
    (w, Raise (MissingEnvironment
                 ("Current environment " ++ env (conf w)
                  ++ " not defined in config file " ++ fp
                  ++ ". (HINT: you should have a YAML key of " ++ env (conf w)
                  ++ ". You may want to inherit a default via YAML's `<<` operator.)"))).
Proof.
  intros Hraw Hfp Hne Hcfg _ Hmiss.
  unfold mixin_config, bind, self, has_filepath, show_filepath, lift_outcome.
  rewrite Hraw, Hfp, Hcfg. simpl.
  rewrite andb_false_r. simpl.
  destruct (String.eqb fp "") eqn:E.
  { apply String.eqb_eq in E. contradiction. }
  simpl. unfold dict_has. rewrite Hmiss. reflexivity.
Qed.

Section RegisterFacts.

Variable fs : string -> option string.
Variable yaml_load : string -> pyval + string.

(** C3 (what the code does): when the file exists and [yaml.load] raises,
    the handler asks for [sys], which the module never imports; the call
    ends in [NameError] before the [raise ConfigFileError] line is reached,
    and the state is untouched. *)
Theorem register_parse_failure_raises_NameError
    (fp f e : string) (rw opt : bool) (nst : option string) (w : world) :
  startswith "/" fp = true ->
  fs fp = Some f ->
  yaml_load f = inr e ->
  register fs yaml_load fp rw opt nst w =
    (w, Raise (NameError "global name 'sys' is not defined")).
Proof.
  intros Habs Hf Hy. unfold register, bind, path_exists.
  rewrite Habs, Hf. simpl. rewrite andb_false_r. rewrite Hy.
  reflexivity.
Qed.

End RegisterFacts.

(** [clear] on a locked root with no key [attributes]: the lookup of
    [self.attributes] raises, nothing is cleared. *)
Lemma clear_locked_raises (fuel : nat) (h : heap) (a : addr) (s : ConfigStore) :
  stores h !! a = Some s ->
  trees h !! _config_tree s = Some true ->
  dict_get "attributes" (_attributes s) = None ->
  clear (S fuel) a h =
    (h, Raise (UndefinedKeyError
                 ("Configuration key not found: " ++ _name s ++ ".attributes"))).
Proof.
  intros Hs Ht Hk. simpl. unfold bind at 1.
  change (__getattr__ a "attributes") with (__getitem__ a "attributes").
  rewrite (getitem_run h a s "attributes" Hs). rewrite Hk. by rewrite Ht.
Qed.

(** C1 (what the code does): after [register('/env.yaml')] under [dev] the
    tree reads [{x: 2}]; [set_env('prod')] then stores the new environment
    and fails in [clear] with [UndefinedKeyError] for the key [attributes]:
    no directive is replayed and the tree still reads [{x: 2}], not the
    [{x: 1}] a fresh process under [prod] shows.  The budget of [clear] plays
    no part. *)
Theorem set_env_fails_in_clear (fuel : nat) :
  let w0 := fresh_process "dev" in
  let w1 := fst (register example_fs example_yaml "/env.yaml" false false None w0) in
  let w2 := fst (set_env (S fuel) "prod" w1) in
  let w' := fst (register example_fs example_yaml "/env.yaml" false false None
                   (fresh_process "prod")) in
  snd (register example_fs example_yaml "/env.yaml" false false None w0) = Ok tt
  /\ snd (to_dict 2 (configatron (conf w1)) (mem w1)) = Ok (PDict [("x", PInt 2)])
  /\ snd (set_env (S fuel) "prod" w1) =
       Raise (UndefinedKeyError "Configuration key not found: config.attributes")
  /\ env (conf w2) = "prod"
  /\ snd (to_dict 2 (configatron (conf w2)) (mem w2)) = Ok (PDict [("x", PInt 2)])
  /\ snd (to_dict 2 (configatron (conf w')) (mem w')) = Ok (PDict [("x", PInt 1)]).
Proof. vm_compute. repeat split. Qed.

(** C2 (counterexample): the document [{dev: 5}] passes the environment
    check, the tree is unlocked, [update_dict(5)] raises, and the call
    returns to its caller with the tree unlocked. *)
Lemma register_parsed_leaves_unlocked :
  let run := register_parsed (PDict [("dev", PInt 5)]) (Some "/env.yaml")
               false false None (fresh_process "dev") in
  snd run = Raise (AttributeError "'int' object has no attribute 'iteritems'")
  /\ trees (mem (fresh_process "dev")) !! 0 = Some true
  /\ get_locked (configatron (conf (fst run))) (mem (fst run))
     = (mem (fst run), Ok false).
Proof. vm_compute. repeat split. Qed.

(** ** Merging *)

Lemma bind_ok {S A B : Type} (m : M S A) (f : A -> M S B) (s s' : S) (a : A) :
  m s = (s', Ok a) -> bind m f s = f a s'.
Proof. intros H. unfold bind. by rewrite H. Qed.

Lemma getitem_present (h : heap) (a : addr) (s : ConfigStore) (key : string) (o : obj) :
  stores h !! a = Some s ->
  dict_get key (_attributes s) = Some o ->
  __getitem__ a key h = (h, Ok o).
Proof. intros Hs Hk. rewrite (getitem_run h a s key Hs). by rewrite Hk. Qed.

Lemma getitem_absent (h : heap) (a : addr) (s : ConfigStore) (key : string) :
  stores h !! a = Some s ->
  trees h !! _config_tree s = Some false ->
  dict_get key (_attributes s) = None ->
  __getitem__ a key h =
    (mkHeap (trees h)
       (<[a := with_attributes s (_attributes s ++ [(key, ORef (length (stores h)))])%list]>
          (stores h ++ [mkStore (_config_tree s) (_name s ++ "." ++ key)
                          (_path s ++ [key]) []])%list),
     Ok (ORef (length (stores h)))).
Proof.
  intros Hs Ht Hk. rewrite (getitem_run h a s key Hs). rewrite Hk, Ht.
  by rewrite (dict_set_absent _ _ _ Hk).
Qed.

Lemma setitem_unlocked (h : heap) (a : addr) (s : ConfigStore)
    (key : string) (value : obj) :
  stores h !! a = Some s ->
  trees h !! _config_tree s = Some false ->
  __setitem__ a key value h =
    (mkHeap (trees h)
       (<[a := with_attributes s (dict_set key value (_attributes s))]> (stores h)),
     Ok tt).
Proof. intros Hs Ht. rewrite (setitem_run h a s key value Hs). by rewrite Ht. Qed.

Lemma update_item_dict (m : list (string * pyval)) (a : addr) (key : string) (h : heap) :
  update_item (PDict m) a key h =
    (let* o := __getitem__ a key in
     match o with
     | ORef c => update_dict c m
     | OVal w =>
         raise (AttributeError
                  ("'" ++ type_name w ++ "' object has no attribute 'update_dict'"))
     end) h.
Proof.
  assert (E : forall c,
    (fix items (m : list (string * pyval)) : M heap unit :=
       match m with
       | [] => ret tt
       | (k, v) :: m' => update_item v c k;; items m'
       end) m = update_dict c m).
  { intros c. induction m as [|[k v] m IH]; [done|]. simpl. by rewrite IH. }
  simpl. unfold bind.
  destruct (__getitem__ a key h) as [h' [[w|c]| |]]; try done.
  exact (f_equal (fun f => f h') (E c)).
Qed.

Lemma update_item_leaf (v : pyval) (a : addr) (key : string) :
  is_dict v = false -> update_item v a key = __setitem__ a key (OVal v).
Proof. by destruct v. Qed.

Lemma merge_item_dict (m : list (string * pyval)) (key : string)
    (p : list (string * pyval)) :
  merge_item (PDict m) key p =
    match dict_get key p with
    | None =>
        match merge_plain [] m with
        | Some q => Some (dict_set key (PDict q) p)
        | None => None
        end
    | Some (PDict q0) =>
        match merge_plain q0 m with
        | Some q => Some (dict_set key (PDict q) p)
        | None => None
        end
    | Some _ => None
    end.
Proof.
  assert (E : forall acc,
    (fix items (m : list (string * pyval)) (acc : list (string * pyval)) :=
       match m with
       | [] => Some acc
       | (k, v) :: m' =>
           match merge_item v k acc with
           | Some acc' => items m' acc'
           | None => None
           end
       end) m acc = merge_plain acc m).
  { induction m as [|[k v] m IH]; intros acc; [done|]. simpl.
    destruct (merge_item v k acc); [apply IH|done]. }
  simpl. destruct (dict_get key p) as [[]|]; try done.
  all: by rewrite <- E.
Qed.

Lemma merge_item_leaf (v : pyval) (key : string) (p : list (string * pyval)) :
  is_dict v = false -> merge_item v key p = Some (dict_set key v p).
Proof. by destruct v. Qed.

(** *** Trees of nodes *)

Lemma kids_keys (t : addr) (h : heap) attrs p F (k : string) :
  kids t h attrs p F -> dict_get k attrs = None -> dict_get k p = None.
Proof.
  induction 1 as [|k0 v attrs p F Hv Hk0 _ IH|k0 c m Fc attrs p F Hc Hk0 _ IH Hd];
    simpl; [done| |]; destruct (String.eqb k k0); try done; auto.
Qed.

Lemma kids_keys_inv (t : addr) (h : heap) attrs p F (k : string) :
  kids t h attrs p F -> dict_get k p = None -> dict_get k attrs = None.
Proof.
  induction 1 as [|k0 v attrs p F Hv Hk0 _ IH|k0 c m Fc attrs p F Hc Hk0 _ IH Hd];
    simpl; [done| |]; destruct (String.eqb k k0); try done; auto.
Qed.

Lemma shape_live (t : addr) (h : heap) a p F :
  shape t h a p F -> forall x, x ∈ F -> x < length (stores h).
Proof.
  intros H.
  induction H using shape_mut with
    (P0 := fun attrs p F _ => forall x, x ∈ F -> x < length (stores h)).
  - intros x Hx. apply elem_of_cons in Hx as [->|Hx]; [|by auto].
    by eapply lookup_lt_Some.
  - intros x Hx. by apply elem_of_nil in Hx.
  - auto.
  - intros x Hx. apply elem_of_app in Hx as [Hx|Hx]; auto.
Qed.

Lemma kids_live (t : addr) (h : heap) attrs p F :
  kids t h attrs p F -> forall x, x ∈ F -> x < length (stores h).
Proof.
  induction 1 as [|k0 v attrs p F Hv Hk0 _ IH|k0 c m Fc attrs p F Hc Hk0 _ IH Hd].
  - intros x Hx. by apply elem_of_nil in Hx.
  - done.
  - intros x Hx. apply elem_of_app in Hx as [Hx|Hx]; [|by auto].
    by eapply shape_live.
Qed.

Lemma shape_frame (t : addr) (h h' : heap) a p F :
  shape t h a p F ->
  (forall x, x ∈ F -> stores h' !! x = stores h !! x) ->
  shape t h' a p F.
Proof.
  intros H.
  induction H using shape_mut with
    (P0 := fun attrs p F _ =>
             (forall x, x ∈ F -> stores h' !! x = stores h !! x) ->
             kids t h' attrs p F).
  - intros Hfr. econstructor; eauto.
    + rewrite Hfr; [done|]. apply elem_of_cons; auto.
    + apply IHshape. intros x Hx. apply Hfr. apply elem_of_cons; auto.
  - intros _. constructor.
  - intros Hfr. constructor; auto.
  - intros Hfr. constructor; auto.
    + apply IHshape. intros x Hx. apply Hfr. apply elem_of_app; auto.
    + apply IHshape0. intros x Hx. apply Hfr. apply elem_of_app; auto.
Qed.

Lemma kids_frame (t : addr) (h h' : heap) attrs p F :
  kids t h attrs p F ->
  (forall x, x ∈ F -> stores h' !! x = stores h !! x) ->
  kids t h' attrs p F.
Proof.
  induction 1 as [|k0 v attrs p F Hv Hk0 _ IH|k0 c m Fc attrs p F Hc Hk0 _ IH Hd];
    intros Hfr.
  - constructor.
  - constructor; auto.
  - constructor; auto.
    + eapply shape_frame; [done|]. intros x Hx. apply Hfr. apply elem_of_app; auto.
    + apply IH. intros x Hx. apply Hfr. apply elem_of_app; auto.
Qed.

Lemma dict_get_app_None {V : Type} (k k' : string) (v : V) (d : list (string * V)) :
  dict_get k d = None -> k <> k' -> dict_get k (d ++ [(k', v)]) = None.
Proof.
  intros Hd Hne. induction d as [|[k0 v0] d IH]; simpl in *.
  - destruct (String.eqb k k') eqn:E; [|done].
    apply String.eqb_eq in E. contradiction.
  - destruct (String.eqb k k0); [done|]. auto.
Qed.

Lemma kids_set_val (t : addr) (h : heap) attrs p F (k : string) (v : pyval) :
  kids t h attrs p F ->
  is_dict v = false ->
  exists F', kids t h (dict_set k (OVal v) attrs) (dict_set k v p) F'
             /\ (forall x, x ∈ F' -> x ∈ F).
Proof.
  intros H Hv.
  induction H as [|k0 v0 attrs p F Hv0 Hk0 HK IH|k0 c m Fc attrs p F Hc Hk0 HK IH Hd];
    simpl.
  - exists []. split; [|done]. constructor; [done|done|constructor].
  - destruct (String.eqb k k0) eqn:E.
    + apply String.eqb_eq in E. subst k0. exists F. split; [|done].
      by constructor.
    + apply String.eqb_neq in E. destruct IH as (F' & HK' & Hsub).
      exists F'. split; [|done]. constructor; [done| |done].
      by rewrite dict_get_set_ne.
  - destruct (String.eqb k k0) eqn:E.
    + apply String.eqb_eq in E. subst k0. exists F. split.
      * by constructor.
      * intros x Hx. apply elem_of_app. auto.
    + apply String.eqb_neq in E. destruct IH as (F' & HK' & Hsub).
      exists (Fc ++ F')%list. split.
      * constructor; [done| |done|].
        -- by rewrite dict_get_set_ne.
        -- intros x Hx Hx'. by apply (Hd x Hx), Hsub.
      * intros x Hx. apply elem_of_app in Hx as [Hx|Hx]; apply elem_of_app; auto.
Qed.

Lemma kids_snoc_ref (t : addr) (h : heap) attrs p F (k : string) (c : addr) m Fc :
  kids t h attrs p F ->
  dict_get k attrs = None ->
  shape t h c m Fc ->
  (forall x, x ∈ Fc -> x ∉ F) ->
  kids t h (attrs ++ [(k, ORef c)])%list (p ++ [(k, PDict m)])%list (F ++ Fc)%list.
Proof.
  intros H Hk Hc Hdis.
  induction H as [|k0 v0 attrs p F Hv0 Hk0 HK IH|k0 c0 m0 Fc0 attrs p F Hc0 Hk0 HK IH Hd];
    simpl in *.
  - rewrite <- (app_nil_r Fc). constructor; [done|done|constructor|].
    intros x _ Hx. by apply elem_of_nil in Hx.
  - destruct (String.eqb k k0) eqn:E; [done|]. apply String.eqb_neq in E.
    constructor; [done| |by auto].
    apply dict_get_app_None; [done|congruence].
  - destruct (String.eqb k k0) eqn:E; [done|]. apply String.eqb_neq in E.
    rewrite <- app_assoc. constructor; [done| | |].
    + apply dict_get_app_None; [done|congruence].
    + apply IH; [done|]. intros x Hx Hx'. apply (Hdis x Hx). apply elem_of_app; auto.
    + intros x Hx Hx'. apply elem_of_app in Hx' as [Hx'|Hx'].
      * by apply (Hd x).
      * apply (Hdis x Hx'). apply elem_of_app; auto.
Qed.

Lemma kids_lookup_ref (t : addr) (h : heap) attrs p F (k : string) (c : addr) :
  kids t h attrs p F ->
  dict_get k attrs = Some (ORef c) ->
  exists m Fc,
    dict_get k p = Some (PDict m)
    /\ shape t h c m Fc
    /\ (forall x, x ∈ Fc -> x ∈ F)
    /\ forall h' m' Fc',
         shape t h' c m' Fc' ->
         (forall x, x < length (stores h) -> x ∉ Fc -> stores h' !! x = stores h !! x) ->
         (forall x, x ∈ Fc' -> x ∈ Fc \/ length (stores h) <= x) ->
         exists F', kids t h' attrs (dict_set k (PDict m') p) F'
                    /\ (forall x, x ∈ F' -> x ∈ F \/ length (stores h) <= x).
Proof.
  intros H.
  induction H as [|k0 v0 attrs p F Hv0 Hk0 HK IH|k0 c0 m0 Fc0 attrs p F Hc0 Hk0 HK IH Hd];
    simpl; intros Hk.
  - done.
  - destruct (String.eqb k k0) eqn:E; [done|].
    destruct (IH Hk) as (m & Fc & Hp & Hc & Hsub & Hcont).
    exists m, Fc. repeat split; [done|done|done|].
    intros h' m' Fc' Hc' Hout Hnew.
    destruct (Hcont h' m' Fc' Hc' Hout Hnew) as (F' & HK' & HF').
    exists F'. split; [|done]. by constructor.
  - destruct (String.eqb k k0) eqn:E.
    + apply String.eqb_eq in E. subst k0. injection Hk as ->.
      exists m0, Fc0. repeat split; [done| |].
      { intros x Hx. apply elem_of_app; auto. }
      intros h' m' Fc' Hc' Hout Hnew.
      exists (Fc' ++ F)%list. split.
      * constructor; [done|done| |].
        -- eapply kids_frame; [done|]. intros x Hx. apply Hout.
           ++ by eapply kids_live.
           ++ intros Hx'. by apply (Hd x).
        -- intros x Hx Hx'. destruct (Hnew x Hx) as [Hold|Hge].
           ++ by apply (Hd x).
           ++ pose proof (kids_live _ _ _ _ _ HK x Hx'). lia.
      * intros x Hx. apply elem_of_app in Hx as [Hx|Hx].
        -- destruct (Hnew x Hx); [left; apply elem_of_app|]; auto.
        -- left. apply elem_of_app; auto.
    + destruct (IH Hk) as (m & Fc & Hp & Hc & Hsub & Hcont).
      exists m, Fc. repeat split; [done|done| |].
      { intros x Hx. apply elem_of_app; auto. }
      intros h' m' Fc' Hc' Hout Hnew.
      destruct (Hcont h' m' Fc' Hc' Hout Hnew) as (F' & HK' & HF').
      exists (Fc0 ++ F')%list. split.
      * constructor; [|done|done|].
        -- eapply shape_frame; [done|]. intros x Hx. apply Hout.
           ++ exact (shape_live _ _ _ _ _ Hc0 x Hx).
           ++ intros Hx'. by apply (Hd x Hx), Hsub.
        -- intros x Hx Hx'. destruct (HF' x Hx') as [Hold|Hge].
           ++ by apply (Hd x).
           ++ pose proof (shape_live _ _ _ _ _ Hc0 x Hx). lia.
      * intros x Hx. apply elem_of_app in Hx as [Hx|Hx].
        -- left. apply elem_of_app; auto.
        -- destruct (HF' x Hx); [left; apply elem_of_app|]; auto.
Qed.

Lemma within_refl (h : heap) (F : list addr) : within h F h F.
Proof. repeat split; auto. Qed.

Lemma within_trans (h h1 h2 : heap) (F F1 F2 : list addr) :
  within h F h1 F1 -> within h1 F1 h2 F2 -> within h F h2 F2.
Proof.
  intros (Ht1 & Hl1 & Ho1 & Hn1) (Ht2 & Hl2 & Ho2 & Hn2).
  repeat split.
  - congruence.
  - lia.
  - intros x Hx HF. rewrite Ho2; [by apply Ho1|lia|].
    intros Hx1. destruct (Hn1 x Hx1); [done|lia].
  - intros x Hx. destruct (Hn2 x Hx) as [Hx1|Hge]; [|right; lia].
    by apply Hn1.
Qed.

Lemma kids_lookup_plain (t : addr) (h : heap) attrs p F (k : string) q :
  kids t h attrs p F ->
  dict_get k p = Some (PDict q) ->
  exists c, dict_get k attrs = Some (ORef c).
Proof.
  induction 1 as [|k0 v0 attrs p F Hv0 Hk0 HK IH|k0 c0 m0 Fc0 attrs p F Hc0 Hk0 HK IH Hd];
    simpl; [done| |].
  - destruct (String.eqb k k0); [|done]. intros [= ->]. done.
  - destruct (String.eqb k k0); [|done]. eauto.
Qed.

Lemma update_dict_merges (m : list (string * pyval)) :
  Forall (fun kv => merges (snd kv)) m ->
  forall (t a : addr) (h : heap) p F p',
    shape t h a p F ->
    trees h !! t = Some false ->
    merge_plain p m = Some p' ->
    exists h' F',
      update_dict a m h = (h', Ok tt)
      /\ shape t h' a p' F'
      /\ within h F h' F'.
Proof.
  induction 1 as [|[k v] m Hv _ IH]; intros t a h p F p' Hs Hu Hm; simpl in *.
  - injection Hm as <-. exists h, F. split; [done|]. split; [done|apply within_refl].
  - destruct (merge_item v k p) as [p1|] eqn:E; [|done].
    destruct (Hv t a k h p F p1 Hs Hu E) as (h1 & F1 & Hrun & Hs1 & Hw1).
    assert (Hu1 : trees h1 !! t = Some false).
    { destruct Hw1 as (-> & _). done. }
    destruct (IH t a h1 p1 F1 p' Hs1 Hu1 Hm) as (h2 & F2 & Hrun2 & Hs2 & Hw2).
    exists h2, F2. split; [|split; [done|by eapply within_trans]].
    unfold bind. by rewrite Hrun.
Qed.

Lemma update_item_merges (v : pyval) : merges v.
Proof.
  induction v as [v Hleaf|m IHm] using pyval_nested_ind;
    intros t a k h p F p' Hs Hu Hm.
  - rewrite (update_item_leaf v a k Hleaf).
    rewrite (merge_item_leaf v k p Hleaf) in Hm. injection Hm as <-.
    destruct Hs as [a s p F Ha Ht HK HaF].
    pose proof (lookup_lt_Some _ _ _ Ha) as Hlt.
    destruct (kids_set_val t h _ p F k v HK Hleaf) as (F' & HK' & Hsub).
    set (s1 := with_attributes s (dict_set k (OVal v) (_attributes s))).
    exists (mkHeap (trees h) (<[a := s1]> (stores h))), (a :: F').
    split; [|split].
    + apply setitem_unlocked; [done|by rewrite Ht].
    + apply shape_node with (s := s1); simpl.
      * by apply list_lookup_insert_eq.
      * done.
      * eapply kids_frame; [done|]. simpl. intros x Hx.
        apply list_lookup_insert_ne. intros ->. by apply HaF, Hsub.
      * intros Hx. by apply HaF, Hsub.
    + repeat split; simpl.
      * by rewrite length_insert.
      * intros x _ Hx. apply list_lookup_insert_ne. intros ->.
        apply Hx, elem_of_cons; auto.
      * intros x Hx. left. apply elem_of_cons in Hx as [->|Hx]; apply elem_of_cons; auto.
  - rewrite update_item_dict. rewrite merge_item_dict in Hm.
    destruct Hs as [a s p F Ha Ht HK HaF].
    pose proof (lookup_lt_Some _ _ _ Ha) as Hlt.
    destruct (dict_get k p) as [v0|] eqn:Ep.
    + destruct v0 as [| | | | |q0]; try done.
      destruct (merge_plain q0 m) as [q|] eqn:Eq; [|done]. injection Hm as <-.
      destruct (kids_lookup_plain _ _ _ _ _ _ _ HK Ep) as (c & Hkc).
      destruct (kids_lookup_ref _ _ _ _ _ _ _ HK Hkc)
        as (m0 & Fc & Hp & Hc & Hsub & Hcont).
      rewrite Ep in Hp. injection Hp as <-.
      destruct (update_dict_merges m IHm t c h q0 Fc q Hc Hu Eq)
        as (h2 & Fc' & Hrun & Hc' & (Htr & Hlen & Hout & Hnew)).
      destruct (Hcont h2 q Fc' Hc' Hout Hnew) as (F' & HK' & HF').
      assert (HaFc : a ∉ Fc) by (intros Hx; by apply HaF, Hsub).
      exists h2, (a :: F'). split; [|split].
      * unfold bind. by rewrite (getitem_present h a s k (ORef c) Ha Hkc).
      * apply shape_node with (s := s); [|done|done|].
        -- by rewrite Hout.
        -- intros Hx. destruct (HF' a Hx); [done|lia].
      * repeat split; [done|done| |].
        -- intros x Hx HxF. apply Hout; [done|]. intros Hx'.
           apply HxF, elem_of_cons. auto.
        -- intros x Hx. apply elem_of_cons in Hx as [->|Hx].
           ++ left. apply elem_of_cons; auto.
           ++ destruct (HF' x Hx); [left; apply elem_of_cons|]; auto.
    + destruct (merge_plain [] m) as [q|] eqn:Eq; [|done]. injection Hm as <-.
      pose proof (kids_keys_inv _ _ _ _ _ k HK Ep) as Hk.
      set (c := length (stores h)).
      set (child := mkStore (_config_tree s) (_name s ++ "." ++ k) (_path s ++ [k]) []).
      set (s1 := with_attributes s (_attributes s ++ [(k, ORef c)])%list).
      set (h1 := mkHeap (trees h) (<[a := s1]> (stores h ++ [child])%list)).
      assert (Hget : __getitem__ a k h = (h1, Ok (ORef c))).
      { apply getitem_absent; [done|by rewrite Ht|done]. }
      assert (Hlen1 : length (stores h1) = S (length (stores h))).
      { simpl. rewrite length_insert, length_app. simpl. lia. }
      assert (Ha1 : stores h1 !! a = Some s1).
      { simpl. apply list_lookup_insert_eq. rewrite length_app. simpl. lia. }
      assert (Hold1 : forall x, x < length (stores h) -> x <> a ->
                                stores h1 !! x = stores h !! x).
      { intros x Hx Hne. simpl. rewrite list_lookup_insert_ne by done.
        by apply lookup_app_l. }
      assert (Hc1 : shape t h1 c [] [c]).
      { apply shape_node with (s := child); [|done|constructor|].
        - simpl. rewrite list_lookup_insert_ne by (unfold c; lia).
          rewrite lookup_app_r by (unfold c; lia).
          unfold c. by rewrite Nat.sub_diag.
        - intros Hx. by apply elem_of_nil in Hx. }
      destruct (update_dict_merges m IHm t c h1 [] [c] q Hc1 Hu Eq)
        as (h2 & Fc' & Hrun & Hc' & (Htr & Hlen & Hout & Hnew)).
      assert (Hnew' : forall x, x ∈ Fc' -> length (stores h) <= x).
      { intros x Hx. destruct (Hnew x Hx) as [Hx'|Hx'].
        - apply list_elem_of_singleton in Hx'. subst x. unfold c. lia.
        - lia. }
      assert (Hold2 : forall x, x < length (stores h) -> stores h2 !! x = stores h1 !! x).
      { intros x Hx. apply Hout; [lia|].
        intros Hx'. apply list_elem_of_singleton in Hx'. unfold c in Hx'. lia. }
      exists h2, (a :: (F ++ Fc'))%list. split; [|split].
      * unfold bind. by rewrite Hget.
      * rewrite (dict_set_absent _ _ _ Ep).
        apply shape_node with (s := s1); [| done | |].
        -- by rewrite Hold2.
        -- simpl. apply kids_snoc_ref; [|done|done|].
           ++ eapply kids_frame; [done|]. intros x Hx.
              pose proof (kids_live _ _ _ _ _ HK x Hx) as Hxl.
              rewrite Hold2 by done. apply Hold1; [done|]. by intros ->.
           ++ intros x Hx Hx'. pose proof (kids_live _ _ _ _ _ HK x Hx').
              pose proof (Hnew' x Hx). lia.
        -- intros Hx. apply elem_of_app in Hx as [Hx|Hx]; [done|].
           pose proof (Hnew' a Hx). lia.
      * repeat split.
        -- done.
        -- lia.
        -- intros x Hx HxF. rewrite Hold2 by done. apply Hold1; [done|].
           intros ->. apply HxF, elem_of_cons. auto.
        -- intros x Hx. apply elem_of_cons in Hx as [->|Hx].
           ++ left. apply elem_of_cons; auto.
           ++ apply elem_of_app in Hx as [Hx|Hx].
              ** left. apply elem_of_cons; auto.
              ** right. by apply Hnew'.
Qed.

(** *** Reading a tree back *)

Lemma shape_to_dict (t : addr) (h : heap) a p F :
  shape t h a p F ->
  exists n, forall fuel, n <= fuel -> to_dict fuel a h = (h, Ok (PDict p)).
Proof.
  intros H.
  induction H using shape_mut with
    (P0 := fun attrs p F _ =>
             exists n, forall fuel, n <= fuel ->
               forall output,
                 (forall k, dict_get k p <> None -> dict_get k output = None) ->
                 to_dict_items (to_dict fuel) attrs output h
                 = (h, Ok (PDict (output ++ p)%list))).
  - destruct IHshape as (b & Hb). exists (S b). intros [|fuel] Hle; [lia|].
    simpl. unfold bind, read_store.
    match goal with E : stores h !! _ = Some _ |- _ => rewrite E end.
    apply Hb; [lia|done].
  - exists 0. intros fuel _ output _. simpl. by rewrite app_nil_r.
  - destruct IHshape as (b & Hb). exists b. intros fuel Hle output Hout.
    simpl. unfold bind, ret.
    rewrite (dict_set_absent k v output).
    + rewrite Hb; [by rewrite <- app_assoc|done|].
      intros k' Hk'. apply dict_get_app_None.
      * apply Hout. simpl. destruct (String.eqb k' k); [done|done].
      * intros ->. apply Hk'. by eapply kids_keys.
    + apply Hout. simpl. by rewrite String.eqb_refl.
  - destruct IHshape as (b1 & Hb1). destruct IHshape0 as (b2 & Hb2).
    exists (max b1 b2). intros fuel Hle output Hout.
    simpl. unfold bind. rewrite Hb1 by lia.
    rewrite (dict_set_absent k (PDict m) output).
    + rewrite Hb2; [by rewrite <- app_assoc|lia|].
      intros k' Hk'. apply dict_get_app_None.
      * apply Hout. simpl. destruct (String.eqb k' k); [done|done].
      * intros ->. apply Hk'. by eapply kids_keys.
    + apply Hout. simpl. by rewrite String.eqb_refl.
Qed.

(** *** Raw registrations *)

Lemma shape_root (t : addr) (h : heap) a p F :
  shape t h a p F -> exists s, stores h !! a = Some s /\ _config_tree s = t.
Proof. destruct 1; eauto. Qed.

Lemma set_locked_run (h : heap) (a : addr) (s : ConfigStore) (b b0 : bool) :
  stores h !! a = Some s ->
  trees h !! _config_tree s = Some b0 ->
  __setattr__ a "locked" (OVal (PBool b)) h
  = (mkHeap (<[_config_tree s := b]> (trees h)) (stores h), Ok tt).
Proof.
  intros Hs Ht. unfold __setattr__. simpl. unfold super_setattr. simpl.
  unfold set_locked, bind, read_store. rewrite Hs. by rewrite Ht.
Qed.

Lemma mixin_config_raw (w : world) (d : directive) (t : addr) m p F p' :
  raw d = true ->
  nested d = None ->
  config d = PDict m ->
  shape t (mem w) (configatron (conf w)) p F ->
  is_Some (trees (mem w) !! t) ->
  merge_plain p m = Some p' ->
  exists h' F',
    mixin_config d w = (mkWorld (conf w) h', Ok tt)
    /\ shape t h' (configatron (conf w)) p' F'
    /\ trees h' !! t = Some true.
Proof.
  intros Hraw Hnest Hcfg Hs [b0 Ht] Hm.
  destruct w as [c h]. simpl in *.
  destruct (shape_root _ _ _ _ _ Hs) as (s & Ha & Hts).
  pose proof (lookup_lt_Some _ _ _ Ht) as Htlt.
  set (h0 := mkHeap (<[t := false]> (trees h)) (stores h)).
  assert (Hs0 : shape t h0 (configatron c) p F) by (eapply shape_frame; done).
  assert (Hu0 : trees h0 !! t = Some false) by (by apply list_lookup_insert_eq).
  destruct (update_dict_merges m
              (proj2 (Forall_forall _ _) (fun kv _ => update_item_merges (snd kv)))
              t (configatron c) h0 p F p' Hs0 Hu0 Hm)
    as (h2 & F2 & Hrun & Hs2 & (Htr & _)).
  destruct (shape_root _ _ _ _ _ Hs2) as (s2 & Ha2 & Hts2).
  exists (mkHeap (<[t := true]> (trees h2)) (stores h2)), F2.
  split; [|split].
  - unfold mixin_config, bind, self, on_heap. simpl.
    rewrite Hraw, Hnest, Hcfg. simpl. rewrite andb_false_r. simpl.
    assert (Hu : trees h !! _config_tree s = Some b0) by (by rewrite Hts).
    rewrite (set_locked_run h _ s false b0 Ha Hu).
    rewrite Hts. fold h0. unfold ret. simpl. rewrite Hrun.
    assert (Hu2 : trees h2 !! _config_tree s2 = Some false) by (by rewrite Hts2, Htr).
    simpl. rewrite (set_locked_run h2 _ s2 true false Ha2 Hu2). by rewrite Hts2.
  - eapply shape_frame; done.
  - simpl. apply list_lookup_insert_eq. rewrite Htr. simpl. by rewrite length_insert.
Qed.

Lemma register_raw_merges (w : world) (d : list (string * pyval)) (t : addr) p F p' :
  shape t (mem w) (configatron (conf w)) p F ->
  is_Some (trees (mem w) !! t) ->
  merge_plain p d = Some p' ->
  exists w' F',
    register_raw d w = (w', Ok tt)
    /\ configatron (conf w') = configatron (conf w)
    /\ shape t (mem w') (configatron (conf w')) p' F'
    /\ trees (mem w') !! t = Some true.
Proof.
  intros Hs Ht Hm.
  set (dv := mkDirective (PDict d) None true false None).
  set (w0 := mkWorld (mkConfiguration (directives (conf w) ++ [dv])
                        (env (conf w)) (configatron (conf w))) (mem w)).
  destruct (mixin_config_raw w0 dv t d p F p' eq_refl eq_refl eq_refl Hs Ht Hm)
    as (h' & F' & Hrun & Hs' & Hl').
  exists (mkWorld (conf w0) h'), F'. split; [|done].
  unfold register_raw, register_parsed, bind, self, set_conf. simpl.
  fold dv. fold w0. by rewrite Hrun.
Qed.

Lemma register_raw_all (ds : list (list (string * pyval))) :
  forall (w : world) (t : addr) p F p',
    shape t (mem w) (configatron (conf w)) p F ->
    is_Some (trees (mem w) !! t) ->
    merge_all p ds = Some p' ->
    exists w' F',
      for_each register_raw ds w = (w', Ok tt)
      /\ shape t (mem w') (configatron (conf w')) p' F'.
Proof.
  induction ds as [|d ds IH]; intros w t p F p' Hs Ht Hm; simpl in *.
  - injection Hm as <-. by exists w, F.
  - destruct (merge_plain p d) as [p1|] eqn:E; [|done].
    destruct (register_raw_merges w d t p F p1 Hs Ht E)
      as (w1 & F1 & Hrun & _ & Hs1 & Hl1).
    destruct (IH w1 t p1 F1 p' Hs1 (mk_is_Some _ _ Hl1) Hm) as (w2 & F2 & Hrun2 & Hs2).
    exists w2, F2. split; [|done]. unfold bind. by rewrite Hrun.
Qed.

Lemma distinct_keys_dict (m : list (string * pyval)) :
  distinct_keys (PDict m) ->
  NoDup (keys m) /\ Forall (fun kv => distinct_keys (snd kv)) m.
Proof.
  simpl. intros [Hnd Hall]. split; [done|]. clear Hnd.
  induction m as [|[k v] m IH]; [constructor|].
  destruct Hall as [Hv Hall]. constructor; auto.
Qed.

Lemma merge_plain_append (m : list (string * pyval)) :
  Forall (fun kv => forall k p, distinct_keys (snd kv) -> dict_get k p = None ->
                      merge_item (snd kv) k p = Some (p ++ [(k, snd kv)])%list) m ->
  NoDup (keys m) ->
  Forall (fun kv => distinct_keys (snd kv)) m ->
  forall acc,
    (forall k, k ∈ keys m -> dict_get k acc = None) ->
    merge_plain acc m = Some (acc ++ m)%list.
Proof.
  induction 1 as [|[k v] m Hv _ IH]; intros Hnd Hall acc Hacc; simpl in *.
  - by rewrite app_nil_r.
  - apply NoDup_cons in Hnd as [Hk Hnd]. apply Forall_cons in Hall as [Hdv Hall].
    rewrite Hv; [|done|apply Hacc; apply elem_of_cons; auto].
    rewrite IH; [by rewrite <- app_assoc|done|done|].
    intros k' Hk'. apply dict_get_app_None.
    + apply Hacc. apply elem_of_cons. auto.
    + intros ->. done.
Qed.

Lemma merge_item_append (v : pyval) :
  forall k p, distinct_keys v -> dict_get k p = None ->
    merge_item v k p = Some (p ++ [(k, v)])%list.
Proof.
  induction v as [v Hleaf|m IHm] using pyval_nested_ind; intros k p Hd Hk.
  - rewrite merge_item_leaf by done. by rewrite dict_set_absent.
  - rewrite merge_item_dict, Hk.
    apply distinct_keys_dict in Hd as [Hnd Hall].
    rewrite (merge_plain_append m IHm Hnd Hall []) by done.
    simpl. by rewrite dict_set_absent.
Qed.

Lemma merge_plain_fresh (d : list (string * pyval)) :
  distinct_keys (PDict d) -> merge_plain [] d = Some d.
Proof.
  intros Hd. apply distinct_keys_dict in Hd as [Hnd Hall].
  apply (merge_plain_append d); try done.
  apply Forall_forall. intros kv _ k p. apply merge_item_append.
Qed.

Lemma fresh_process_shape (e : string) :
  shape 0 (mem (fresh_process e)) (configatron (conf (fresh_process e))) [] [0]
  /\ trees (mem (fresh_process e)) !! 0 = Some true.
Proof.
  split; [|done].
  apply shape_node with (s := mkStore 0 "config" [] []); try done.
  - constructor.
  - intros H. by apply elem_of_nil in H.
Qed.

Lemma raw_registrations_return
    (e : string) (ds : list (list (string * pyval))) (p : list (string * pyval)) :
  merge_all [] ds = Some p ->
  exists w',
    for_each register_raw ds (fresh_process e) = (w', Ok tt)
    /\ exists n, forall fuel, n <= fuel ->
         to_dict fuel (configatron (conf w')) (mem w') = (mem w', Ok (PDict p)).
Proof.
  intros Hm. destruct (fresh_process_shape e) as [Hs Ht].
  destruct (register_raw_all ds _ 0 [] [0] p Hs (mk_is_Some _ _ Ht) Hm)
    as (w' & F' & Hrun & Hs').
  exists w'. split; [done|]. by eapply shape_to_dict.
Qed.


(** ** The lock flag across one directive *)

Lemma keeps_trees_refl (h : heap) : keeps_trees h h.
Proof. split; eauto. Qed.

Lemma keeps_trees_trans (h1 h2 h3 : heap) :
  keeps_trees h1 h2 -> keeps_trees h2 h3 -> keeps_trees h1 h3.
Proof.
  intros [Ht1 Hs1] [Ht2 Hs2]. split; [congruence|].
  intros a s Ha. destruct (Hs1 a s Ha) as (s' & Ha' & Hc').
  destruct (Hs2 a s' Ha') as (s'' & Ha'' & Hc''). exists s''. split; [done|congruence].
Qed.

Lemma keeps_ret {A : Type} (a : A) : keeps (ret a).
Proof. intros h h' r [= <- _]. apply keeps_trees_refl. Qed.

Lemma keeps_raise {A : Type} (e : exn) : keeps (@raise heap A e).
Proof. intros h h' r [= <- _]. apply keeps_trees_refl. Qed.

Lemma keeps_bind {A B : Type} (m : M heap A) (f : A -> M heap B) :
  keeps m -> (forall a, keeps (f a)) -> keeps (bind m f).
Proof.
  intros Hm Hf h h' r. unfold bind.
  destruct (m h) as [h1 [a| |]] eqn:E; intros Hr.
  - eapply keeps_trees_trans; [by eapply Hm|by eapply Hf].
  - injection Hr as <- _. by eapply Hm.
  - injection Hr as <- _. by eapply Hm.
Qed.

Lemma keeps_write (h : heap) (a : addr) (s s1 : ConfigStore) (l : list ConfigStore) :
  stores h !! a = Some s ->
  _config_tree s1 = _config_tree s ->
  keeps_trees h (mkHeap (trees h) (<[a := s1]> (stores h ++ l)%list)).
Proof.
  intros Ha Hc. split; [done|]. simpl. intros x sx Hx.
  pose proof (lookup_lt_Some _ _ _ Hx) as Hlt.
  destruct (decide (x = a)) as [->|Hne].
  - rewrite Ha in Hx. injection Hx as <-. exists s1. split; [|done].
    apply list_lookup_insert_eq. rewrite length_app. lia.
  - exists sx. split; [|done].
    rewrite list_lookup_insert_ne by done. by rewrite lookup_app_l.
Qed.

Lemma getitem_keeps (a : addr) (key : string) : keeps (__getitem__ a key).
Proof.
  intros h h' r Hr.
  destruct (stores h !! a) as [s|] eqn:Hs.
  - rewrite (getitem_run h a s key Hs) in Hr.
    destruct (dict_get key (_attributes s)) as [o|].
    { injection Hr as <- _. apply keeps_trees_refl. }
    destruct (trees h !! _config_tree s) as [[|]|];
      injection Hr as <- _; try apply keeps_trees_refl.
    by eapply keeps_write.
  - run_step. rewrite Hs in Hr. injection Hr as <- _. apply keeps_trees_refl.
Qed.

Lemma setitem_keeps (a : addr) (key : string) (value : obj) :
  keeps (__setitem__ a key value).
Proof.
  intros h h' r Hr.
  destruct (stores h !! a) as [s|] eqn:Hs.
  - rewrite (setitem_run h a s key value Hs) in Hr.
    destruct (trees h !! _config_tree s) as [[|]|];
      injection Hr as <- _; try apply keeps_trees_refl.
    rewrite <- (app_nil_r (stores h)). by eapply keeps_write.
  - run_step. rewrite Hs in Hr. injection Hr as <- _. apply keeps_trees_refl.
Qed.

Lemma update_dict_keeps_from (m : list (string * pyval)) :
  Forall (fun kv => forall a key, keeps (update_item (snd kv) a key)) m ->
  forall a, keeps (update_dict a m).
Proof.
  induction 1 as [|[k v] m Hv _ IH]; intros a; simpl.
  - apply keeps_ret.
  - apply keeps_bind; [apply Hv|]. intros _. apply IH.
Qed.

Lemma update_item_keeps (v : pyval) : forall a key, keeps (update_item v a key).
Proof.
  induction v as [v Hleaf|m IHm] using pyval_nested_ind; intros a key.
  - rewrite update_item_leaf by done. apply setitem_keeps.
  - intros h h' r. rewrite update_item_dict. revert h h' r.
    apply keeps_bind; [apply getitem_keeps|].
    intros [w|c]; [apply keeps_raise|]. by apply update_dict_keeps_from.
Qed.

Lemma update_dict_keeps (a : addr) (m : list (string * pyval)) : keeps (update_dict a m).
Proof.
  apply update_dict_keeps_from, Forall_forall. intros kv _. apply update_item_keeps.
Qed.

Lemma call_update_dict_keeps (x : obj) (d : pyval) : keeps (call_update_dict x d).
Proof.
  destruct x as [w|a]; simpl; [apply keeps_raise|].
  destruct d; try apply keeps_raise. apply update_dict_keeps.
Qed.

Lemma descend_keeps (path : list string) : forall x, keeps (descend x path).
Proof.
  induction path as [|key path IH]; intros x; simpl.
  - apply keeps_ret.
  - apply keeps_bind; [|intros y; apply IH].
    destruct x as [w|a]; simpl; [|apply getitem_keeps].
    destruct (py_index w key); [apply keeps_ret|apply keeps_raise|].
    intros h h' r [= <- _]. apply keeps_trees_refl.
Qed.

Lemma get_locked_run (h : heap) (a : addr) (s : ConfigStore) (b : bool) :
  stores h !! a = Some s ->
  trees h !! _config_tree s = Some b ->
  get_locked a h = (h, Ok b).
Proof. intros Hs Ht. unfold get_locked, bind, read_store. rewrite Hs. by rewrite Ht. Qed.

Lemma keeps_trees_locked (h h' : heap) (a : addr) (s : ConfigStore) (b : bool) :
  keeps_trees h h' ->
  stores h !! a = Some s ->
  trees h !! _config_tree s = Some b ->
  exists s', stores h' !! a = Some s'
             /\ _config_tree s' = _config_tree s
             /\ trees h' !! _config_tree s' = Some b.
Proof.
  intros [Ht Hst] Hs Hb. destruct (Hst a s Hs) as (s' & Hs' & Hc).
  exists s'. split; [done|]. split; [done|]. by rewrite Hc, Ht.
Qed.

(** *** One directive, case by case *)

Lemma py_contains_not_stuck (x : string) (c : pyval) : py_contains x c <> Stuck.
Proof. by destruct c. Qed.

Lemma py_index_not_stuck (c : pyval) (x : string) : py_index c x <> Stuck.
Proof. destruct c as [| | | | |m]; try done. simpl. by destruct (dict_get x m). Qed.

(** [mixin_config] up to the unlock is [before_unlock] *)
Lemma mixin_config_before_unlock (d : directive) (w : world) :
  mixin_config d w
  = match before_unlock d (env (conf w)) with
    | Ok None => (w, Ok tt)
    | Ok (Some choice) =>
        (on_heap (__setattr__ (configatron (conf w)) "locked" (OVal (PBool false))) ;;
         let* base_config :=
           on_heap (match nested d with
                    | Some n => descend (ORef (configatron (conf w))) (split_dot n)
                    | None => ret (ORef (configatron (conf w)))
                    end) in
         on_heap (call_update_dict base_config choice) ;;
         on_heap (__setattr__ (configatron (conf w)) "locked" (OVal (PBool true)))) w
    | Raise e => (w, Raise e)
    | Stuck => (w, Stuck)
    end.
Proof.
  unfold mixin_config, before_unlock, bind, self, lift_outcome, ret, raise.
  destruct (optional d && is_none (config d)); [done|].
  destruct (negb (raw d) && has_filepath d && negb (is_none (config d)));
    [destruct (py_contains (env (conf w)) (config d)) as [[|]| |]; try done|];
    (destruct (raw d); [done|]);
    (destruct (has_filepath d && truthy (config d));
     [by destruct (py_index (config d) (env (conf w)))|]);
    by destruct (has_filepath d).
Qed.

Lemma before_unlock_not_stuck (d : directive) (e : string) : before_unlock d e <> Stuck.
Proof.
  unfold before_unlock.
  pose proof (py_contains_not_stuck e (config d)) as Hc.
  pose proof (py_index_not_stuck (config d) e) as Hi.
  destruct (optional d && is_none (config d)); [done|].
  destruct (negb (raw d) && has_filepath d && negb (is_none (config d)));
    [destruct (py_contains e (config d)) as [[|]| |]; try done|];
    (destruct (raw d); [done|]);
    (destruct (has_filepath d && truthy (config d));
     [by destruct (py_index (config d) e)|]);
    by destruct (has_filepath d).
Qed.

(** [mixin_config] from the unlock on is [mount_and_merge] between two
    writes of the flag. *)
Lemma mixin_config_after_unlock (c : Configuration) (nst : option string)
    (choice : pyval) (w : world) (s : ConfigStore) (b0 : bool) :
  conf w = c ->
  stores (mem w) !! configatron c = Some s ->
  trees (mem w) !! _config_tree s = Some b0 ->
  (on_heap (__setattr__ (configatron c) "locked" (OVal (PBool false))) ;;
   let* base_config :=
     on_heap (match nst with
              | Some n => descend (ORef (configatron c)) (split_dot n)
              | None => ret (ORef (configatron c))
              end) in
   on_heap (call_update_dict base_config choice) ;;
   on_heap (__setattr__ (configatron c) "locked" (OVal (PBool true)))) w
  = match mount_and_merge (configatron c) nst choice
            (mkHeap (<[_config_tree s := false]> (trees (mem w))) (stores (mem w))) with
    | (h, Ok _) =>
        (mkWorld c (mkHeap (<[_config_tree s := true]> (trees h)) (stores h)), Ok tt)
    | (h, Raise e) => (mkWorld c h, Raise e)
    | (h, Stuck) => (mkWorld c h, Stuck)
    end.
Proof.
  intros Hc Hs Ht. destruct w as [c0 h]. simpl in *. subst c0.
  pose proof (lookup_lt_Some _ _ _ Ht) as Hlt.
  unfold bind at 1. unfold on_heap at 1. cbn [mem conf].
  rewrite (set_locked_run h _ s false b0 Hs Ht).
  set (h0 := mkHeap (<[_config_tree s := false]> (trees h)) (stores h)).
  assert (Hs0 : stores h0 !! configatron c = Some s) by done.
  assert (Hb0 : trees h0 !! _config_tree s = Some false)
    by (by apply list_lookup_insert_eq).
  unfold mount_and_merge.
  set (go := match nst with
             | Some n => descend (ORef (configatron c)) (split_dot n)
             | None => ret (ORef (configatron c))
             end).
  assert (Hgo : keeps go).
  { unfold go. destruct nst; [apply descend_keeps|apply keeps_ret]. }
  unfold bind, on_heap. cbn [mem conf].
  destruct (go h0) as [h1 [base| |]] eqn:E1; [|done|done].
  pose proof (Hgo _ _ _ E1) as K1. cbn [mem conf].
  destruct (call_update_dict base choice h1) as [h2 [[]| |]] eqn:E2; [|done|done].
  cbn [mem conf].
  pose proof (keeps_trees_trans _ _ _ K1 (call_update_dict_keeps _ _ _ _ _ E2)) as K2.
  destruct (keeps_trees_locked _ _ _ _ _ K2 Hs0 Hb0) as (s2 & Hs2 & Hc2 & Hb2).
  rewrite (set_locked_run h2 _ s2 true false Hs2 Hb2). by rewrite Hc2.
Qed.

(** *** No [MissingEnvironment] after the unlock *)

Lemma nme_ret {A : Type} (a : A) : no_missing_environment (@ret heap A a).
Proof. by intros h h' msg. Qed.

Lemma nme_stuck {A : Type} : no_missing_environment (@stuck heap A).
Proof. by intros h h' msg. Qed.

Lemma nme_raise {A : Type} (e : exn) :
  (forall msg, e <> MissingEnvironment msg) -> no_missing_environment (@raise heap A e).
Proof. intros He h h' msg [= _ ->]. by eapply He. Qed.

Lemma nme_bind {A B : Type} (m : M heap A) (f : A -> M heap B) :
  no_missing_environment m ->
  (forall a, no_missing_environment (f a)) ->
  no_missing_environment (bind m f).
Proof.
  intros Hm Hf h h' msg. unfold bind.
  destruct (m h) as [h1 [a| |]] eqn:E.
  - apply Hf.
  - intros [= -> ->]. by eapply Hm.
  - done.
Qed.

Lemma nme_getitem (a : addr) (key : string) : no_missing_environment (__getitem__ a key).
Proof.
  intros h h' msg.
  destruct (stores h !! a) as [s|] eqn:Hs.
  - rewrite (getitem_run h a s key Hs).
    destruct (dict_get key (_attributes s)); [done|].
    by destruct (trees h !! _config_tree s) as [[|]|].
  - run_step. by rewrite Hs.
Qed.

Lemma nme_setitem (a : addr) (key : string) (value : obj) :
  no_missing_environment (__setitem__ a key value).
Proof.
  intros h h' msg.
  destruct (stores h !! a) as [s|] eqn:Hs.
  - rewrite (setitem_run h a s key value Hs).
    by destruct (trees h !! _config_tree s) as [[|]|].
  - run_step. by rewrite Hs.
Qed.

Lemma nme_update_dict_from (m : list (string * pyval)) :
  Forall (fun kv => forall a key, no_missing_environment (update_item (snd kv) a key)) m ->
  forall a, no_missing_environment (update_dict a m).
Proof.
  induction 1 as [|[k v] m Hv _ IH]; intros a; simpl.
  - apply nme_ret.
  - apply nme_bind; [apply Hv|]. intros _. apply IH.
Qed.

Lemma nme_update_item (v : pyval) :
  forall a key, no_missing_environment (update_item v a key).
Proof.
  induction v as [v Hleaf|m IHm] using pyval_nested_ind; intros a key.
  - rewrite update_item_leaf by done. apply nme_setitem.
  - intros h h' msg. rewrite update_item_dict. revert h h' msg.
    apply nme_bind; [apply nme_getitem|].
    intros [w|c]; [by apply nme_raise|]. by apply nme_update_dict_from.
Qed.

Lemma nme_py_index (w : pyval) (key : string) (msg : string) :
  py_index w key <> Raise (MissingEnvironment msg).
Proof. destruct w as [| | | | |m]; try done. simpl. by destruct (dict_get key m). Qed.

Lemma nme_descend (path : list string) :
  forall x, no_missing_environment (descend x path).
Proof.
  induction path as [|key path IH]; intros x; simpl.
  - apply nme_ret.
  - apply nme_bind; [|intros y; apply IH].
    destruct x as [w|a]; simpl; [|apply nme_getitem].
    pose proof (nme_py_index w key) as Hi.
    destruct (py_index w key) as [v|e|]; [apply nme_ret| |apply nme_stuck].
    apply nme_raise. intros msg ->. by eapply Hi.
Qed.

Lemma nme_mount_and_merge (root : addr) (nst : option string) (choice : pyval) :
  no_missing_environment (mount_and_merge root nst choice).
Proof.
  unfold mount_and_merge. apply nme_bind.
  - destruct nst; [apply nme_descend|apply nme_ret].
  - intros [w|a]; simpl; [by apply nme_raise|].
    destruct choice; try (by apply nme_raise).
    apply nme_update_dict_from, Forall_forall. intros kv _. apply nme_update_item.
Qed.

Lemma mount_and_merge_keeps (root : addr) (nst : option string) (choice : pyval) :
  keeps (mount_and_merge root nst choice).
Proof.
  unfold mount_and_merge. apply keeps_bind.
  - destruct nst; [apply descend_keeps|apply keeps_ret].
  - intros x. apply call_update_dict_keeps.
Qed.

(** What one application of a directive does to a locked tree, by the part
    of [mixin_config] that ends it. *)
Lemma mixin_config_phases (w : world) (d : directive) (s : ConfigStore) :
  stores (mem w) !! configatron (conf w) = Some s ->
  trees (mem w) !! _config_tree s = Some true ->
  match before_unlock d (env (conf w)) with
  | Ok None => mixin_config d w = (w, Ok tt)
  | Raise e => mixin_config d w = (w, Raise e)
  | Stuck => False
  | Ok (Some choice) =>
      match mount_and_merge (configatron (conf w)) (nested d) choice
              (mkHeap (<[_config_tree s := false]> (trees (mem w))) (stores (mem w))) with
      | (h, Ok _) =>
          mixin_config d w
          = (mkWorld (conf w) (mkHeap (<[_config_tree s := true]> (trees h)) (stores h)),
             Ok tt)
          /\ get_locked (configatron (conf w))
               (mkHeap (<[_config_tree s := true]> (trees h)) (stores h))
             = (mkHeap (<[_config_tree s := true]> (trees h)) (stores h), Ok true)
      | (h, Raise e) =>
          mixin_config d w = (mkWorld (conf w) h, Raise e)
          /\ get_locked (configatron (conf w)) h = (h, Ok false)
          /\ forall msg, e <> MissingEnvironment msg
      | (h, Stuck) => mixin_config d w = (mkWorld (conf w) h, Stuck)
      end
  end.
Proof.
  intros Hs Ht. rewrite mixin_config_before_unlock.
  pose proof (before_unlock_not_stuck d (env (conf w))) as Hns.
  destruct (before_unlock d (env (conf w))) as [[choice|]|e|]; [|done|done|done].
  rewrite (mixin_config_after_unlock (conf w) (nested d) choice w s true eq_refl Hs Ht).
  pose proof (lookup_lt_Some _ _ _ Ht) as Hlt.
  set (h0 := mkHeap (<[_config_tree s := false]> (trees (mem w))) (stores (mem w))).
  assert (Hs0 : stores h0 !! configatron (conf w) = Some s) by done.
  assert (Hb0 : trees h0 !! _config_tree s = Some false)
    by (by apply list_lookup_insert_eq).
  destruct (mount_and_merge (configatron (conf w)) (nested d) choice h0)
    as [h r] eqn:E.
  pose proof (mount_and_merge_keeps _ _ _ _ _ _ E) as K.
  destruct (keeps_trees_locked _ _ _ _ _ K Hs0 Hb0) as (s2 & Hs2 & Hc2 & Hb2).
  destruct r as [[]|e|]; [| |done].
  - split; [done|]. apply (get_locked_run _ _ s2 true); [done|]. simpl.
    rewrite Hc2. apply list_lookup_insert_eq. rewrite <- Hc2.
    by apply (lookup_lt_Some _ _ _ Hb2).
  - split; [done|]. split; [by apply (get_locked_run _ _ s2 false)|].
    intros msg ->. by eapply nme_mount_and_merge.
Qed.

(** The same, read off the outcome of the call. *)
Lemma mixin_config_outcome (w w' : world) (d : directive) (s : ConfigStore)
    (r : outcome unit) :
  stores (mem w) !! configatron (conf w) = Some s ->
  trees (mem w) !! _config_tree s = Some true ->
  mixin_config d w = (w', r) ->
  conf w' = conf w
  /\ match r with
     | Ok _ =>
         get_locked (configatron (conf w)) (mem w') = (mem w', Ok true)
     | Raise e =>
         (w' = w /\ before_unlock d (env (conf w)) = Raise e)
         \/ (get_locked (configatron (conf w)) (mem w') = (mem w', Ok false)
             /\ (forall msg, e <> MissingEnvironment msg)
             /\ exists choice, before_unlock d (env (conf w)) = Ok (Some choice))
     | Stuck => True
     end.
Proof.
  intros Hs Ht Hrun. pose proof (mixin_config_phases w d s Hs Ht) as P.
  destruct (before_unlock d (env (conf w))) as [[choice|]|e|]; [| | |done].
  - destruct (mount_and_merge _ _ _ _) as [h [[]|e|]].
    + destruct P as [P1 P2]. rewrite P1 in Hrun. injection Hrun as <- <-. done.
    + destruct P as (P1 & P2 & P3). rewrite P1 in Hrun. injection Hrun as <- <-.
      split; [done|]. right. split; [done|]. split; [done|]. by exists choice.
    + rewrite P in Hrun. by injection Hrun as <- <-.
  - rewrite P in Hrun. injection Hrun as <- <-. split; [done|].
    by apply (get_locked_run _ _ s true).
  - rewrite P in Hrun. injection Hrun as <- <-. split; [done|]. by left.
Qed.

(** C2 (as amended): one application of a directive to a LOCKED tree ends in
    one of three ways.  If it returns, the tree is LOCKED on return.  If
    the test of the environment or the selection of the mapping raises
    (MissingEnvironment is raised there and nowhere else), the whole state
    is the one before the call, the tree still LOCKED.  If the navigation
    to the mount point or the merge raises, after the unlock, the call ends
    with that exception and the tree is left UNLOCKED: nothing locks it
    again.  A caller of [register_parsed] or [register] finds the tree
    LOCKED when the call returns, and when it raises finds either the
    object store as it was or the tree UNLOCKED. *)
Theorem mixin_config_lock (w : world) (d : directive) (s : ConfigStore) :
  stores (mem w) !! configatron (conf w) = Some s ->
  trees (mem w) !! _config_tree s = Some true ->
  match before_unlock d (env (conf w)) with
  | Ok None => mixin_config d w = (w, Ok tt)
  | Raise e => mixin_config d w = (w, Raise e)
  | Stuck => False
  | Ok (Some choice) =>
      match mount_and_merge (configatron (conf w)) (nested d) choice
              (mkHeap (<[_config_tree s := false]> (trees (mem w))) (stores (mem w))) with
      | (h, Ok _) =>
          mixin_config d w
          = (mkWorld (conf w) (mkHeap (<[_config_tree s := true]> (trees h)) (stores h)),
             Ok tt)
          /\ get_locked (configatron (conf w))
               (mkHeap (<[_config_tree s := true]> (trees h)) (stores h))
             = (mkHeap (<[_config_tree s := true]> (trees h)) (stores h), Ok true)
      | (h, Raise e) =>
          mixin_config d w = (mkWorld (conf w) h, Raise e)
          /\ get_locked (configatron (conf w)) h = (h, Ok false)
          /\ forall msg, e <> MissingEnvironment msg
      | (h, Stuck) => mixin_config d w = (mkWorld (conf w) h, Stuck)
      end
  end
  /\ (forall w' r, mixin_config d w = (w', r) ->
        match r with
        | Ok _ => get_locked (configatron (conf w)) (mem w') = (mem w', Ok true)
        | Raise e =>
            (w' = w /\ before_unlock d (env (conf w)) = Raise e)
            \/ (get_locked (configatron (conf w)) (mem w') = (mem w', Ok false)
                /\ (forall msg, e <> MissingEnvironment msg)
                /\ exists choice, before_unlock d (env (conf w)) = Ok (Some choice))
        | Stuck => True
        end)
  /\ (forall w' r,
        register_parsed (config d) (filepath d) (raw d) (optional d) (nested d) w
        = (w', r) ->
        match r with
        | Ok _ => get_locked (configatron (conf w)) (mem w') = (mem w', Ok true)
        | Raise e =>
            (mem w' = mem w /\ before_unlock d (env (conf w)) = Raise e)
            \/ (get_locked (configatron (conf w)) (mem w') = (mem w', Ok false)
                /\ forall msg, e <> MissingEnvironment msg)
        | Stuck => True
        end)
  /\ (forall fs yaml_load fp w' r,
        register fs yaml_load fp (raw d) (optional d) (nested d) w = (w', r) ->
        match r with
        | Ok _ => get_locked (configatron (conf w)) (mem w') = (mem w', Ok true)
        | Raise e =>
            mem w' = mem w
            \/ get_locked (configatron (conf w)) (mem w') = (mem w', Ok false)
        | Stuck => True
        end).
Proof.
  intros Hs Ht.
  assert (Hparsed : forall d0 w' r,
             register_parsed (config d0) (filepath d0) (raw d0) (optional d0)
               (nested d0) w = (w', r) ->
             match r with
             | Ok _ => get_locked (configatron (conf w)) (mem w') = (mem w', Ok true)
             | Raise e =>
                 (mem w' = mem w /\ before_unlock d0 (env (conf w)) = Raise e)
                 \/ (get_locked (configatron (conf w)) (mem w') = (mem w', Ok false)
                     /\ forall msg, e <> MissingEnvironment msg)
             | Stuck => True
             end).
  { intros d0 w' r Hrun. unfold register_parsed, bind, self, set_conf in Hrun.
    replace (mkDirective (config d0) (filepath d0) (raw d0) (optional d0) (nested d0))
      with d0 in Hrun by (by destruct d0).
    apply (mixin_config_outcome _ _ _ s) in Hrun; [|done|done].
    destruct Hrun as [_ Hrun]. cbn [conf mem env configatron] in Hrun.
    destruct r as [[]|e|]; [done| |done].
    destruct Hrun as [[-> Hb]|(Hl & Hn & _)]; [by left|by right]. }
  split; [exact (mixin_config_phases w d s Hs Ht)|].
  split.
  { intros w' r Hrun. exact (proj2 (mixin_config_outcome w w' d s r Hs Ht Hrun)). }
  split; [exact (Hparsed d)|].
  intros fs yaml_load fp w' r Hrun. unfold register in Hrun.
  unfold bind at 1 in Hrun.
  destruct (negb (startswith "/" fp)).
  { injection Hrun as <- <-. by left. }
  destruct (optional d && negb (path_exists fs fp)).
  { specialize (Hparsed (mkDirective PNone (Some fp) (raw d) (optional d) (nested d))
                  w' r Hrun).
    destruct r as [[]|e|]; [done| |done]. destruct Hparsed as [[? _]|[? _]]; tauto. }
  destruct (fs fp) as [f|]; [|injection Hrun as <- <-; by left].
  destruct (yaml_load f) as [cfg|e].
  - specialize (Hparsed (mkDirective cfg (Some fp) (raw d) (optional d) (nested d))
                  w' r Hrun).
    destruct r as [[]|e|]; [done| |done]. destruct Hparsed as [[? _]|[? _]]; tauto.
  - vm_compute in Hrun. injection Hrun as <- <-. by left.
Qed.

(** ** Merging two mappings under one key *)

Lemma update_dict_cons (a : addr) (k : string) (v : pyval) (d : list (string * pyval)) :
  update_dict a ((k, v) :: d) = (update_item v a k ;; update_dict a d).
Proof. reflexivity. Qed.

Lemma update_dict_one_leaf (h : heap) (n c : addr) (s sc : ConfigStore)
    (k kl : string) (v : pyval) :
  is_dict v = false ->
  stores h !! n = Some s ->
  dict_get k (_attributes s) = Some (ORef c) ->
  stores h !! c = Some sc ->
  trees h !! _config_tree sc = Some false ->
  update_dict n [(k, PDict [(kl, v)])] h
  = (mkHeap (trees h)
       (<[c := with_attributes sc (dict_set kl (OVal v) (_attributes sc))]> (stores h)),
     Ok tt).
Proof.
  intros Hv Hn Hk Hc Hu. rewrite update_dict_cons. unfold bind at 1.
  rewrite update_item_dict. unfold bind at 1.
  rewrite (getitem_present h n s k (ORef c) Hn Hk).
  rewrite update_dict_cons. unfold bind at 1. rewrite (update_item_leaf v c kl Hv).
  by rewrite (setitem_unlocked h c sc kl (OVal v) Hc Hu).
Qed.

(** C8 (counterexample): an unlocked node whose key [a] holds the plain
    value 5; merging [{a: {b: 1}}] raises and nothing is merged. *)
Lemma merge_into_scalar_raises :
  let h := mkHeap [false] [mkStore 0 "config" [] [("a", OVal (PInt 5))]] in
  get_locked 0 h = (h, Ok false)
  /\ update_dict 0 [("a", PDict [("b", PInt 1)])] h
     = (h, Raise (AttributeError "'int' object has no attribute 'update_dict'")).
Proof. split; reflexivity. Qed.

(** The example of the description: on an unlocked node whose key [a] is
    absent, or holds a node whose tree is unlocked, merging [{a: {b: 1}}]
    and then [{a: {c: 2}}] returns both times, and the node under [a] then
    has [b = 1] and [c = 2]; a node that was there before is the same node
    afterwards, with its other keys as they were. *)
Lemma merge_two_mappings (h : heap) (n : addr) (s : ConfigStore) :
  stores h !! n = Some s ->
  trees h !! _config_tree s = Some false ->
  (dict_get "a" (_attributes s) = None
   \/ exists c sc, dict_get "a" (_attributes s) = Some (ORef c)
                   /\ stores h !! c = Some sc
                   /\ trees h !! _config_tree sc = Some false) ->
  exists (h1 h2 : heap) (c : addr) (s2 sc2 : ConfigStore),
    update_dict n [("a", PDict [("b", PInt 1)])] h = (h1, Ok tt)
    /\ update_dict n [("a", PDict [("c", PInt 2)])] h1 = (h2, Ok tt)
    /\ stores h2 !! n = Some s2
    /\ dict_get "a" (_attributes s2) = Some (ORef c)
    /\ stores h2 !! c = Some sc2
    /\ dict_get "b" (_attributes sc2) = Some (OVal (PInt 1))
    /\ dict_get "c" (_attributes sc2) = Some (OVal (PInt 2))
    /\ forall c0 sc0,
         dict_get "a" (_attributes s) = Some (ORef c0) ->
         stores h !! c0 = Some sc0 ->
         c = c0
         /\ forall k, k <> "b" -> k <> "c" ->
              dict_get k (_attributes sc2) = dict_get k (_attributes sc0).
Proof.
  intros Hn Hu [Habs|(c & sc & Hk & Hc & Huc)].
  - (* the key is new: a child is created by the first merge *)
    pose proof (lookup_lt_Some _ _ _ Hn) as Hlt.
    set (c := length (stores h)).
    set (child := mkStore (_config_tree s) (_name s ++ "." ++ "a") (_path s ++ ["a"]) []).
    set (s1 := with_attributes s (_attributes s ++ [("a", ORef c)])%list).
    set (h0 := mkHeap (trees h) (<[n := s1]> (stores h ++ [child])%list)).
    assert (Hn0 : stores h0 !! n = Some s1).
    { simpl. apply list_lookup_insert_eq. rewrite length_app. simpl. lia. }
    assert (Hc0 : stores h0 !! c = Some child).
    { simpl. rewrite list_lookup_insert_ne by (unfold c; lia).
      rewrite lookup_app_r by (unfold c; lia). unfold c. by rewrite Nat.sub_diag. }
    assert (Hk1 : dict_get "a" (_attributes s1) = Some (ORef c)).
    { simpl. rewrite <- (dict_set_absent _ _ _ Habs). apply dict_get_set_eq. }
    set (c1 := with_attributes child [("b", OVal (PInt 1))]).
    set (h1 := mkHeap (trees h) (<[c := c1]> (stores h0))).
    assert (Hlen0 : c < length (stores h0)).
    { simpl. rewrite length_insert, length_app. simpl. unfold c. lia. }
    assert (Hn1 : stores h1 !! n = Some s1).
    { simpl. rewrite list_lookup_insert_ne by (unfold c; lia). exact Hn0. }
    assert (Hc1 : stores h1 !! c = Some c1).
    { simpl. by apply list_lookup_insert_eq. }
    set (c2 := with_attributes c1 [("b", OVal (PInt 1)); ("c", OVal (PInt 2))]).
    set (h2 := mkHeap (trees h) (<[c := c2]> (stores h1))).
    exists h1, h2, c, s1, c2. split; [|split; [|split; [|split; [|split; [|split; [|split]]]]]].
    + rewrite update_dict_cons. unfold bind at 1. rewrite update_item_dict.
      unfold bind at 1.
      rewrite (getitem_absent h n s "a" Hn Hu Habs). fold c child s1 h0.
      rewrite update_dict_cons. unfold bind at 1.
      rewrite (update_item_leaf (PInt 1) c "b" eq_refl).
      by rewrite (setitem_unlocked h0 c child "b" (OVal (PInt 1)) Hc0 Hu).
    + by rewrite (update_dict_one_leaf h1 n c s1 c1 "a" "c" (PInt 2)).
    + simpl. rewrite list_lookup_insert_ne by (unfold c; lia).
      rewrite list_lookup_insert_ne by (unfold c; lia). exact Hn0.
    + exact Hk1.
    + simpl. apply list_lookup_insert_eq. by rewrite length_insert.
    + done.
    + done.
    + intros c0 sc0 Hk0. congruence.
  - (* the key holds a node: both merges go into it *)
    pose proof (lookup_lt_Some _ _ _ Hc) as Hlt.
    set (c1 := with_attributes sc (dict_set "b" (OVal (PInt 1)) (_attributes sc))).
    set (h1 := mkHeap (trees h) (<[c := c1]> (stores h))).
    set (c2 := with_attributes c1 (dict_set "c" (OVal (PInt 2)) (_attributes c1))).
    set (h2 := mkHeap (trees h) (<[c := c2]> (stores h1))).
    assert (Hc1 : stores h1 !! c = Some c1) by (by apply list_lookup_insert_eq).
    assert (Hc2 : stores h2 !! c = Some c2).
    { simpl. apply list_lookup_insert_eq. by rewrite length_insert. }
    assert (Hn1 : exists s1, stores h1 !! n = Some s1
                             /\ dict_get "a" (_attributes s1) = Some (ORef c)).
    { destruct (decide (n = c)) as [->|Hne].
      - exists c1. split; [done|]. simpl.
        rewrite dict_get_set_ne by done. congruence.
      - exists s. split; [|done]. simpl. by rewrite list_lookup_insert_ne. }
    destruct Hn1 as (s1 & Hn1 & Hk1).
    assert (Hn2 : exists s2, stores h2 !! n = Some s2
                             /\ dict_get "a" (_attributes s2) = Some (ORef c)).
    { destruct (decide (n = c)) as [->|Hne].
      - exists c2. split; [done|]. simpl.
        rewrite !dict_get_set_ne by done. congruence.
      - exists s1. split; [|done]. simpl. rewrite list_lookup_insert_ne by done.
        exact Hn1. }
    destruct Hn2 as (s2 & Hn2 & Hk2).
    exists h1, h2, c, s2, c2. split; [|split; [|split; [|split; [|split; [|split; [|split]]]]]].
    + by rewrite (update_dict_one_leaf h n c s sc "a" "b" (PInt 1)).
    + by rewrite (update_dict_one_leaf h1 n c s1 c1 "a" "c" (PInt 2)).
    + done.
    + done.
    + done.
    + simpl. rewrite dict_get_set_ne by done. apply dict_get_set_eq.
    + simpl. apply dict_get_set_eq.
    + intros c0 sc0 Hk0 Hc0. rewrite Hk in Hk0. injection Hk0 as <-.
      rewrite Hc in Hc0. injection Hc0 as <-. split; [done|].
      intros k Hb Hcc. simpl. rewrite !dict_get_set_ne; done.
Qed.

(** *** Registrations that do not merge *)

Lemma kids_lookup_val (t : addr) (h : heap) attrs p F (k : string) v :
  kids t h attrs p F ->
  dict_get k p = Some v ->
  is_dict v = false ->
  dict_get k attrs = Some (OVal v).
Proof.
  induction 1 as [|k0 v0 attrs p F Hv0 Hk0 HK IH|k0 c0 m0 Fc0 attrs p F Hc0 Hk0 HK IH Hd];
    simpl; [done| |].
  - destruct (String.eqb k k0); [|done]. by intros [= ->].
  - destruct (String.eqb k k0); [|done]. by intros [= <-].
Qed.

Lemma update_dict_conflict_from (m : list (string * pyval)) :
  Forall (fun kv =>
            forall (t a : addr) (k : string) (h : heap) p F,
              shape t h a p F ->
              trees h !! t = Some false ->
              merge_item (snd kv) k p = None ->
              exists h' msg, update_item (snd kv) a k h = (h', Raise (AttributeError msg))) m ->
  forall (t a : addr) (h : heap) p F,
    shape t h a p F ->
    trees h !! t = Some false ->
    merge_plain p m = None ->
    exists h' msg, update_dict a m h = (h', Raise (AttributeError msg)).
Proof.
  induction 1 as [|[k v] m Hv _ IH]; intros t a h p F Hs Hu Hm; [done|].
  rewrite update_dict_cons. unfold bind. simpl in Hm.
  destruct (merge_item v k p) as [p1|] eqn:E.
  - destruct (update_item_merges v t a k h p F p1 Hs Hu E)
      as (h1 & F1 & Hrun & Hs1 & (Htr & _)).
    rewrite Hrun. apply (IH t a h1 p1 F1); [done|by rewrite Htr|done].
  - destruct (Hv t a k h p F Hs Hu E) as (h1 & msg & Hrun).
    simpl in Hrun. rewrite Hrun. eauto.
Qed.

Lemma update_item_conflict (v : pyval) :
  forall (t a : addr) (k : string) (h : heap) p F,
    shape t h a p F ->
    trees h !! t = Some false ->
    merge_item v k p = None ->
    exists h' msg, update_item v a k h = (h', Raise (AttributeError msg)).
Proof.
  induction v as [v Hleaf|m IHm] using pyval_nested_ind; intros t a k h p F Hs Hu Hm.
  - by rewrite merge_item_leaf in Hm.
  - rewrite update_item_dict. rewrite merge_item_dict in Hm. unfold bind.
    destruct Hs as [a s p F Ha Ht HK HaF].
    destruct (dict_get k p) as [v0|] eqn:Ep.
    + destruct (is_dict v0) eqn:Ev0.
      * destruct v0 as [| | | | |q0]; try done.
        destruct (merge_plain q0 m) eqn:Eq; [done|].
        destruct (kids_lookup_plain _ _ _ _ _ _ _ HK Ep) as (c & Hkc).
        destruct (kids_lookup_ref _ _ _ _ _ _ _ HK Hkc) as (m0 & Fc & Hp & Hc & _).
        rewrite Ep in Hp. injection Hp as <-.
        rewrite (getitem_present h a s k (ORef c) Ha Hkc).
        by apply (update_dict_conflict_from m IHm t c h q0 Fc).
      * rewrite (getitem_present h a s k (OVal v0) Ha
                   (kids_lookup_val _ _ _ _ _ _ _ HK Ep Ev0)).
        unfold raise. eauto.
    + destruct (merge_plain [] m) eqn:Eq; [done|].
      pose proof (kids_keys_inv _ _ _ _ _ k HK Ep) as Hk.
      pose proof (lookup_lt_Some _ _ _ Ha) as Hlt.
      rewrite (getitem_absent h a s k Ha ltac:(by rewrite Ht) Hk).
      eapply (update_dict_conflict_from m IHm t _ _ [] [length (stores h)]);
        [|done|done].
      apply shape_node
        with (s := mkStore (_config_tree s) (_name s ++ "." ++ k) (_path s ++ [k]) []);
        [|exact Ht|constructor|].
      * simpl. rewrite list_lookup_insert_ne by lia.
        rewrite lookup_app_r by lia. by rewrite Nat.sub_diag.
      * intros Hx. by apply elem_of_nil in Hx.
Qed.

Lemma mixin_config_raw_conflict (w : world) (d : directive) (t : addr) m p F :
  raw d = true ->
  nested d = None ->
  config d = PDict m ->
  shape t (mem w) (configatron (conf w)) p F ->
  is_Some (trees (mem w) !! t) ->
  merge_plain p m = None ->
  exists w' msg, mixin_config d w = (w', Raise (AttributeError msg)).
Proof.
  intros Hraw Hnest Hcfg Hs [b0 Ht] Hm.
  destruct w as [c h]. simpl in *.
  destruct (shape_root _ _ _ _ _ Hs) as (s & Ha & Hts).
  pose proof (lookup_lt_Some _ _ _ Ht) as Htlt.
  set (h0 := mkHeap (<[t := false]> (trees h)) (stores h)).
  assert (Hs0 : shape t h0 (configatron c) p F) by (eapply shape_frame; done).
  assert (Hu0 : trees h0 !! t = Some false) by (by apply list_lookup_insert_eq).
  destruct (update_dict_conflict_from m
              (proj2 (Forall_forall _ _) (fun kv _ => update_item_conflict (snd kv)))
              t _ h0 p F Hs0 Hu0 Hm) as (h1 & msg & Hrun).
  exists (mkWorld c h1), msg.
  unfold mixin_config, bind, self, on_heap. simpl.
  rewrite Hraw, Hnest, Hcfg. simpl. rewrite andb_false_r. simpl.
  assert (Hu : trees h !! _config_tree s = Some b0) by (by rewrite Hts).
  rewrite (set_locked_run h _ s false b0 Ha Hu).
  rewrite Hts. fold h0. unfold ret. simpl. by rewrite Hrun.
Qed.

Lemma register_raw_conflict (ds : list (list (string * pyval))) :
  forall (w : world) (t : addr) p F,
    shape t (mem w) (configatron (conf w)) p F ->
    is_Some (trees (mem w) !! t) ->
    merge_all p ds = None ->
    exists w' msg, for_each register_raw ds w = (w', Raise (AttributeError msg)).
Proof.
  induction ds as [|d ds IH]; intros w t p F Hs Ht Hm; [done|].
  simpl in *. unfold bind.
  destruct (merge_plain p d) as [p1|] eqn:E.
  - destruct (register_raw_merges w d t p F p1 Hs Ht E)
      as (w1 & F1 & Hrun & _ & Hs1 & Hl1).
    rewrite Hrun. by apply (IH w1 t p1 F1).
  - clear IH Hm.
    set (dv := mkDirective (PDict d) None true false None).
    set (w0 := mkWorld (mkConfiguration (directives (conf w) ++ [dv])
                          (env (conf w)) (configatron (conf w))) (mem w)).
    destruct (mixin_config_raw_conflict w0 dv t d p F eq_refl eq_refl eq_refl Hs Ht E)
      as (w1 & msg & Hrun).
    exists w1, msg.
    unfold register_raw, register_parsed, bind, self, set_conf. simpl.
    fold dv. fold w0. by rewrite Hrun.
Qed.

(** C9: in a fresh process, after any sequence of in-memory registrations
    with [raw=True] that all returned, [to_dict] of the root returns (for any
    budget from some depth on, and without touching the heap) the plain merge
    of the registered mappings; for a single mapping, written with each key
    once, that is the mapping itself. *)
Theorem raw_registrations_round_trip
    (e : string) (ds : list (list (string * pyval))) (w' : world) :
  for_each register_raw ds (fresh_process e) = (w', Ok tt) ->
  exists p,
    merge_all [] ds = Some p
    /\ (forall d, ds = [d] -> distinct_keys (PDict d) -> p = d)
    /\ exists n, forall fuel, n <= fuel ->
         to_dict fuel (configatron (conf w')) (mem w') = (mem w', Ok (PDict p)).
Proof.
  intros Hrun. destruct (merge_all [] ds) as [p|] eqn:Hm.
  - exists p. split; [done|]. split.
    + intros d -> Hd. simpl in Hm. rewrite (merge_plain_fresh d Hd) in Hm. congruence.
    + destruct (raw_registrations_return e ds p Hm) as (w'' & Hrun' & Hread).
      rewrite Hrun in Hrun'. by injection Hrun' as <-.
  - destruct (fresh_process_shape e) as [Hs Ht].
    destruct (register_raw_conflict ds _ 0 [] [0] Hs (mk_is_Some _ _ Ht) Hm)
      as (w'' & msg & Hrun').
    rewrite Hrun in Hrun'. done.
Qed.


(** ** The additive merge in general *)

Lemma merge_item_sets (v : pyval) (k : string) (p p1 : list (string * pyval)) :
  merge_item v k p = Some p1 ->
  exists v1, p1 = dict_set k v1 p /\ (is_dict v = false -> v1 = v).
Proof.
  destruct (is_dict v) eqn:Hv.
  - destruct v as [| | | | |m]; try done. rewrite merge_item_dict.
    destruct (dict_get k p) as [[| | | | |q0]|]; try done.
    + destruct (merge_plain q0 m) as [q|]; [|done]. intros [= <-]. by eexists.
    + destruct (merge_plain [] m) as [q|]; [|done]. intros [= <-]. by eexists.
  - rewrite merge_item_leaf by done. intros [= <-]. by exists v.
Qed.

Lemma merge_plain_other_keys (d : list (string * pyval)) :
  forall p p' k,
    merge_plain p d = Some p' -> k ∉ keys d -> dict_get k p' = dict_get k p.
Proof.
  induction d as [|[k0 v0] d IH]; intros p p' k; simpl.
  - by intros [= <-].
  - destruct (merge_item v0 k0 p) as [p1|] eqn:E; [|done]. intros Hm Hk.
    apply not_elem_of_cons in Hk as [Hne Hk].
    rewrite (IH p1 p' k Hm Hk).
    destruct (merge_item_sets _ _ _ _ E) as (v1 & -> & _).
    by apply dict_get_set_ne.
Qed.

(** *** A merge that returns, on a tree of unlocked nodes *)

Lemma update_dict_returns (t a : addr) (h h' : heap) p F (m : list (string * pyval)) :
  shape t h a p F ->
  trees h !! t = Some false ->
  update_dict a m h = (h', Ok tt) ->
  exists p' F', merge_plain p m = Some p' /\ shape t h' a p' F' /\ within h F h' F'.
Proof.
  intros Hs Hu Hrun. destruct (merge_plain p m) as [p'|] eqn:E.
  - destruct (update_dict_merges m
                (proj2 (Forall_forall _ _) (fun kv _ => update_item_merges (snd kv)))
                t a h p F p' Hs Hu E) as (h1 & F' & Hrun1 & Hs1 & Hw).
    rewrite Hrun in Hrun1. injection Hrun1 as <-. by exists p', F'.
  - destruct (update_dict_conflict_from m
                (proj2 (Forall_forall _ _) (fun kv _ => update_item_conflict (snd kv)))
                t a h p F Hs Hu E) as (h1 & msg & Hrun1).
    by rewrite Hrun in Hrun1.
Qed.

Lemma update_item_returns (t a : addr) (h h' : heap) p F (v : pyval) (k : string) :
  shape t h a p F ->
  trees h !! t = Some false ->
  update_item v a k h = (h', Ok tt) ->
  exists p' F', merge_item v k p = Some p' /\ shape t h' a p' F' /\ within h F h' F'.
Proof.
  intros Hs Hu Hrun. destruct (merge_item v k p) as [p'|] eqn:E.
  - destruct (update_item_merges v t a k h p F p' Hs Hu E) as (h1 & F' & Hrun1 & Hs1 & Hw).
    rewrite Hrun in Hrun1. injection Hrun1 as <-. by exists p', F'.
  - destruct (update_item_conflict v t a k h p F Hs Hu E) as (h1 & msg & Hrun1).
    by rewrite Hrun in Hrun1.
Qed.

(** One item of a merge, seen from the node it is merged into: the other
    keys keep what they are bound to, and a nested mapping leaves the key
    bound to the node that was there. *)
Lemma update_item_root (t n : addr) (h h' : heap) p F (s : ConfigStore)
    (v : pyval) (k : string) :
  shape t h n p F ->
  trees h !! t = Some false ->
  stores h !! n = Some s ->
  update_item v n k h = (h', Ok tt) ->
  exists s',
    stores h' !! n = Some s'
    /\ (forall j, j <> k -> dict_get j (_attributes s') = dict_get j (_attributes s))
    /\ (forall c, is_dict v = true ->
          dict_get k (_attributes s) = Some (ORef c) ->
          dict_get k (_attributes s') = Some (ORef c)).
Proof.
  intros Hsh Hu Hn Hrun.
  destruct (is_dict v) eqn:Ev.
  - destruct v as [| | | | |m]; try done.
    rewrite update_item_dict in Hrun. unfold bind in Hrun.
    destruct Hsh as [n s0 p F Hn0 Ht HK HnF].
    rewrite Hn in Hn0. injection Hn0 as <-.
    pose proof (lookup_lt_Some _ _ _ Hn) as Hlt.
    destruct (dict_get k (_attributes s)) as [[w|c]|] eqn:Ek.
    + by rewrite (getitem_present h n s k _ Hn Ek) in Hrun.
    + rewrite (getitem_present h n s k _ Hn Ek) in Hrun.
      destruct (kids_lookup_ref _ _ _ _ _ _ _ HK Ek) as (q0 & Fc & Hp & Hc & Hsub & _).
      destruct (update_dict_returns t c h h' q0 Fc m Hc Hu Hrun) as (q & Fc' & _ & _ & Hw).
      destruct Hw as (_ & _ & Hout & _).
      exists s. split; [|split; [done|by intros c0 _ [= <-]]].
      rewrite Hout; [done|done|]. intros Hx. by apply HnF, Hsub.
    + rewrite (getitem_absent h n s k Hn ltac:(by rewrite Ht) Ek) in Hrun.
      set (c := length (stores h)) in *.
      set (child := mkStore (_config_tree s) (_name s ++ "." ++ k) (_path s ++ [k]) []) in *.
      set (s1 := with_attributes s (_attributes s ++ [(k, ORef c)])%list) in *.
      set (h1 := mkHeap (trees h) (<[n := s1]> (stores h ++ [child])%list)) in *.
      assert (Hc1 : shape t h1 c [] [c]).
      { apply shape_node with (s := child); [|exact Ht|constructor|].
        - simpl. rewrite list_lookup_insert_ne by (unfold c; lia).
          rewrite lookup_app_r by (unfold c; lia). unfold c. by rewrite Nat.sub_diag.
        - intros Hx. by apply elem_of_nil in Hx. }
      destruct (update_dict_returns t c h1 h' [] [c] m Hc1 Hu Hrun)
        as (q & Fc' & _ & _ & Hw).
      destruct Hw as (_ & _ & Hout & _).
      exists s1. split; [|split].
      * rewrite Hout.
        -- simpl. apply list_lookup_insert_eq. rewrite length_app. simpl. lia.
        -- simpl. rewrite length_insert, length_app. simpl. lia.
        -- intros Hx. apply list_elem_of_singleton in Hx. unfold c in Hx. lia.
      * intros j Hj. simpl. rewrite <- (dict_set_absent _ _ _ Ek).
        by apply dict_get_set_ne.
      * done.
  - rewrite update_item_leaf in Hrun by done.
    destruct Hsh as [n s0 p F Hn0 Ht HK HnF].
    rewrite Hn in Hn0. injection Hn0 as <-.
    pose proof (lookup_lt_Some _ _ _ Hn) as Hlt.
    rewrite (setitem_unlocked h n s k (OVal v) Hn ltac:(by rewrite Ht)) in Hrun.
    injection Hrun as <-.
    exists (with_attributes s (dict_set k (OVal v) (_attributes s))). split; [|split].
    + simpl. by apply list_lookup_insert_eq.
    + intros j Hj. simpl. by apply dict_get_set_ne.
    + done.
Qed.

(** A whole mapping, seen from the node it is merged into. *)
Lemma update_dict_root (d : list (string * pyval)) :
  forall (t n : addr) (h h' : heap) p F (s : ConfigStore),
    shape t h n p F ->
    trees h !! t = Some false ->
    stores h !! n = Some s ->
    NoDup (keys d) ->
    update_dict n d h = (h', Ok tt) ->
    exists s',
      stores h' !! n = Some s'
      /\ (forall j, j ∉ keys d -> dict_get j (_attributes s') = dict_get j (_attributes s))
      /\ (forall k m c, (k, PDict m) ∈ d ->
            dict_get k (_attributes s) = Some (ORef c) ->
            dict_get k (_attributes s') = Some (ORef c)).
Proof.
  induction d as [|[k0 v0] d IH]; intros t n h h' p F s Hsh Hu Hn Hnd Hrun.
  - injection Hrun as <-. exists s. split; [done|]. split; [done|].
    intros k m c Hin. by apply elem_of_nil in Hin.
  - rewrite update_dict_cons in Hrun. unfold bind in Hrun.
    destruct (update_item v0 n k0 h) as [h1 [[]|e|]] eqn:E1; [|done|done].
    destruct (update_item_returns t n h h1 p F v0 k0 Hsh Hu E1)
      as (p1 & F1 & _ & Hsh1 & Hw1).
    destruct (update_item_root t n h h1 p F s v0 k0 Hsh Hu Hn E1)
      as (s1 & Hn1 & Hoth1 & Hsame1).
    assert (Hu1 : trees h1 !! t = Some false) by (by rewrite (proj1 Hw1)).
    simpl in Hnd. apply NoDup_cons in Hnd as [Hk0 Hnd].
    destruct (IH t n h1 h' p1 F1 s1 Hsh1 Hu1 Hn1 Hnd Hrun) as (s' & Hn' & Hoth & Hsame).
    exists s'. split; [done|]. split.
    + intros j Hj. simpl in Hj. apply not_elem_of_cons in Hj as [Hj0 Hj].
      rewrite (Hoth j Hj). by apply Hoth1.
    + intros k m c Hin Hk. apply elem_of_cons in Hin as [Heq|Hin].
      * injection Heq as <- <-. rewrite (Hoth k Hk0). by apply Hsame1.
      * assert (Hne : k <> k0).
        { intros ->. apply Hk0. unfold keys. apply list_elem_of_fmap.
          by exists (k0, PDict m). }
        apply (Hsame k m c Hin). rewrite (Hoth1 k Hne). exact Hk.
Qed.

(** *** The plain merge under one key *)

Lemma merge_plain_keeps_keys (d : list (string * pyval)) :
  forall p p' j,
    merge_plain p d = Some p' -> dict_get j p <> None -> dict_get j p' <> None.
Proof.
  induction d as [|[k v] d IH]; intros p p' j Hm Hj; simpl in Hm.
  - by injection Hm as <-.
  - destruct (merge_item v k p) as [p1|] eqn:E; [|done].
    apply (IH p1 p' j Hm).
    destruct (merge_item_sets v k p p1 E) as (v1 & -> & _).
    destruct (String.eqb_spec k j) as [->|Hne].
    + by rewrite dict_get_set_eq.
    + by rewrite dict_get_set_ne.
Qed.

Lemma merge_plain_nested (d : list (string * pyval)) :
  forall p p' k m,
    merge_plain p d = Some p' ->
    NoDup (keys d) ->
    (k, PDict m) ∈ d ->
    exists q,
      dict_get k p' = Some (PDict q)
      /\ match dict_get k p with
         | Some (PDict q0) => merge_plain q0 m = Some q
         | Some _ => False
         | None => merge_plain [] m = Some q
         end.
Proof.
  induction d as [|[k0 v0] d IH]; intros p p' k m Hm Hnd Hin.
  - by apply elem_of_nil in Hin.
  - simpl in Hm, Hnd. apply NoDup_cons in Hnd as [Hk0 Hnd].
    destruct (merge_item v0 k0 p) as [p1|] eqn:E; [|done].
    apply elem_of_cons in Hin as [Heq|Hin].
    + injection Heq as <- <-. rewrite merge_item_dict in E.
      rewrite (merge_plain_other_keys d p1 p' k Hm Hk0).
      destruct (dict_get k p) as [[| | | | |q0]|]; try done.
      * destruct (merge_plain q0 m) as [q|]; [|done]. injection E as <-.
        exists q. by rewrite dict_get_set_eq.
      * destruct (merge_plain [] m) as [q|]; [|done]. injection E as <-.
        exists q. by rewrite dict_get_set_eq.
    + assert (Hne : k0 <> k).
      { intros ->. apply Hk0. unfold keys. apply list_elem_of_fmap.
        by exists (k, PDict m). }
      destruct (IH p1 p' k m Hm Hnd Hin) as (q & Hq & Hcase).
      exists q. split; [done|].
      destruct (merge_item_sets v0 k0 p p1 E) as (v1 & -> & _).
      by rewrite dict_get_set_ne in Hcase.
Qed.

(** A nested mapping for a key that holds a plain value: the merge stops
    there, before any write. *)
Lemma update_dict_into_plain (h : heap) (n : addr) (s : ConfigStore)
    (k : string) (v : pyval) (m rest : list (string * pyval)) :
  stores h !! n = Some s ->
  dict_get k (_attributes s) = Some (OVal v) ->
  update_dict n ((k, PDict m) :: rest) h
  = (h, Raise (AttributeError
                 ("'" ++ type_name v ++ "' object has no attribute 'update_dict'"))).
Proof.
  intros Hn Hk. rewrite update_dict_cons. unfold bind at 1.
  rewrite update_item_dict. unfold bind at 1.
  by rewrite (getitem_present h n s k (OVal v) Hn Hk).
Qed.

(** The general form of the additive merge, on a tree of unlocked nodes. *)
Lemma update_dict_additive (t n : addr) (h : heap) (s : ConfigStore) p F
    (d : list (string * pyval)) :
  shape t h n p F ->
  trees h !! t = Some false ->
  stores h !! n = Some s ->
  NoDup (keys d) ->
  match merge_plain p d with
  | None => exists h' msg, update_dict n d h = (h', Raise (AttributeError msg))
  | Some p' =>
      exists h' F' s',
        update_dict n d h = (h', Ok tt)
        /\ shape t h' n p' F'
        /\ stores h' !! n = Some s'
        /\ (forall j, j ∉ keys d ->
              dict_get j (_attributes s') = dict_get j (_attributes s))
        /\ (forall k m c, (k, PDict m) ∈ d ->
              dict_get k (_attributes s) = Some (ORef c) ->
              dict_get k (_attributes s') = Some (ORef c)
              /\ exists q0 q Fc Fc',
                   shape t h c q0 Fc
                   /\ shape t h' c q Fc'
                   /\ merge_plain q0 m = Some q
                   /\ (forall j, j ∉ keys m -> dict_get j q = dict_get j q0)
                   /\ (forall j, dict_get j q0 <> None -> dict_get j q <> None))
        /\ (forall k m, (k, PDict m) ∈ d ->
              dict_get k (_attributes s) = None ->
              exists c q Fc',
                dict_get k (_attributes s') = Some (ORef c)
                /\ shape t h' c q Fc'
                /\ merge_plain [] m = Some q)
  end.
Proof.
  intros Hsh Hu Hn Hnd. destruct (merge_plain p d) as [p'|] eqn:Hm.
  - destruct (update_dict_merges d
                (proj2 (Forall_forall _ _) (fun kv _ => update_item_merges (snd kv)))
                t n h p F p' Hsh Hu Hm) as (h' & F' & Hrun & Hsh' & Hw).
    destruct (update_dict_root d t n h h' p F s Hsh Hu Hn Hnd Hrun)
      as (s' & Hn' & Hoth & Hsame).
    exists h', F', s'. split; [done|]. split; [done|]. split; [done|]. split; [done|].
    destruct Hsh as [n s0 p F Hn0 Ht HK HnF].
    rewrite Hn in Hn0. injection Hn0 as <-.
    destruct Hsh' as [n s0' p' F' Hn0' Ht' HK' HnF'].
    rewrite Hn' in Hn0'. injection Hn0' as <-.
    split.
    + intros k m c Hin Hk. pose proof (Hsame k m c Hin Hk) as Hk'. split; [done|].
      destruct (kids_lookup_ref _ _ _ _ _ _ _ HK Hk) as (q0 & Fc & Hp & Hc & _).
      destruct (kids_lookup_ref _ _ _ _ _ _ _ HK' Hk') as (q' & Fc' & Hp' & Hc' & _).
      destruct (merge_plain_nested d p p' k m Hm Hnd Hin) as (q & Hq & Hcase).
      rewrite Hp in Hcase. rewrite Hp' in Hq. injection Hq as ->.
      exists q0, q, Fc, Fc'. split; [done|]. split; [done|]. split; [done|]. split.
      * intros j Hj. by apply (merge_plain_other_keys m).
      * intros j. by apply (merge_plain_keeps_keys m).
    + intros k m Hin Hk.
      destruct (merge_plain_nested d p p' k m Hm Hnd Hin) as (q & Hq & Hcase).
      rewrite (kids_keys _ _ _ _ _ k HK Hk) in Hcase.
      destruct (kids_lookup_plain _ _ _ _ _ _ _ HK' Hq) as (c & Hk').
      destruct (kids_lookup_ref _ _ _ _ _ _ _ HK' Hk') as (q' & Fc' & Hp' & Hc' & Hsub & _).
      rewrite Hp' in Hq. injection Hq as ->.
      by exists c, q, Fc'.
  - apply (update_dict_conflict_from d
             (proj2 (Forall_forall _ _) (fun kv _ => update_item_conflict (snd kv)))
             t n h p F Hsh Hu Hm).
Qed.

(** C8 (as amended): on an unlocked node, (1) when key [a] is absent or
    holds a node of an unlocked tree, merging [{a: {b: 1}}] and then
    [{a: {c: 2}}] returns both times and the node under [a] then has
    [b = 1] and [c = 2], a node that was there before being the same node
    afterwards with its other keys as they were; (2) a nested mapping for a
    key that holds a plain value, whatever the key, the value and the
    mapping, raises AttributeError naming the type of the value and writes
    nothing; (3) when the node is the root of a tree of nodes none of which
    is shared, a mapping [d] either does not merge into what the tree
    reads, and the call raises AttributeError, or the call returns and the
    tree reads the merged mapping, the keys [d] does not name are bound as
    before, and every key for which [d] holds a nested mapping and the node
    held a child is still bound to that same child, which reads the merge
    of the nested mapping into what it read before: no key of it is lost
    and the keys the nested mapping does not name read as before; a nested
    mapping for a key the node did not have is merged into a new, empty
    child. *)
Theorem merge_is_additive (h : heap) (n : addr) (s : ConfigStore) :
  stores h !! n = Some s ->
  trees h !! _config_tree s = Some false ->
  ((dict_get "a" (_attributes s) = None
    \/ exists c sc, dict_get "a" (_attributes s) = Some (ORef c)
                    /\ stores h !! c = Some sc
                    /\ trees h !! _config_tree sc = Some false) ->
   exists (h1 h2 : heap) (c : addr) (s2 sc2 : ConfigStore),
     update_dict n [("a", PDict [("b", PInt 1)])] h = (h1, Ok tt)
     /\ update_dict n [("a", PDict [("c", PInt 2)])] h1 = (h2, Ok tt)
     /\ stores h2 !! n = Some s2
     /\ dict_get "a" (_attributes s2) = Some (ORef c)
     /\ stores h2 !! c = Some sc2
     /\ dict_get "b" (_attributes sc2) = Some (OVal (PInt 1))
     /\ dict_get "c" (_attributes sc2) = Some (OVal (PInt 2))
     /\ forall c0 sc0,
          dict_get "a" (_attributes s) = Some (ORef c0) ->
          stores h !! c0 = Some sc0 ->
          c = c0
          /\ forall k, k <> "b" -> k <> "c" ->
               dict_get k (_attributes sc2) = dict_get k (_attributes sc0))
  /\ (forall k v m rest,
        dict_get k (_attributes s) = Some (OVal v) ->
        update_dict n ((k, PDict m) :: rest) h
        = (h, Raise (AttributeError
                       ("'" ++ type_name v ++ "' object has no attribute 'update_dict'"))))
  /\ (forall p F d,
        shape (_config_tree s) h n p F ->
        NoDup (keys d) ->
        match merge_plain p d with
        | None => exists h' msg, update_dict n d h = (h', Raise (AttributeError msg))
        | Some p' =>
            exists h' F' s',
              update_dict n d h = (h', Ok tt)
              /\ shape (_config_tree s) h' n p' F'
              /\ stores h' !! n = Some s'
              /\ (forall j, j ∉ keys d ->
                    dict_get j (_attributes s') = dict_get j (_attributes s))
              /\ (forall k m c, (k, PDict m) ∈ d ->
                    dict_get k (_attributes s) = Some (ORef c) ->
                    dict_get k (_attributes s') = Some (ORef c)
                    /\ exists q0 q Fc Fc',
                         shape (_config_tree s) h c q0 Fc
                         /\ shape (_config_tree s) h' c q Fc'
                         /\ merge_plain q0 m = Some q
                         /\ (forall j, j ∉ keys m -> dict_get j q = dict_get j q0)
                         /\ (forall j, dict_get j q0 <> None -> dict_get j q <> None))
              /\ (forall k m, (k, PDict m) ∈ d ->
                    dict_get k (_attributes s) = None ->
                    exists c q Fc',
                      dict_get k (_attributes s') = Some (ORef c)
                      /\ shape (_config_tree s) h' c q Fc'
                      /\ merge_plain [] m = Some q)
        end).
Proof.
  intros Hn Hu. split; [|split].
  - exact (merge_two_mappings h n s Hn Hu).
  - intros k v m rest Hk. exact (update_dict_into_plain h n s k v m rest Hn Hk).
  - intros p F d Hsh Hnd.
    exact (update_dict_additive (_config_tree s) n h s p F d Hsh Hu Hn Hnd).
Qed.

(** ** The statements at concrete inputs *)

Lemma getitem_locked_missing_witness :
  __getitem__ 0 "database" (mem (fresh_process "dev"))
  = (mem (fresh_process "dev"),
     Raise (UndefinedKeyError "Configuration key not found: config.database")).
Proof.
  exact (getitem_locked_missing (mem (fresh_process "dev")) 0
           (mkStore 0 "config" [] []) "database" eq_refl eq_refl eq_refl).
Defined.

Lemma setitem_locked_witness :
  __setitem__ 0 "port" (OVal (PInt 5432)) (mem (fresh_process "dev"))
  = (mem (fresh_process "dev"),
     Raise (LockedError "Cannot set key port for locked config")).
Proof.
  exact (setitem_locked (mem (fresh_process "dev")) 0
           (mkStore 0 "config" [] []) "port" (OVal (PInt 5432)) eq_refl eq_refl).
Defined.

Lemma getitem_unlocked_missing_witness :
  let h := mkHeap [false] [mkStore 0 "config" [] []] in
  exists (h' : heap) (c : addr),
    __getitem__ 0 "database" h = (h', Ok (ORef c))
    /\ stores h !! c = None
    /\ stores h' !! c = Some (mkStore 0 "config.database" ["database"] [])
    /\ __getitem__ 0 "database" h' = (h', Ok (ORef c)).
Proof.
  intros h.
  destruct (getitem_unlocked_missing h 0 (mkStore 0 "config" [] []) "database"
              eq_refl eq_refl eq_refl)
    as (h' & c & s' & H1 & H2 & H3 & _ & _ & _ & H7).
  exists h', c. repeat split; assumption.
Defined.

Lemma attribute_access_is_item_access_witness :
  __getattr__ 0 "database" (mem (fresh_process "dev"))
  = __getitem__ 0 "database" (mem (fresh_process "dev"))
  /\ __setattr__ 0 "database" (OVal (PInt 1)) (mem (fresh_process "dev"))
     = __setitem__ 0 "database" (OVal (PInt 1)) (mem (fresh_process "dev")).
Proof.
  exact (attribute_access_is_item_access 0 "database" (OVal (PInt 1))
           (mem (fresh_process "dev")) eq_refl eq_refl).
Defined.

Lemma mixin_config_missing_environment_witness :
  mixin_config (mkDirective env_yaml (Some "/env.yaml") false false None)
    (fresh_process "staging")
  = (fresh_process "staging",
     Raise (MissingEnvironment
              "Current environment staging not defined in config file /env.yaml. (HINT: you should have a YAML key of staging. You may want to inherit a default via YAML's `<<` operator.)")).
Proof.
  apply (mixin_config_missing_environment (fresh_process "staging")
           (mkDirective env_yaml (Some "/env.yaml") false false None)
           [("prod", PDict [("x", PInt 1)]); ("dev", PDict [("x", PInt 2)])]
           "/env.yaml"); try reflexivity; discriminate.
Defined.

Lemma register_parse_failure_witness :
  register example_fs (fun _ => inr "mapping values are not allowed here")
    "/env.yaml" false false None (fresh_process "dev")
  = (fresh_process "dev", Raise (NameError "global name 'sys' is not defined")).
Proof.
  apply (register_parse_failure_raises_NameError example_fs
           (fun _ => inr "mapping values are not allowed here")
           "/env.yaml" "prod: {x: 1}
dev: {x: 2}" "mapping values are not allowed here"); reflexivity.
Defined.

Lemma mixin_config_lock_witness :
  (let w := fresh_process "dev" in
   let d := mkDirective env_yaml (Some "/env.yaml") false false None in
   get_locked 0 (mem (fst (mixin_config d w))) = (mem (fst (mixin_config d w)), Ok true))
  /\ (let w := fresh_process "staging" in
      let d := mkDirective env_yaml (Some "/env.yaml") false false None in
      mixin_config d w
      = (w, Raise (MissingEnvironment
                     (missing_environment_message "staging" "/env.yaml"))))
  /\ (let w := fresh_process "dev" in
      let d := mkDirective (PDict [("dev", PInt 5)]) (Some "/env.yaml") false false None in
      snd (mixin_config d w)
      = Raise (AttributeError "'int' object has no attribute 'iteritems'")
      /\ get_locked 0 (mem (fst (mixin_config d w)))
         = (mem (fst (mixin_config d w)), Ok false)).
Proof.
  split; [|split].
  - intros w d.
    exact (proj1 (proj2 (mixin_config_lock w d (mkStore 0 "config" [] []) eq_refl eq_refl))
             (fst (mixin_config d w)) (Ok tt) eq_refl).
  - intros w d.
    exact (proj1 (mixin_config_lock w d (mkStore 0 "config" [] []) eq_refl eq_refl)).
  - intros w d.
    pose proof (proj1 (mixin_config_lock w d (mkStore 0 "config" [] []) eq_refl eq_refl))
      as H.
    split; [reflexivity|]. exact (proj1 (proj2 H)).
Defined.

Lemma merge_is_additive_witness :
  (let h := mkHeap [false] [mkStore 0 "config" [] []] in
   exists (h1 h2 : heap) (c : addr) (sc2 : ConfigStore),
     update_dict 0 [("a", PDict [("b", PInt 1)])] h = (h1, Ok tt)
     /\ update_dict 0 [("a", PDict [("c", PInt 2)])] h1 = (h2, Ok tt)
     /\ stores h2 !! c = Some sc2
     /\ dict_get "b" (_attributes sc2) = Some (OVal (PInt 1))
     /\ dict_get "c" (_attributes sc2) = Some (OVal (PInt 2)))
  /\ (let h := mkHeap [false] [mkStore 0 "config" [] [("a", OVal (PStr "x"))]] in
      update_dict 0 [("a", PDict [("b", PInt 1)]); ("port", PInt 80)] h
      = (h, Raise (AttributeError "'str' object has no attribute 'update_dict'")))
  /\ (let h := mkHeap [false]
                 [mkStore 0 "config" [] [("a", ORef 1)];
                  mkStore 0 "config.a" ["a"] [("b", OVal (PInt 1))]] in
      exists (h' : heap) (s' : ConfigStore) (F' : list addr),
        update_dict 0 [("a", PDict [("c", PInt 2)]); ("port", PInt 80)] h = (h', Ok tt)
        /\ stores h' !! 0 = Some s'
        /\ dict_get "a" (_attributes s') = Some (ORef 1)
        /\ shape 0 h' 0 [("a", PDict [("b", PInt 1); ("c", PInt 2)]); ("port", PInt 80)] F').
Proof.
  split; [|split].
  - intros h.
    destruct (proj1 (merge_is_additive h 0 (mkStore 0 "config" [] []) eq_refl eq_refl)
                (or_introl eq_refl))
      as (h1 & h2 & c & s2 & sc2 & H1 & H2 & _ & _ & H5 & H6 & H7 & _).
    exists h1, h2, c, sc2. repeat split; assumption.
  - intros h.
    exact (proj1 (proj2 (merge_is_additive h 0
                           (mkStore 0 "config" [] [("a", OVal (PStr "x"))])
                           eq_refl eq_refl))
             "a" (PStr "x") [("b", PInt 1)] [("port", PInt 80)] eq_refl).
  - intros h.
    assert (Hc : shape 0 h 1 [("b", PInt 1)] [1]).
    { apply shape_node with (s := mkStore 0 "config.a" ["a"] [("b", OVal (PInt 1))]);
        [reflexivity|reflexivity| |by intros Hx; apply elem_of_nil in Hx].
      apply kids_val; [reflexivity|reflexivity|apply kids_nil]. }
    assert (Hsh : shape 0 h 0 [("a", PDict [("b", PInt 1)])] [0; 1]).
    { apply shape_node with (s := mkStore 0 "config" [] [("a", ORef 1)]);
        [reflexivity|reflexivity| |].
      - apply (kids_ref 0 h "a" 1 [("b", PInt 1)] [1] [] [] []);
          [exact Hc|reflexivity|apply kids_nil|].
        intros x _ Hx. by apply elem_of_nil in Hx.
      - intros Hx. apply list_elem_of_singleton in Hx. discriminate Hx. }
    assert (Hnd : NoDup (keys [("a", PDict [("c", PInt 2)]); ("port", PInt 80)])).
    { apply NoDup_cons. split.
      - intros Hx. apply list_elem_of_singleton in Hx. discriminate Hx.
      - apply NoDup_singleton. }
    destruct (proj2 (proj2 (merge_is_additive h 0 (mkStore 0 "config" [] [("a", ORef 1)])
                              eq_refl eq_refl))
                [("a", PDict [("b", PInt 1)])] [0; 1]
                [("a", PDict [("c", PInt 2)]); ("port", PInt 80)] Hsh Hnd)
      as (h' & F' & s' & Hrun & Hsh' & Hn' & _ & Hsame & _).
    exists h', s', F'. split; [exact Hrun|]. split; [exact Hn'|].
    split; [|exact Hsh'].
    exact (proj1 (Hsame "a" [("c", PInt 2)] 1 (list_elem_of_here _ _) eq_refl)).
Defined.

Lemma raw_registrations_round_trip_witness :
  let ds := [[("a", PDict [("b", PInt 1)]); ("port", PInt 80)];
             [("a", PDict [("c", PInt 2)])]] in
  let w' := fst (for_each register_raw ds (fresh_process "dev")) in
  exists p,
    merge_all [] ds = Some p
    /\ exists n, forall fuel, n <= fuel ->
         to_dict fuel (configatron (conf w')) (mem w') = (mem w', Ok (PDict p)).
Proof.
  intros ds w'.
  destruct (raw_registrations_round_trip "dev" ds w' eq_refl) as (p & Hp & _ & Hread).
  exists p. split; assumption.
Defined.

(** * Further properties *)

(** ** [register]: the exits before a document is applied *)

(** X1: a path that does not start with a slash makes [register] raise
    [Error] with the path as second argument, whatever the file system holds
    and whatever the options: nothing is read, no directive is recorded, the
    state is the one before the call. *)
Theorem register_relative_path
    (fs : string -> option string) (yaml_load : string -> pyval + string)
    (fp : string) (rw opt : bool) (nst : option string) (w : world) :
  startswith "/" fp = false ->
  exists msg, register fs yaml_load fp rw opt nst w = (w, Raise (Error_ [msg; fp])).
Proof.
  intros Hrel. unfold register, bind. rewrite Hrel. simpl.
  eexists. reflexivity.
Qed.

(** X2: [register(path, optional=True)] for an absolute path with no file
    returns; the heap is untouched, and the directive is recorded with a null
    document, so a replay skips it again. *)
Theorem register_optional_missing
    (fs : string -> option string) (yaml_load : string -> pyval + string)
    (fp : string) (rw : bool) (nst : option string) (w : world) :
  startswith "/" fp = true ->
  fs fp = None ->
  register fs yaml_load fp rw true nst w
  = (mkWorld (mkConfiguration
                (directives (conf w) ++ [mkDirective PNone (Some fp) rw true nst])
                (env (conf w)) (configatron (conf w)))
       (mem w),
     Ok tt)
  /\ forall w', mixin_config (mkDirective PNone (Some fp) rw true nst) w' = (w', Ok tt).
Proof.
  intros Habs Hnone. split.
  - unfold register, bind, path_exists. rewrite Habs, Hnone. simpl.
    unfold register_parsed, bind, self, set_conf, mixin_config. simpl. reflexivity.
  - intros w'. reflexivity.
Qed.

(** ** The [Configuration] object across the calls *)

Lemma keeps_conf_ret {A : Type} (a : A) : keeps_conf (ret a).
Proof. by intros w w' r [= <- _]. Qed.

Lemma keeps_conf_raise {A : Type} (e : exn) : keeps_conf (@raise world A e).
Proof. by intros w w' r [= <- _]. Qed.

Lemma keeps_conf_lift {A : Type} (x : outcome A) : keeps_conf (@lift_outcome world A x).
Proof. by intros w w' r [= <- _]. Qed.

Lemma keeps_conf_self : keeps_conf self.
Proof. by intros w w' r [= <- _]. Qed.

Lemma keeps_conf_on_heap {A : Type} (m : M heap A) : keeps_conf (on_heap m).
Proof.
  intros w w' r. unfold on_heap. destruct (m (mem w)) as [h x]. by intros [= <- _].
Qed.

Lemma keeps_conf_bind {A B : Type} (m : M world A) (f : A -> M world B) :
  keeps_conf m -> (forall a, keeps_conf (f a)) -> keeps_conf (bind m f).
Proof.
  intros Hm Hf w w' r. unfold bind.
  destruct (m w) as [w1 [a| |]] eqn:E; intros Hr.
  - rewrite (Hf a _ _ _ Hr). by eapply Hm.
  - injection Hr as <- _. by eapply Hm.
  - injection Hr as <- _. by eapply Hm.
Qed.

Lemma mixin_config_keeps_conf (d : directive) : keeps_conf (mixin_config d).
Proof.
  unfold mixin_config. apply keeps_conf_bind; [apply keeps_conf_self|]. intros c.
  destruct (optional d && is_none (config d)); [apply keeps_conf_ret|].
  apply keeps_conf_bind.
  { destruct (negb (raw d) && has_filepath d && negb (is_none (config d)));
      [|apply keeps_conf_ret].
    apply keeps_conf_bind; [apply keeps_conf_lift|].
    intros [|]; [apply keeps_conf_ret|apply keeps_conf_raise]. }
  intros _. apply keeps_conf_bind.
  { destruct (raw d); [apply keeps_conf_ret|].
    destruct (has_filepath d && truthy (config d)); [apply keeps_conf_lift|].
    destruct (has_filepath d); apply keeps_conf_ret. }
  intros choice.
  repeat (apply keeps_conf_bind; [apply keeps_conf_on_heap|intros ?]).
  apply keeps_conf_on_heap.
Qed.

Lemma for_each_keeps_conf {A : Type} (f : A -> M world unit) (l : list A) :
  (forall x, keeps_conf (f x)) -> keeps_conf (for_each f l).
Proof.
  intros Hf. induction l as [|x l IH]; simpl; [apply keeps_conf_ret|].
  apply keeps_conf_bind; [apply Hf|]. intros _. apply IH.
Qed.

(** X3: [register_parsed] records the directive before it applies it, and
    applying never touches the [Configuration] object: whether the call
    returns or raises, the directive is the last one of the list afterwards,
    and environment and root are the ones before the call. *)
Theorem register_parsed_records
    (cfg : pyval) (fp : option string) (rw opt : bool) (nst : option string)
    (w w' : world) (r : outcome unit) :
  register_parsed cfg fp rw opt nst w = (w', r) ->
  directives (conf w') = (directives (conf w) ++ [mkDirective cfg fp rw opt nst])%list
  /\ env (conf w') = env (conf w)
  /\ configatron (conf w') = configatron (conf w).
Proof.
  unfold register_parsed, bind, self, set_conf. intros Hrun.
  apply mixin_config_keeps_conf in Hrun. rewrite Hrun. done.
Qed.

(** X4: [set_env] stores the new environment first and keeps it whatever
    happens to the replay: afterwards the environment is the one given, and
    the recorded directives and the root are unchanged, also when the call
    raises. *)
Theorem set_env_records (fuel : nat) (e : string) (w w' : world) (r : outcome unit) :
  set_env fuel e w = (w', r) ->
  env (conf w') = e
  /\ directives (conf w') = directives (conf w)
  /\ configatron (conf w') = configatron (conf w).
Proof.
  unfold set_env. unfold bind at 1. unfold self at 1. unfold bind at 1.
  unfold set_conf at 1. intros Hrun.
  assert (K : keeps_conf (reapply_config fuel)).
  { unfold reapply_config.
    apply keeps_conf_bind; [apply keeps_conf_self|]. intros c.
    apply keeps_conf_bind; [apply keeps_conf_on_heap|]. intros _.
    apply keeps_conf_bind; [apply keeps_conf_self|]. intros c'.
    apply for_each_keeps_conf, mixin_config_keeps_conf. }
  apply K in Hrun. rewrite Hrun. done.
Qed.

(** ** Nodes: writes, reads and the lock *)

(** X5: on a node whose tree is unlocked, [node[key] = value] returns, and
    [node[key]] then gives that value back without changing anything; the
    other keys of the node read as before, the other nodes and the lock
    flags are untouched, and no node is created. *)
Theorem setitem_then_getitem (h : heap) (a : addr) (s : ConfigStore)
    (key : string) (value : obj) :
  stores h !! a = Some s ->
  trees h !! _config_tree s = Some false ->
  exists h1 s1,
    __setitem__ a key value h = (h1, Ok tt)
    /\ __getitem__ a key h1 = (h1, Ok value)
    /\ stores h1 !! a = Some s1
    /\ (forall k, k <> key -> dict_get k (_attributes s1) = dict_get k (_attributes s))
    /\ (forall b, b <> a -> stores h1 !! b = stores h !! b)
    /\ length (stores h1) = length (stores h)
    /\ trees h1 = trees h.
Proof.
  intros Hs Ht. pose proof (lookup_lt_Some _ _ _ Hs) as Hlt.
  set (s1 := with_attributes s (dict_set key value (_attributes s))).
  set (h1 := mkHeap (trees h) (<[a := s1]> (stores h))).
  assert (Hs1 : stores h1 !! a = Some s1) by (by apply list_lookup_insert_eq).
  exists h1, s1. split; [|split; [|split; [|split; [|split; [|split]]]]].
  - rewrite (setitem_run h a s key value Hs). by rewrite Ht.
  - rewrite (getitem_run h1 a s1 key Hs1). simpl. by rewrite dict_get_set_eq.
  - exact Hs1.
  - intros k Hk. simpl. by apply dict_get_set_ne.
  - intros b Hb. simpl. by apply list_lookup_insert_ne.
  - simpl. apply length_insert.
  - done.
Qed.

(** X6: [node.locked = b] goes to the property setter and writes the flag
    of the node's [ConfigTree]: afterwards every node of that tree reads
    [locked == b], a node of another tree reads what it read before, and no
    node has changed. *)
Theorem locked_is_shared (h : heap) (a : addr) (s : ConfigStore) (b b0 : bool) :
  stores h !! a = Some s ->
  trees h !! _config_tree s = Some b0 ->
  exists h1,
    __setattr__ a "locked" (OVal (PBool b)) h = (h1, Ok tt)
    /\ stores h1 = stores h
    /\ (forall a' s', stores h !! a' = Some s' ->
          _config_tree s' = _config_tree s ->
          get_locked a' h1 = (h1, Ok b))
    /\ (forall a' s' b', stores h !! a' = Some s' ->
          _config_tree s' <> _config_tree s ->
          trees h !! _config_tree s' = Some b' ->
          get_locked a' h1 = (h1, Ok b')).
Proof.
  intros Hs Ht. pose proof (lookup_lt_Some _ _ _ Ht) as Hlt.
  exists (mkHeap (<[_config_tree s := b]> (trees h)) (stores h)).
  split; [by eapply set_locked_run|]. split; [done|]. split.
  - intros a' s' Hs' Hsame. unfold get_locked, bind, read_store. simpl.
    rewrite Hs'. simpl. rewrite Hsame. by rewrite list_lookup_insert_eq.
  - intros a' s' b' Hs' Hother Ht'. unfold get_locked, bind, read_store. simpl.
    rewrite Hs'. simpl. rewrite list_lookup_insert_ne by done. by rewrite Ht'.
Qed.

(** *** Reading never writes *)

Lemma reads_only_ret {A : Type} (a : A) : reads_only (@ret heap A a).
Proof. by intros h h' r [= <- _]. Qed.

Lemma reads_only_stuck {A : Type} : reads_only (@stuck heap A).
Proof. by intros h h' r [= <- _]. Qed.

Lemma reads_only_read_store (a : addr) : reads_only (read_store a).
Proof.
  intros h h' r. unfold read_store. destruct (stores h !! a); by intros [= <- _].
Qed.

Lemma reads_only_bind {A B : Type} (m : M heap A) (f : A -> M heap B) :
  reads_only m -> (forall a, reads_only (f a)) -> reads_only (bind m f).
Proof.
  intros Hm Hf h h' r. unfold bind.
  destruct (m h) as [h1 [a| |]] eqn:E; intros Hr.
  - rewrite (Hf a _ _ _ Hr). by eapply Hm.
  - injection Hr as <- _. by eapply Hm.
  - injection Hr as <- _. by eapply Hm.
Qed.

Lemma to_dict_items_reads_only (rec : addr -> M heap pyval) :
  (forall c, reads_only (rec c)) ->
  forall l output, reads_only (to_dict_items rec l output).
Proof.
  intros Hrec. induction l as [|[k [v|c]] l IH]; intros output; simpl.
  - apply reads_only_ret.
  - apply reads_only_bind; [apply reads_only_ret|]. intros v'. apply IH.
  - apply reads_only_bind; [apply Hrec|]. intros v'. apply IH.
Qed.

Lemma to_dict_reads_only (fuel : nat) : forall a, reads_only (to_dict fuel a).
Proof.
  induction fuel as [|n IH]; intros a; simpl; [apply reads_only_stuck|].
  apply reads_only_bind; [apply reads_only_read_store|]. intros s.
  by apply to_dict_items_reads_only.
Qed.

Lemma repr_items_reads_only (repr_value : pyval -> string)
    (rec : addr -> M heap string) (name : string) :
  (forall c, reads_only (rec c)) ->
  forall l out, reads_only (repr_items repr_value rec name l out).
Proof.
  intros Hrec. induction l as [|[k [v|c]] l IH]; intros out; simpl.
  - apply reads_only_ret.
  - apply IH.
  - apply reads_only_bind; [apply Hrec|]. intros rendered.
    destruct (negb (String.eqb rendered "")); apply IH.
Qed.

Lemma repr_reads_only (repr_value : pyval -> string) (fuel : nat) :
  forall a, reads_only (__repr__ repr_value fuel a).
Proof.
  induction fuel as [|n IH]; intros a; simpl; [apply reads_only_stuck|].
  apply reads_only_bind; [apply reads_only_read_store|]. intros s.
  by apply repr_items_reads_only.
Qed.

(** X7: [to_dict], [__repr__], [__str__] and the iteration methods only
    read: whatever the heap (locked or not, well formed or not) and whatever
    they return or raise, the heap after the call is the heap before it; in
    particular they create no node, unlike item access on an unlocked tree. *)
Theorem reading_never_writes (repr_value : pyval -> string)
    (fuel : nat) (a : addr) (h : heap) :
  fst (to_dict fuel a h) = h
  /\ fst (__repr__ repr_value fuel a h) = h
  /\ fst (__str__ a h) = h
  /\ fst (iteritems a h) = h
  /\ fst (items a h) = h
  /\ fst (__iter__ a h) = h.
Proof.
  assert (R : forall (A : Type) (m : M heap A), reads_only m -> fst (m h) = h).
  { intros A m Hm. destruct (m h) as [h' r] eqn:E. simpl. by eapply Hm. }
  assert (S : forall (A : Type) (f : ConfigStore -> A),
             reads_only (let* s := read_store a in ret (f s))).
  { intros A f. apply reads_only_bind; [apply reads_only_read_store|].
    intros s. apply reads_only_ret. }
  repeat split.
  - apply R, to_dict_reads_only.
  - apply R, repr_reads_only.
  - apply (R _ _ (S _ _name)).
  - apply (R _ _ (S _ _attributes)).
  - apply (R _ _ (S _ _attributes)).
  - apply (R _ _ (S _ (fun s => keys (_attributes s)))).
Qed.

(** *** A locked heap is frozen *)

Lemma frozen_ret {A : Type} (a : A) : frozen (@ret heap A a).
Proof. by intros h h' r _ [= <- _]. Qed.

Lemma frozen_raise {A : Type} (e : exn) : frozen (@raise heap A e).
Proof. by intros h h' r _ [= <- _]. Qed.

Lemma frozen_bind {A B : Type} (m : M heap A) (f : A -> M heap B) :
  frozen m -> (forall a, frozen (f a)) -> frozen (bind m f).
Proof.
  intros Hm Hf h h' r Hl. unfold bind.
  destruct (m h) as [h1 [a| |]] eqn:E; intros Hr;
    pose proof (Hm _ _ _ Hl E) as ->.
  - by eapply Hf.
  - by injection Hr as <- _.
  - by injection Hr as <- _.
Qed.

Lemma getitem_frozen (a : addr) (key : string) : frozen (__getitem__ a key).
Proof.
  intros h h' r Hl Hr.
  destruct (stores h !! a) as [s|] eqn:Hs.
  - rewrite (getitem_run h a s key Hs) in Hr.
    destruct (dict_get key (_attributes s)); [by injection Hr as <- _|].
    destruct (trees h !! _config_tree s) as [[|]|] eqn:Ht;
      [by injection Hr as <- _| |by injection Hr as <- _].
    by pose proof (Hl _ _ Ht).
  - run_step. rewrite Hs in Hr. by injection Hr as <- _.
Qed.

Lemma setitem_frozen (a : addr) (key : string) (value : obj) :
  frozen (__setitem__ a key value).
Proof.
  intros h h' r Hl Hr.
  destruct (stores h !! a) as [s|] eqn:Hs.
  - rewrite (setitem_run h a s key value Hs) in Hr.
    destruct (trees h !! _config_tree s) as [[|]|] eqn:Ht;
      [by injection Hr as <- _| |by injection Hr as <- _].
    by pose proof (Hl _ _ Ht).
  - run_step. rewrite Hs in Hr. by injection Hr as <- _.
Qed.

Lemma update_dict_frozen_from (m : list (string * pyval)) :
  Forall (fun kv => forall a key, frozen (update_item (snd kv) a key)) m ->
  forall a, frozen (update_dict a m).
Proof.
  induction 1 as [|[k v] m Hv _ IH]; intros a; simpl.
  - apply frozen_ret.
  - apply frozen_bind; [apply Hv|]. intros _. apply IH.
Qed.

Lemma update_item_frozen (v : pyval) : forall a key, frozen (update_item v a key).
Proof.
  induction v as [v Hleaf|m IHm] using pyval_nested_ind; intros a key.
  - rewrite update_item_leaf by done. apply setitem_frozen.
  - intros h h' r. rewrite update_item_dict. revert h h' r.
    apply frozen_bind; [apply getitem_frozen|].
    intros [w|c]; [apply frozen_raise|]. by apply update_dict_frozen_from.
Qed.

(** X8: while every tree of the heap is locked, neither item access nor a
    merge changes anything: whatever [node[key]], [node[key] = value] or
    [node.update_dict(d)] return or raise, the heap afterwards is the heap
    before the call.  A merge that writes at its first step fails at that
    step: a mapping whose first value is not a mapping raises
    [LockedError]. *)
Theorem locked_heap_is_frozen (h : heap) (a : addr) (key : string) (value : obj)
    (d : list (string * pyval)) :
  all_locked h ->
  fst (__getitem__ a key h) = h
  /\ fst (__setitem__ a key value h) = h
  /\ fst (update_dict a d h) = h
  /\ forall s k v d',
       stores h !! a = Some s ->
       trees h !! _config_tree s = Some true ->
       d = (k, v) :: d' ->
       is_dict v = false ->
       snd (update_dict a d h)
       = Raise (LockedError ("Cannot set key " ++ k ++ " for locked " ++ _name s)).
Proof.
  intros Hl.
  assert (R : forall (A : Type) (m : M heap A), frozen m -> fst (m h) = h).
  { intros A m Hm. destruct (m h) as [h' r] eqn:E. simpl. by eapply Hm. }
  split; [apply R, getitem_frozen|]. split; [apply R, setitem_frozen|]. split.
  - apply R. apply update_dict_frozen_from, Forall_forall.
    intros kv _. apply update_item_frozen.
  - intros s k v d' Hs Ht -> Hv. rewrite update_dict_cons. unfold bind.
    rewrite (update_item_leaf v a k Hv).
    rewrite (setitem_run h a s k (OVal v) Hs). by rewrite Ht.
Qed.

(** ** Replay *)

(** X9: in the steady state, with the root locked and no key [attributes]
    under it, [set_env] cannot replay: it stores the environment, [clear]
    raises [UndefinedKeyError] for [attributes], and the heap (tree and lock
    flags) is the one before the call. *)
Theorem set_env_locked_raises (fuel : nat) (e : string) (w : world) (s : ConfigStore) :
  stores (mem w) !! configatron (conf w) = Some s ->
  trees (mem w) !! _config_tree s = Some true ->
  dict_get "attributes" (_attributes s) = None ->
  set_env (S fuel) e w
  = (mkWorld (mkConfiguration (directives (conf w)) e (configatron (conf w))) (mem w),
     Raise (UndefinedKeyError
              ("Configuration key not found: " ++ _name s ++ ".attributes"))).
Proof.
  intros Hs Ht Hk.
  unfold set_env, reapply_config, bind, self, set_conf, on_heap.
  cbn [mem conf configatron directives env].
  by rewrite (clear_locked_raises fuel (mem w) _ s Hs Ht Hk).
Qed.

(** X10: on a node whose tree is unlocked and that has no key
    [attributes], [clear] does not end by itself: the lookup of
    [self.attributes] creates a child of that name, [clear] is called on the
    child, which has no such key either, and so on; whatever depth of calls
    is allowed, it is used up (in Python: the recursion limit). *)
Theorem clear_unlocked_descends (fuel : nat) :
  forall (h : heap) (a : addr) (s : ConfigStore),
    stores h !! a = Some s ->
    trees h !! _config_tree s = Some false ->
    dict_get "attributes" (_attributes s) = None ->
    snd (clear fuel a h) = Stuck
    /\ length (stores (fst (clear fuel a h))) = (length (stores h) + fuel)%nat.
Proof.
  induction fuel as [|n IH]; intros h a s Hs Ht Hk.
  - simpl. split; [done|lia].
  - pose proof (lookup_lt_Some _ _ _ Hs) as Hlt.
    simpl. unfold bind at 1. unfold bind at 2.
    change (__getattr__ a "attributes") with (__getitem__ a "attributes").
    rewrite (getitem_run h a s "attributes" Hs). rewrite Hk, Ht.
    set (child := mkStore (_config_tree s) (_name s ++ "." ++ "attributes")
                    (_path s ++ ["attributes"]) []).
    set (h1 := mkHeap _ _).
    assert (Hc : stores h1 !! length (stores h) = Some child).
    { unfold h1. simpl. rewrite list_lookup_insert_ne by lia.
      rewrite lookup_app_r by lia. by rewrite Nat.sub_diag. }
    destruct (IH h1 (length (stores h)) child Hc Ht eq_refl) as [Hr Hlen].
    split; [exact Hr|]. rewrite Hlen. unfold h1. simpl.
    rewrite length_insert, length_app. simpl. lia.
Qed.

(** ** [mixin_config]: what is tested before the tree is unlocked *)

(** X11: for a directive with [raw=False], a file path and a document that
    is not null, the test [self.env not in config] decides before anything
    is unlocked.  Whenever [in] says no, the call raises
    [MissingEnvironment]: so does the empty mapping, which is not taken for
    an empty document, and so does a list or a string without the name.
    Whenever [in] itself raises (a number, a boolean), that [TypeError] is
    what the caller gets.  In both cases the state is the one before. *)
Theorem mixin_config_environment_test (w : world) (d : directive) :
  raw d = false ->
  has_filepath d = true ->
  is_none (config d) = false ->
  (py_contains (env (conf w)) (config d) = Ok false ->
   mixin_config d w
   = (w, Raise (MissingEnvironment
                  (missing_environment_message (env (conf w)) (show_filepath d)))))
  /\ (forall e, py_contains (env (conf w)) (config d) = Raise e ->
        mixin_config d w = (w, Raise e)).
Proof.
  intros Hraw Hfp Hnn.
  unfold mixin_config, bind, self, lift_outcome.
  rewrite Hraw, Hfp, Hnn. rewrite andb_false_r. simpl.
  split.
  - by intros ->.
  - intros e. by intros ->.
Qed.

(** X12: a null document that came from a file (an empty file) changes
    nothing: with [optional] the directive is skipped, without it the empty
    mapping is merged between the unlock and the lock; with [raw=False] and
    no mount path the call returns, and on a locked root the state afterwards
    is the state before. *)
Theorem mixin_config_null_document (w : world) (d : directive) (s : ConfigStore) :
  config d = PNone ->
  raw d = false ->
  has_filepath d = true ->
  nested d = None ->
  stores (mem w) !! configatron (conf w) = Some s ->
  trees (mem w) !! _config_tree s = Some true ->
  mixin_config d w = (w, Ok tt).
Proof.
  intros Hcfg Hraw Hfp Hnest Hs Ht. destruct w as [c h]. simpl in *.
  unfold mixin_config, bind, self, on_heap. simpl.
  rewrite Hcfg, Hraw, Hfp, Hnest. simpl.
  destruct (optional d); simpl; [done|].
  rewrite (set_locked_run h _ s false true Hs Ht). unfold ret. simpl.
  assert (Ht' : <[_config_tree s := false]> (trees h) !! _config_tree s = Some false).
  { apply list_lookup_insert_eq. by eapply lookup_lt_Some. }
  rewrite (set_locked_run (mkHeap (<[_config_tree s := false]> (trees h)) (stores h))
             _ s true false Hs Ht').
  simpl. rewrite list_insert_insert_eq. rewrite (list_insert_id _ _ _ Ht).
  by destruct h.
Qed.

(** X13: without a file path the [raw] flag changes nothing: an in-memory
    registration is applied as its whole document, environment selection
    and the [MissingEnvironment] test are for documents with a file path
    only. *)
Theorem mixin_config_raw_without_filepath (w : world) (d : directive) :
  has_filepath d = false ->
  mixin_config d w
  = mixin_config (mkDirective (config d) (filepath d) true (optional d) (nested d)) w.
Proof.
  intros Hfp. unfold mixin_config, has_filepath in *. simpl.
  unfold bind at 1 3. unfold self. 
  destruct (optional d && is_none (config d)); [done|].
  rewrite Hfp. rewrite andb_false_r. simpl.
  by destruct (raw d).
Qed.

(** ** What a registration builds *)

(** [mixin_config] from the unlock on, for a directive that passed the tests
    with the mapping [choice] *)
Lemma mixin_config_applies (d : directive) (w : world) (choice : pyval) :
  optional d && is_none (config d) = false ->
  (raw d = true /\ choice = config d)
  \/ (raw d = false /\ has_filepath d = true
      /\ py_contains (env (conf w)) (config d) = Ok true
      /\ truthy (config d) = true
      /\ py_index (config d) (env (conf w)) = Ok choice) ->
  mixin_config d w
  = (on_heap (__setattr__ (configatron (conf w)) "locked" (OVal (PBool false))) ;;
     let* base_config :=
       on_heap (match nested d with
                | Some n => descend (ORef (configatron (conf w))) (split_dot n)
                | None => ret (ORef (configatron (conf w)))
                end) in
     on_heap (call_update_dict base_config choice) ;;
     on_heap (__setattr__ (configatron (conf w)) "locked" (OVal (PBool true)))) w.
Proof.
  intros Hopt Hsel. unfold mixin_config. unfold bind at 1. unfold self at 1.
  rewrite Hopt. unfold bind at 1.
  destruct Hsel as [[Hraw ->]|(Hraw & Hfp & Hin & Htr & Hidx)]; rewrite Hraw.
  - cbn [negb andb]. unfold ret at 1. by unfold bind at 1.
  - rewrite Hfp, Htr. cbn [negb andb].
    destruct (negb (is_none (config d))).
    + unfold bind at 1. rewrite Hin. unfold lift_outcome at 1. unfold ret at 1.
      unfold bind at 1. rewrite Hidx. by unfold lift_outcome at 1.
    + unfold ret at 1. unfold bind at 1. rewrite Hidx. by unfold lift_outcome at 1.
Qed.

Lemma mixin_config_bracket (c : Configuration) (nst : option string) (choice : pyval)
    (w : world) (s s2 : ConfigStore) (b0 : bool) (h2 : heap) :
  conf w = c ->
  stores (mem w) !! configatron c = Some s ->
  trees (mem w) !! _config_tree s = Some b0 ->
  bind (match nst with
        | Some n => descend (ORef (configatron c)) (split_dot n)
        | None => ret (ORef (configatron c))
        end)
       (fun base_config => call_update_dict base_config choice)
       (mkHeap (<[_config_tree s := false]> (trees (mem w))) (stores (mem w)))
  = (h2, Ok tt) ->
  stores h2 !! configatron c = Some s2 ->
  _config_tree s2 = _config_tree s ->
  trees h2 = <[_config_tree s := false]> (trees (mem w)) ->
  (on_heap (__setattr__ (configatron c) "locked" (OVal (PBool false))) ;;
   let* base_config :=
     on_heap (match nst with
              | Some n => descend (ORef (configatron c)) (split_dot n)
              | None => ret (ORef (configatron c))
              end) in
   on_heap (call_update_dict base_config choice) ;;
   on_heap (__setattr__ (configatron c) "locked" (OVal (PBool true)))) w
  = (mkWorld c (mkHeap (<[_config_tree s := true]> (trees (mem w))) (stores h2)), Ok tt).
Proof.
  intros Hc Hs Ht Hbody Hs2 Hts2 Htr. destruct w as [c0 h]. simpl in *. subst c0.
  pose proof (lookup_lt_Some _ _ _ Ht) as Hlt.
  unfold bind at 1. unfold on_heap at 1. cbn [mem conf].
  rewrite (set_locked_run h _ s false b0 Hs Ht).
  unfold bind at 1. unfold on_heap at 1. cbn [mem conf].
  unfold bind in Hbody.
  destruct (match nst with
            | Some n => descend (ORef (configatron c)) (split_dot n)
            | None => ret (ORef (configatron c))
            end _) as [h1 [base| |]]; try done.
  unfold bind at 1. unfold on_heap at 1. cbn [mem conf]. rewrite Hbody.
  unfold on_heap. cbn [mem conf].
  assert (Hu2 : trees h2 !! _config_tree s2 = Some false).
  { rewrite Hts2, Htr. by apply list_lookup_insert_eq. }
  rewrite (set_locked_run h2 _ s2 true false Hs2 Hu2).
  rewrite Hts2, Htr. by rewrite list_insert_insert_eq.
Qed.

Lemma bind_assoc {S A B C : Type} (m : M S A) (f : A -> M S B) (g : B -> M S C) (s : S) :
  bind (bind m f) g s = bind m (fun x => bind (f x) g) s.
Proof. unfold bind. by destruct (m s) as [s1 [a| |]]. Qed.

Lemma shape_empty (t : addr) (h : heap) (a : addr) F :
  shape t h a [] F ->
  exists s, stores h !! a = Some s /\ _config_tree s = t /\ _attributes s = [] /\ F = [a].
Proof.
  intros H. inversion H as [a0 s p F0 Ha Ht HK HaF]; subst.
  inversion HK; subst. exists s. by repeat split.
Qed.

(** Mounting under a path of new keys, then merging: on an empty node *)
Lemma mount_merges (ks : list string) :
  forall (t : addr) (h : heap) (a : addr) (d p : list (string * pyval)),
    shape t h a [] [a] ->
    trees h !! t = Some false ->
    merge_plain [] d = Some p ->
    exists h' F',
      bind (descend (ORef a) ks) (fun b => call_update_dict b (PDict d)) h = (h', Ok tt)
      /\ shape t h' a (nest ks p) F'
      /\ within h [a] h' F'.
Proof.
  induction ks as [|k ks IH]; intros t h a d p Hs Hu Hm.
  - simpl. unfold bind, ret. simpl.
    apply (update_dict_merges d
             (proj2 (Forall_forall _ _) (fun kv _ => update_item_merges (snd kv)))
             t a h [] [a] p Hs Hu Hm).
  - destruct (shape_empty _ _ _ _ Hs) as (s & Ha & Ht & Hattrs & _).
    pose proof (lookup_lt_Some _ _ _ Ha) as Hlt.
    cbn [descend obj_getitem]. rewrite bind_assoc. unfold bind at 1.
    assert (Hk : dict_get k (_attributes s) = None) by (by rewrite Hattrs).
    rewrite (getitem_absent h a s k Ha ltac:(by rewrite Ht) Hk).
    set (c := length (stores h)).
    set (child := mkStore (_config_tree s) (_name s ++ "." ++ k) (_path s ++ [k]) []).
    set (s1 := with_attributes s (_attributes s ++ [(k, ORef c)])%list).
    set (h1 := mkHeap (trees h) (<[a := s1]> (stores h ++ [child])%list)).
    assert (Hlen1 : length (stores h1) = S (length (stores h))).
    { simpl. rewrite length_insert, length_app. simpl. lia. }
    assert (Ha1 : stores h1 !! a = Some s1).
    { simpl. apply list_lookup_insert_eq. rewrite length_app. simpl. lia. }
    assert (Hc1 : shape t h1 c [] [c]).
    { apply shape_node with (s := child); [|done|constructor|].
      - simpl. rewrite list_lookup_insert_ne by (unfold c; lia).
        rewrite lookup_app_r by (unfold c; lia).
        unfold c. by rewrite Nat.sub_diag.
      - intros Hx. by apply elem_of_nil in Hx. }
    destruct (IH t h1 c d p Hc1 Hu Hm) as (h2 & Fc & Hrun & Hc2 & (Htr & Hlen & Hout & Hnew)).
    assert (Hnew' : forall x, x ∈ Fc -> length (stores h) <= x).
    { intros x Hx. destruct (Hnew x Hx) as [Hx'|Hx'].
      - apply list_elem_of_singleton in Hx'. subst x. unfold c. lia.
      - lia. }
    assert (Ha2 : stores h2 !! a = Some s1).
    { rewrite Hout; [done|lia|]. intros Hx. apply list_elem_of_singleton in Hx.
      unfold c in Hx. lia. }
    exists h2, (a :: (Fc ++ []))%list. split; [exact Hrun|]. split.
    + apply shape_node with (s := s1); [done|done| |].
      * simpl. rewrite Hattrs. simpl. constructor; [done|done|constructor|].
        intros x _ Hx. by apply elem_of_nil in Hx.
      * rewrite app_nil_r. intros Hx. pose proof (Hnew' a Hx). lia.
    + repeat split.
      * done.
      * lia.
      * intros x Hx HxF. rewrite Hout; [|lia|].
        -- simpl. rewrite list_lookup_insert_ne.
           ++ by apply lookup_app_l.
           ++ intros ->. apply HxF, list_elem_of_singleton. done.
        -- intros Hx'. apply list_elem_of_singleton in Hx'. unfold c in Hx'. lia.
      * intros x Hx. rewrite app_nil_r in Hx. apply elem_of_cons in Hx as [->|Hx].
        -- left. by apply list_elem_of_singleton.
        -- right. by apply Hnew'.
Qed.

(** A directive that passed the tests, applied to an empty root *)
Lemma mixin_config_on_empty_root (d : directive) (w : world) (t : addr)
    (sub p : list (string * pyval)) :
  optional d && is_none (config d) = false ->
  (raw d = true /\ PDict sub = config d)
  \/ (raw d = false /\ has_filepath d = true
      /\ py_contains (env (conf w)) (config d) = Ok true
      /\ truthy (config d) = true
      /\ py_index (config d) (env (conf w)) = Ok (PDict sub)) ->
  shape t (mem w) (configatron (conf w)) [] [configatron (conf w)] ->
  is_Some (trees (mem w) !! t) ->
  merge_plain [] sub = Some p ->
  exists w',
    mixin_config d w = (w', Ok tt)
    /\ conf w' = conf w
    /\ get_locked (configatron (conf w)) (mem w') = (mem w', Ok true)
    /\ exists n, forall fuel, n <= fuel ->
         to_dict fuel (configatron (conf w)) (mem w')
         = (mem w',
            Ok (PDict (nest (match nested d with
                             | Some n => split_dot n
                             | None => []
                             end) p))).
Proof.
  intros Hopt Hsel Hs [b0 Ht] Hm.
  rewrite (mixin_config_applies d w (PDict sub) Hopt Hsel).
  destruct (shape_root _ _ _ _ _ Hs) as (s & Ha & Hts).
  pose proof (lookup_lt_Some _ _ _ Ht) as Hlt.
  set (h0 := mkHeap (<[t := false]> (trees (mem w))) (stores (mem w))).
  assert (Hs0 : shape t h0 (configatron (conf w)) [] [configatron (conf w)]) by (eapply shape_frame; done).
  assert (Hu0 : trees h0 !! t = Some false) by (by apply list_lookup_insert_eq).
  set (ks := match nested d with Some n => split_dot n | None => [] end).
  destruct (mount_merges ks t h0 (configatron (conf w)) sub p Hs0 Hu0 Hm)
    as (h2 & F2 & Hrun & Hs2 & (Htr & _)).
  destruct (shape_root _ _ _ _ _ Hs2) as (s2 & Ha2 & Hts2).
  assert (Hbody : bind (match nested d with
                        | Some n => descend (ORef (configatron (conf w))) (split_dot n)
                        | None => ret (ORef (configatron (conf w)))
                        end)
                       (fun base_config => call_update_dict base_config (PDict sub)) h0
                  = (h2, Ok tt)).
  { unfold ks in Hrun. destruct (nested d); exact Hrun. }
  assert (Hu : trees (mem w) !! _config_tree s = Some b0) by (by rewrite Hts).
  unfold h0 in Hbody. rewrite <- Hts in Hbody.
  rewrite (mixin_config_bracket (conf w) (nested d) (PDict sub) w s s2 b0 h2
             eq_refl Ha Hu Hbody Ha2 ltac:(congruence) ltac:(by rewrite Hts)).
  eexists. split; [reflexivity|]. split; [done|]. cbn [mem].
  set (h3 := mkHeap _ _).
  assert (Hs3 : shape t h3 (configatron (conf w)) (nest ks p) F2) by (eapply shape_frame; done).
  split.
  - apply get_locked_run with (s := s2); [done|]. unfold h3. cbn [trees].
    rewrite Hts2, Hts. by apply list_lookup_insert_eq.
  - by eapply shape_to_dict.
Qed.

Lemma register_parsed_on_fresh (e : string) (cfg : pyval) (fp : option string)
    (rw opt : bool) (nst : option string) (sub p : list (string * pyval)) :
  let d := mkDirective cfg fp rw opt nst in
  opt && is_none cfg = false ->
  (rw = true /\ PDict sub = cfg)
  \/ (rw = false /\ has_filepath d = true
      /\ py_contains e cfg = Ok true
      /\ truthy cfg = true
      /\ py_index cfg e = Ok (PDict sub)) ->
  merge_plain [] sub = Some p ->
  exists w',
    register_parsed cfg fp rw opt nst (fresh_process e) = (w', Ok tt)
    /\ get_locked (configatron (conf w')) (mem w') = (mem w', Ok true)
    /\ reads w' (nest (mount_path nst) p).
Proof.
  intros d Hopt Hsel Hm.
  set (w0 := mkWorld (mkConfiguration (directives (conf (fresh_process e)) ++ [d]) e 0)
               (mem (fresh_process e))).
  destruct (fresh_process_shape e) as [Hs Ht].
  destruct (mixin_config_on_empty_root d w0 0 sub p Hopt Hsel Hs (mk_is_Some _ _ Ht) Hm)
    as (w' & Hrun & Hconf & Hl & Hread).
  exists w'. split; [|split].
  - unfold register_parsed, bind, self, set_conf. exact Hrun.
  - by rewrite Hconf.
  - unfold reads. by rewrite Hconf.
Qed.

Lemma register_parsed_selects (e fp : string) (m sub : list (string * pyval))
    (opt : bool) (nst : option string) :
  fp <> "" ->
  dict_get e m = Some (PDict sub) ->
  distinct_keys (PDict sub) ->
  exists w',
    register_parsed (PDict m) (Some fp) false opt nst (fresh_process e) = (w', Ok tt)
    /\ get_locked (configatron (conf w')) (mem w') = (mem w', Ok true)
    /\ reads w' (nest (mount_path nst) sub).
Proof.
  intros Hfp Hget Hd.
  apply register_parsed_on_fresh with (sub := sub).
  - apply andb_false_r.
  - right. split; [done|]. split.
    { unfold has_filepath. simpl. destruct (String.eqb fp "") eqn:E; [|done].
      by apply String.eqb_eq in E. }
    split; [simpl; unfold dict_has; by rewrite Hget|].
    split; [by destruct m|]. simpl. by rewrite Hget.
  - by apply merge_plain_fresh.
Qed.

(** X14: [register] of a file, in a fresh process, with [raw=False]: when
    the file parses to a mapping whose key for the active environment holds
    a mapping, that mapping and nothing else is merged.  The call returns,
    the tree is locked again, and [to_dict] of the root gives the
    environment's mapping (under the mount path, when one is given); what the
    document holds for other environments plays no part. *)
Theorem register_selects_environment
    (fs : string -> option string) (yaml_load : string -> pyval + string)
    (e fp f : string) (m sub : list (string * pyval)) (opt : bool)
    (nst : option string) :
  startswith "/" fp = true ->
  fs fp = Some f ->
  yaml_load f = inl (PDict m) ->
  dict_get e m = Some (PDict sub) ->
  distinct_keys (PDict sub) ->
  exists w',
    register fs yaml_load fp false opt nst (fresh_process e) = (w', Ok tt)
    /\ get_locked (configatron (conf w')) (mem w') = (mem w', Ok true)
    /\ reads w' (nest (mount_path nst) sub).
Proof.
  intros Habs Hf Hy Hget Hd.
  assert (Hfp : fp <> "") by (by intros ->).
  destruct (register_parsed_selects e fp m sub opt nst Hfp Hget Hd)
    as (w' & Hrun & Hl & Hread).
  exists w'. split; [|done].
  unfold register. unfold bind at 1. unfold path_exists.
  rewrite Habs, Hf, Hy. cbn [negb]. rewrite andb_false_r. exact Hrun.
Qed.

(** X15: a raw registration with a mount path, in a fresh process, creates
    one node per segment of the dotted path and merges the mapping into the
    last one: [to_dict] of the root gives the mapping nested under the
    segments of [nested.split('.')]. *)
Theorem register_parsed_raw_mounts
    (e n : string) (d : list (string * pyval)) (fp : option string) (opt : bool) :
  distinct_keys (PDict d) ->
  exists w',
    register_parsed (PDict d) fp true opt (Some n) (fresh_process e) = (w', Ok tt)
    /\ get_locked (configatron (conf w')) (mem w') = (mem w', Ok true)
    /\ reads w' (nest (split_dot n) d).
Proof.
  intros Hd.
  apply (register_parsed_on_fresh e (PDict d) fp true opt (Some n) d d).
  - apply andb_false_r.
  - by left.
  - by apply merge_plain_fresh.
Qed.

(** *** One registration after another *)

Lemma dict_set_same {V : Type} (k : string) (v : V) (d : list (string * V)) :
  dict_get k d = Some v -> dict_set k v d = d.
Proof.
  induction d as [|[k' v'] d IH]; simpl; [done|].
  destruct (String.eqb k k') eqn:E.
  - apply String.eqb_eq in E. subst k'. by intros [= ->].
  - intros H. by rewrite IH.
Qed.

Lemma merge_plain_leaves (d : list (string * pyval)) :
  forall p p' k v,
    merge_plain p d = Some p' ->
    NoDup (keys d) ->
    (k, v) ∈ d ->
    is_dict v = false ->
    dict_get k p' = Some v.
Proof.
  induction d as [|[k0 v0] d IH]; intros p p' k v; simpl.
  - intros _ _ H. by apply elem_of_nil in H.
  - destruct (merge_item v0 k0 p) as [p1|] eqn:E; [|done]. intros Hm Hnd Hin Hv.
    apply NoDup_cons in Hnd as [Hk0 Hnd].
    apply elem_of_cons in Hin as [[= -> ->]|Hin].
    + rewrite (merge_plain_other_keys d p1 p' k0 Hm Hk0).
      destruct (merge_item_sets _ _ _ _ E) as (v1 & -> & Hv1).
      rewrite (Hv1 Hv). apply dict_get_set_eq.
    + by apply (IH p1 p' k v).
Qed.

(** For a value [v1] found under a key, merging [v] changes nothing *)
Lemma merge_plain_again_from (m : list (string * pyval)) :
  Forall (fun kv =>
            forall k p p1,
              distinct_keys (snd kv) ->
              merge_item (snd kv) k p = Some p1 ->
              merge_item (snd kv) k p1 = Some p1) m ->
  NoDup (keys m) ->
  Forall (fun kv => distinct_keys (snd kv)) m ->
  forall p q, merge_plain p m = Some q -> merge_plain q m = Some q.
Proof.
  induction 1 as [|[k v] m Hv _ IH]; intros Hnd Hall p q; simpl in *; [done|].
  apply NoDup_cons in Hnd as [Hk Hnd]. apply Forall_cons in Hall as [Hdv Hall].
  destruct (merge_item v k p) as [p1|] eqn:E; [|done]. intros Hm.
  pose proof (Hv k p p1 Hdv E) as E1.
  (* the binding of [k] in [q] is the one in [p1] *)
  destruct (merge_item_sets _ _ _ _ E) as (v1 & Hp1 & _).
  assert (Hq : dict_get k q = Some v1).
  { rewrite (merge_plain_other_keys m p1 q k Hm Hk). rewrite Hp1. apply dict_get_set_eq. }
  assert (Hp1k : dict_get k p1 = Some v1) by (rewrite Hp1; apply dict_get_set_eq).
  assert (E2 : merge_item v k q = Some q).
  { destruct (is_dict v) eqn:Hd.
    - destruct v as [| | | | |mv]; try done.
      rewrite merge_item_dict in E1 |- *. rewrite Hp1k in E1. rewrite Hq.
      destruct v1 as [| | | | |q1]; try done.
      destruct (merge_plain q1 mv) as [q2|]; [|done].
      injection E1 as E1. f_equal.
      assert (Hq2 : dict_get k (dict_set k (PDict q2) p1) = Some (PDict q2))
        by apply dict_get_set_eq.
      rewrite E1, Hp1k in Hq2. injection Hq2 as <-. by apply dict_set_same.
    - rewrite merge_item_leaf in E1 |- * by done. f_equal.
      injection E1 as E1.
      assert (Hq2 : dict_get k (dict_set k v p1) = Some v) by apply dict_get_set_eq.
      rewrite E1, Hp1k in Hq2. injection Hq2 as <-. by apply dict_set_same. }
  rewrite E2. by apply (IH Hnd Hall p1 q).
Qed.

Lemma merge_item_again (v : pyval) :
  forall k p p1,
    distinct_keys v ->
    merge_item v k p = Some p1 ->
    merge_item v k p1 = Some p1.
Proof.
  induction v as [v Hleaf|m IHm] using pyval_nested_ind; intros k p p1 Hd.
  - rewrite !merge_item_leaf by done. intros [= <-]. f_equal.
    apply dict_set_same, dict_get_set_eq.
  - apply distinct_keys_dict in Hd as [Hnd Hall].
    rewrite !merge_item_dict.
    destruct (dict_get k p) as [[| | | | |q0]|] eqn:Ep; try done.
    + destruct (merge_plain q0 m) as [q|] eqn:Eq; [|done]. intros [= <-].
      rewrite dict_get_set_eq.
      rewrite (merge_plain_again_from m IHm Hnd Hall q0 q Eq).
      f_equal. apply dict_set_same, dict_get_set_eq.
    + destruct (merge_plain [] m) as [q|] eqn:Eq; [|done]. intros [= <-].
      rewrite dict_get_set_eq.
      rewrite (merge_plain_again_from m IHm Hnd Hall [] q Eq).
      f_equal. apply dict_set_same, dict_get_set_eq.
Qed.

Lemma merge_plain_again (d p q : list (string * pyval)) :
  distinct_keys (PDict d) -> merge_plain p d = Some q -> merge_plain q d = Some q.
Proof.
  intros Hd. apply distinct_keys_dict in Hd as [Hnd Hall].
  apply merge_plain_again_from; try done.
  apply Forall_forall. intros kv _. apply merge_item_again.
Qed.

(** The tree after raw registrations that returned *)
Lemma raw_run_shape (ds : list (list (string * pyval))) :
  forall (w w' : world) (t : addr) p F,
    shape t (mem w) (configatron (conf w)) p F ->
    is_Some (trees (mem w) !! t) ->
    for_each register_raw ds w = (w', Ok tt) ->
    exists p' F',
      merge_all p ds = Some p'
      /\ shape t (mem w') (configatron (conf w')) p' F'
      /\ is_Some (trees (mem w') !! t).
Proof.
  induction ds as [|d ds IH]; intros w w' t p F Hs Ht; simpl.
  - intros [= <-]. by exists p, F.
  - destruct (merge_plain p d) as [p1|] eqn:E.
    + destruct (register_raw_merges w d t p F p1 Hs Ht E)
        as (w1 & F1 & Hrun & _ & Hs1 & Hl1).
      unfold bind. rewrite Hrun. by apply IH with (F := F1).
    + destruct (register_raw_conflict [d] w t p F Hs Ht) as (w1 & msg & Hrun).
      { simpl. by rewrite E. }
      simpl in Hrun. unfold bind in *.
      destruct (register_raw d w) as [w2 [[]| |]]; done.
Qed.

Lemma shape_reads (t : addr) (w : world) p F :
  shape t (mem w) (configatron (conf w)) p F -> reads w p.
Proof. intros Hs. by eapply shape_to_dict. Qed.

(** X16: a raw registration is idempotent.  After any raw registrations in
    a fresh process, if registering the mapping [d] (each key written once)
    returns, registering [d] once more returns too, and [to_dict] of the
    root gives the same mapping before and after. *)
Theorem register_raw_twice
    (e : string) (ds : list (list (string * pyval))) (d : list (string * pyval))
    (w1 w2 : world) :
  for_each register_raw ds (fresh_process e) = (w1, Ok tt) ->
  register_raw d w1 = (w2, Ok tt) ->
  distinct_keys (PDict d) ->
  exists w3 p,
    register_raw d w2 = (w3, Ok tt)
    /\ reads w2 p
    /\ reads w3 p.
Proof.
  intros Hrun1 Hrun2 Hd.
  destruct (fresh_process_shape e) as [Hs Ht].
  destruct (raw_run_shape ds _ w1 0 [] [0] Hs (mk_is_Some _ _ Ht) Hrun1)
    as (p1 & F1 & _ & Hs1 & Ht1).
  destruct (raw_run_shape [d] w1 w2 0 p1 F1 Hs1 Ht1) as (p2 & F2 & Hm2 & Hs2 & Ht2).
  { simpl. unfold bind. by rewrite Hrun2. }
  simpl in Hm2. destruct (merge_plain p1 d) as [q|] eqn:E; [|done].
  injection Hm2 as <-.
  destruct (register_raw_merges w2 d 0 q F2 q Hs2 Ht2 (merge_plain_again d p1 q Hd E))
    as (w3 & F3 & Hrun3 & _ & Hs3 & _).
  exists w3, q. split; [done|]. split; by eapply shape_reads.
Qed.

(** X17: the last registration wins on its plain values and leaves the
    rest alone.  After raw registrations in a fresh process, when
    registering [d] (its keys distinct) returns, the root then reads [v]
    under every key that [d] gives a value [v] that is not a mapping, and
    reads what it read before under every key [d] does not name. *)
Theorem register_raw_overrides
    (e : string) (ds : list (list (string * pyval))) (d : list (string * pyval))
    (w1 w2 : world) :
  for_each register_raw ds (fresh_process e) = (w1, Ok tt) ->
  register_raw d w1 = (w2, Ok tt) ->
  NoDup (keys d) ->
  exists p1 p2,
    reads w1 p1
    /\ reads w2 p2
    /\ (forall k v, (k, v) ∈ d -> is_dict v = false -> dict_get k p2 = Some v)
    /\ (forall k, k ∉ keys d -> dict_get k p2 = dict_get k p1).
Proof.
  intros Hrun1 Hrun2 Hnd.
  destruct (fresh_process_shape e) as [Hs Ht].
  destruct (raw_run_shape ds _ w1 0 [] [0] Hs (mk_is_Some _ _ Ht) Hrun1)
    as (p1 & F1 & _ & Hs1 & Ht1).
  destruct (raw_run_shape [d] w1 w2 0 p1 F1 Hs1 Ht1) as (p2 & F2 & Hm2 & Hs2 & Ht2).
  { simpl. unfold bind. by rewrite Hrun2. }
  simpl in Hm2. destruct (merge_plain p1 d) as [q|] eqn:E; [|done].
  injection Hm2 as <-.
  exists p1, q. split; [by eapply shape_reads|]. split; [by eapply shape_reads|]. split.
  - intros k v Hin Hv. by apply (merge_plain_leaves d p1 q k v).
  - intros k Hk. by apply (merge_plain_other_keys d p1 q k).
Qed.

(** ** [__repr__]: the order of the lines *)

Lemma ascii_compare_spec (a b : ascii) :
  CompareSpec (a = b) (N_of_ascii a < N_of_ascii b)%N (N_of_ascii b < N_of_ascii a)%N
    (Ascii.compare a b).
Proof.
  unfold Ascii.compare.
  destruct (N.compare_spec (N_of_ascii a) (N_of_ascii b)) as [E|E|E];
    constructor; try done.
  rewrite <- (ascii_N_embedding a), <- (ascii_N_embedding b). by rewrite E.
Qed.

Lemma string_leb_trans (s1 : string) :
  forall s2 s3,
    String.leb s1 s2 = true -> String.leb s2 s3 = true -> String.leb s1 s3 = true.
Proof.
  unfold String.leb.
  induction s1 as [|c1 s1 IH]; intros [|c2 s2] [|c3 s3]; simpl; try done.
  destruct (ascii_compare_spec c1 c2) as [E12|L12|G12];
    destruct (ascii_compare_spec c2 c3) as [E23|L23|G23];
    destruct (ascii_compare_spec c1 c3) as [E13|L13|G13];
    subst; simpl; try done; try lia; try apply IH.
Qed.

Lemma insert_item_perm (x : string * obj) (l : list (string * obj)) :
  insert_item x l ≡ₚ x :: l.
Proof.
  induction l as [|y l IH]; simpl; [done|].
  destruct (String.leb (fst x) (fst y)); [done|].
  rewrite IH. apply Permutation_swap.
Qed.

Lemma sorted_items_perm (l : list (string * obj)) : sorted_items l ≡ₚ l.
Proof.
  induction l as [|x l IH]; simpl; [done|].
  rewrite insert_item_perm. by rewrite IH.
Qed.

Lemma insert_item_sorted (x : string * obj) (l : list (string * obj)) :
  StronglySorted (fun y z => String.leb (fst y) (fst z) = true) l ->
  StronglySorted (fun y z => String.leb (fst y) (fst z) = true) (insert_item x l).
Proof.
  induction 1 as [|y l Hl IH Hy]; simpl.
  - repeat constructor.
  - destruct (String.leb (fst x) (fst y)) eqn:E.
    + constructor; [by constructor|]. constructor; [done|].
      eapply Forall_impl; [exact Hy|]. intros z Hz. simpl in Hz.
      by eapply string_leb_trans.
    + constructor; [done|].
      rewrite insert_item_perm. constructor; [|done].
      destruct (String.leb_total (fst x) (fst y)) as [H|H]; [congruence|done].
Qed.

Lemma sorted_items_sorted (l : list (string * obj)) :
  StronglySorted (fun y z => String.leb (fst y) (fst z) = true) (sorted_items l).
Proof.
  induction l as [|x l IH]; simpl; [constructor|]. by apply insert_item_sorted.
Qed.

Lemma item_of_key (l : list (string * obj)) (x y : string * obj) :
  NoDup (keys l) -> x ∈ l -> y ∈ l -> fst x = fst y -> x = y.
Proof.
  induction l as [|z l IH]; simpl; intros Hnd Hx Hy Hk.
  - by apply elem_of_nil in Hx.
  - apply NoDup_cons in Hnd as [Hz Hnd].
    apply elem_of_cons in Hx as [->|Hx]; apply elem_of_cons in Hy as [->|Hy].
    + done.
    + exfalso. apply Hz. rewrite Hk. unfold keys.
      apply list_elem_of_fmap. by exists y.
    + exfalso. apply Hz. rewrite <- Hk. unfold keys.
      apply list_elem_of_fmap. by exists x.
    + by apply IH.
Qed.

Lemma sorted_items_unique (l1 l2 : list (string * obj)) :
  NoDup (keys l1) -> l1 ≡ₚ l2 -> sorted_items l1 = sorted_items l2.
Proof.
  intros Hnd Hp.
  apply (StronglySorted_unique_strong
           (fun y z : string * obj => String.leb (fst y) (fst z) = true)).
  - intros x1 x2 Hx1 Hx2 H12 H21.
    rewrite sorted_items_perm in Hx1. rewrite sorted_items_perm, <- Hp in Hx2.
    apply (item_of_key l1); try done. by apply String.leb_antisym.
  - apply sorted_items_sorted.
  - apply sorted_items_sorted.
  - by rewrite !sorted_items_perm.
Qed.

Lemma repr_items_same (repr_value : pyval -> string)
    (rec : addr -> M heap string) (name : string) (h1 h2 : heap) :
  (forall c, reads_only (rec c)) ->
  (forall c, snd (rec c h1) = snd (rec c h2)) ->
  forall l out,
    snd (repr_items repr_value rec name l out h1)
    = snd (repr_items repr_value rec name l out h2).
Proof.
  intros Hro Hrec. induction l as [|[k [v|c]] l IH]; intros out; simpl.
  - done.
  - apply IH.
  - unfold bind. pose proof (Hrec c) as Hc.
    destruct (rec c h1) as [h1' r1] eqn:E1. destruct (rec c h2) as [h2' r2] eqn:E2.
    apply Hro in E1. apply Hro in E2. simpl in Hc. subst h1' h2' r2.
    destruct r1 as [rendered| |]; try done.
    destruct (negb (String.eqb rendered "")); apply IH.
Qed.

(** X18: the text [__repr__] gives does not depend on the order in which
    the keys of a node were inserted: [sorted] puts the items in key order
    before anything is rendered.  Replacing the items of one node by a
    rearrangement of them (same name, keys distinct) leaves the rendering
    of every node of the heap, at every depth, as it was. *)
Theorem repr_ignores_insertion_order (repr_value : pyval -> string)
    (h : heap) (a : addr) (s s' : ConfigStore) :
  stores h !! a = Some s ->
  _name s' = _name s ->
  _attributes s' ≡ₚ _attributes s ->
  NoDup (keys (_attributes s)) ->
  forall fuel b,
    snd (__repr__ repr_value fuel b (mkHeap (trees h) (<[a := s']> (stores h))))
    = snd (__repr__ repr_value fuel b h).
Proof.
  intros Hs Hname Hperm Hnd. pose proof (lookup_lt_Some _ _ _ Hs) as Hlt.
  induction fuel as [|n IH]; intros b; [done|].
  simpl. unfold bind, read_store. simpl.
  destruct (decide (b = a)) as [->|Hne].
  - rewrite list_lookup_insert_eq by done. rewrite Hs. rewrite Hname.
    rewrite (sorted_items_unique (_attributes s) (_attributes s')) by done.
    apply repr_items_same; [apply repr_reads_only|apply IH].
  - rewrite list_lookup_insert_ne by done.
    destruct (stores h !! b) as [sb|]; [|done].
    apply repr_items_same; [apply repr_reads_only|apply IH].
Qed.

(** ** A new [Configuration] *)

Lemma lstrip_first (s : string) (c : ascii) :
  first_char (lstrip s) = Some c -> is_space c = false.
Proof.
  induction s as [|c0 s IH]; simpl; [done|].
  destruct (is_space c0) eqn:E; [done|]. simpl. by intros [= <-].
Qed.

Lemma rstrip_first (s : string) (c : ascii) :
  first_char (rstrip s) = Some c -> first_char s = Some c.
Proof.
  destruct s as [|c0 s]; simpl; [done|].
  destruct (rstrip s); [|done]. by destruct (is_space c0).
Qed.

Lemma rstrip_last (s : string) (c : ascii) :
  last_char (rstrip s) = Some c -> is_space c = false.
Proof.
  induction s as [|c0 s IH]; simpl; [done|].
  destruct (rstrip s) as [|c1 r] eqn:E.
  - destruct (is_space c0) eqn:E0; simpl; [done|]. by intros [= <-].
  - change (last_char (String c0 (String c1 r)))
      with (match last_char (String c1 r) with
            | None => Some c0
            | Some c' => Some c'
            end).
    destruct (last_char (String c1 r)) as [c'|] eqn:El;
      [|simpl in El; by destruct (last_char r)].
    intros [= <-]. by apply IH.
Qed.

Lemma lstrip_id (s : string) :
  (forall c, first_char s = Some c -> is_space c = false) -> lstrip s = s.
Proof.
  destruct s as [|c s]; simpl; [done|]. intros H. by rewrite (H c eq_refl).
Qed.

Lemma rstrip_id (s : string) :
  (forall c, last_char s = Some c -> is_space c = false) -> rstrip s = s.
Proof.
  induction s as [|c s IH]; [done|]. intros H.
  change (rstrip (String c s))
    with (match rstrip s with
          | EmptyString => if is_space c then EmptyString else String c EmptyString
          | r => String c r
          end).
  rewrite IH.
  - destruct s as [|c1 s]; [|done]. by rewrite (H c eq_refl).
  - intros c' Hc'. apply H. simpl. by rewrite Hc'.
Qed.

Lemma lstrip_split (s : string) :
  exists pre, s = pre ++ lstrip s /\ all_space pre = true.
Proof.
  induction s as [|c s IH]; simpl.
  - by exists "".
  - destruct (is_space c) eqn:E.
    + destruct IH as (pre & Hs & Hpre). exists (String c pre). split.
      * exact (f_equal (String c) Hs).
      * simpl. by rewrite E, Hpre.
    + by exists "".
Qed.

Lemma rstrip_split (s : string) :
  exists post, s = rstrip s ++ post /\ all_space post = true.
Proof.
  induction s as [|c s IH].
  - by exists "".
  - destruct IH as (post & Hs & Hpost).
    change (rstrip (String c s))
      with (match rstrip s with
            | EmptyString => if is_space c then EmptyString else String c EmptyString
            | r => String c r
            end).
    destruct (rstrip s) as [|c1 r] eqn:E.
    + change (s = post) in Hs. subst post. destruct (is_space c) eqn:Ec.
      * exists (String c s). split; [done|]. simpl. by rewrite Ec, Hpost.
      * exists s. by split.
    + exists post. split; [|done]. exact (f_equal (String c) Hs).
Qed.

Lemma lstrip_all_space (s : string) : all_space s = true -> lstrip s = "".
Proof.
  induction s as [|c s IH]; simpl; [done|].
  destruct (is_space c); [exact IH|done].
Qed.

Lemma rstrip_all_space (s : string) : all_space s = true -> rstrip s = "".
Proof.
  induction s as [|c s IH]; [done|]. simpl. intros H.
  apply andb_true_iff in H as [Hc Hs]. by rewrite (IH Hs), Hc.
Qed.

Lemma lstrip_app_space (pre s : string) :
  all_space pre = true -> lstrip (pre ++ s) = lstrip s.
Proof.
  induction pre as [|c pre IH]; [done|]. simpl. intros H.
  apply andb_true_iff in H as [Hc Hs]. rewrite Hc. by apply IH.
Qed.

Lemma rstrip_app_space (s post : string) :
  all_space post = true -> rstrip (s ++ post) = rstrip s.
Proof.
  intros Hpost. induction s as [|c s IH].
  - by apply rstrip_all_space.
  - change (rstrip (String c s ++ post))
      with (match rstrip (s ++ post) with
            | EmptyString => if is_space c then EmptyString else String c EmptyString
            | r => String c r
            end).
    by rewrite IH.
Qed.

(** X19: [discover_env] gives [local] when [/etc/flags/env] does not exist.
    When it exists, the name is the contents of the file with the whitespace
    around them taken off, and nothing else: the contents are whitespace,
    then the name, then whitespace, and the name neither starts nor ends with
    a whitespace character; whichever way the contents are cut into
    whitespace, a text with no whitespace at its ends, and whitespace, that
    text is the name (so [prod] followed by a newline gives [prod], and
    contents with no whitespace around them are the name as they are). *)
Theorem discover_env_stripped (fs : string -> option string) :
  (fs "/etc/flags/env" = None -> discover_env fs = "local")
  /\ forall f, fs "/etc/flags/env" = Some f ->
       (exists pre post,
           f = pre ++ discover_env fs ++ post
           /\ all_space pre = true /\ all_space post = true)
       /\ (forall c, first_char (discover_env fs) = Some c -> is_space c = false)
       /\ (forall c, last_char (discover_env fs) = Some c -> is_space c = false)
       /\ (forall pre e post,
             f = pre ++ e ++ post ->
             all_space pre = true ->
             all_space post = true ->
             (forall c, first_char e = Some c -> is_space c = false) ->
             (forall c, last_char e = Some c -> is_space c = false) ->
             discover_env fs = e)
       /\ ((forall c, first_char f = Some c -> is_space c = false) ->
           (forall c, last_char f = Some c -> is_space c = false) ->
           discover_env fs = f).
Proof.
  unfold discover_env. split; [by intros ->|]. intros f ->. unfold strip.
  split; [|split; [|split; [|split]]].
  - destruct (lstrip_split f) as (pre & Hf & Hpre).
    destruct (rstrip_split (lstrip f)) as (post & Hl & Hpost).
    exists pre, post. split; [|done]. by rewrite <- Hl.
  - intros c Hc. by apply (lstrip_first f), rstrip_first.
  - apply rstrip_last.
  - intros pre e post -> Hpre Hpost Hfirst Hlast.
    rewrite (lstrip_app_space pre _ Hpre).
    destruct e as [|c e].
    + change (lstrip ("" ++ post)) with (lstrip post).
      by rewrite (lstrip_all_space post Hpost).
    + rewrite (lstrip_id (String c e ++ post)).
      * rewrite (rstrip_app_space _ post Hpost). by apply rstrip_id.
      * intros c' [= <-]. by apply Hfirst.
  - intros Hf Hl. rewrite (lstrip_id f Hf). by apply rstrip_id.
Qed.

(** X20: a new [Configuration] has no directive, the discovered
    environment, and a root that is locked and empty: reading any key
    raises [UndefinedKeyError] naming [config.<key>], writing any key raises
    [LockedError], both without changing anything, and [to_dict] gives the
    empty mapping. *)
Theorem new_Configuration_locked_empty (fs : string -> option string)
    (key : string) (value : obj) (fuel : nat) :
  let w := new_Configuration fs in
  directives (conf w) = []
  /\ env (conf w) = discover_env fs
  /\ __getitem__ (configatron (conf w)) key (mem w)
     = (mem w, Raise (UndefinedKeyError ("Configuration key not found: config." ++ key)))
  /\ __setitem__ (configatron (conf w)) key value (mem w)
     = (mem w, Raise (LockedError ("Cannot set key " ++ key ++ " for locked config")))
  /\ to_dict (S fuel) (configatron (conf w)) (mem w) = (mem w, Ok (PDict [])).
Proof.
  intros w. split; [done|]. split; [done|]. split; [|split].
  - by rewrite (getitem_run (mem w) (configatron (conf w))
                  (mkStore 0 "config" [] []) key eq_refl).
  - by rewrite (setitem_run (mem w) (configatron (conf w))
                  (mkStore 0 "config" [] []) key value eq_refl).
  - done.
Qed.

(** ** What a merge leaves alone *)

(** X21: a merge cannot lock or unlock anything: whatever
    [node.update_dict(d)] does, returns or raises, on whatever heap, every
    lock flag afterwards is the one before, and every node that existed is
    still there and still belongs to the same tree. *)
Theorem update_dict_keeps_lock_flags (a : addr) (d : list (string * pyval)) (h : heap) :
  trees (fst (update_dict a d h)) = trees h
  /\ forall b s, stores h !! b = Some s ->
       exists s', stores (fst (update_dict a d h)) !! b = Some s'
                  /\ _config_tree s' = _config_tree s.
Proof.
  destruct (update_dict a d h) as [h' r] eqn:E.
  exact (update_dict_keeps a d h h' r E).
Qed.

(** ** [__repr__]: nodes without values *)

Lemma repr_items_all_empty (repr_value : pyval -> string)
    (rec : addr -> M heap string) (name : string) (h : heap) :
  forall l out,
    (forall x, x ∈ l -> exists c, snd x = ORef c /\ rec c h = (h, Ok "")) ->
    repr_items repr_value rec name l out h = (h, Ok (join newline out)).
Proof.
  induction l as [|[k o] l IH]; intros out Hall; simpl; [done|].
  destruct (Hall (k, o)) as (c & Ho & Hc); [by left|]. simpl in Ho. subst o.
  unfold bind. rewrite Hc. simpl. apply IH.
  intros x Hx. apply Hall. by right.
Qed.

(** X22: nodes that hold no plain value leave no trace in the rendering:
    for a tree in which every key, at every depth, holds a node,
    [__repr__] returns the empty string (for every budget from some depth
    on).  So nodes created by navigation alone are not shown. *)
Theorem repr_of_tree_without_values (repr_value : pyval -> string)
    (t : addr) (h : heap) (a : addr) (p : list (string * pyval)) (F : list addr) :
  shape t h a p F ->
  no_leaf (PDict p) ->
  exists n, forall fuel, n <= fuel -> __repr__ repr_value fuel a h = (h, Ok "").
Proof.
  intros H.
  induction H using shape_mut with
    (P0 := fun attrs p F _ =>
             no_leaf (PDict p) ->
             exists b, forall fuel, b <= fuel ->
               forall x, x ∈ attrs ->
                 exists c, snd x = ORef c
                           /\ __repr__ repr_value fuel c h = (h, Ok "")).
  - intros Hp. destruct (IHshape Hp) as (b & Hb). exists (S b).
    intros [|fuel] Hle; [lia|]. simpl. unfold bind, read_store.
    match goal with E : stores h !! _ = Some _ |- _ => rewrite E end.
    rewrite (repr_items_all_empty repr_value _ _ h _ []); [done|].
    intros x Hx. rewrite sorted_items_perm in Hx. apply Hb; [lia|done].
  - intros _. exists 0. intros fuel _ x Hx. by apply elem_of_nil in Hx.
  - intros [Hv _]. by destruct v.
  - intros [Hm Hp]. destruct (IHshape Hm) as (b1 & Hb1).
    destruct (IHshape0 Hp) as (b2 & Hb2). exists (max b1 b2).
    intros fuel Hle x Hx. apply elem_of_cons in Hx as [->|Hx].
    + exists c. split; [done|]. apply Hb1. lia.
    + apply Hb2; [lia|done].
Qed.

(** ** The further properties at concrete inputs *)

Lemma register_relative_path_witness :
  exists msg,
    register example_fs example_yaml "config.yaml" false false None (fresh_process "dev")
    = (fresh_process "dev", Raise (Error_ [msg; "config.yaml"])).
Proof.
  exact (register_relative_path example_fs example_yaml "config.yaml" false false None
           (fresh_process "dev") eq_refl).
Defined.

Lemma register_optional_missing_witness :
  snd (register example_fs example_yaml "/local.yaml" false true None (fresh_process "dev"))
  = Ok tt.
Proof.
  destruct (register_optional_missing example_fs example_yaml "/local.yaml" false None
              (fresh_process "dev") eq_refl eq_refl) as [H _].
  by rewrite H.
Defined.

Lemma register_parsed_records_witness :
  let w := fresh_process "staging" in
  let w' := fst (register_parsed env_yaml (Some "/env.yaml") false false None w) in
  directives (conf w') = [mkDirective env_yaml (Some "/env.yaml") false false None].
Proof.
  intros w w'.
  destruct (register_parsed_records env_yaml (Some "/env.yaml") false false None w w'
              (snd (register_parsed env_yaml (Some "/env.yaml") false false None w))
              eq_refl) as [H _].
  exact H.
Defined.

Lemma set_env_records_witness :
  env (conf (fst (set_env 1 "prod" (fresh_process "dev")))) = "prod".
Proof.
  destruct (set_env_records 1 "prod" (fresh_process "dev")
              (fst (set_env 1 "prod" (fresh_process "dev")))
              (snd (set_env 1 "prod" (fresh_process "dev"))) eq_refl) as [H _].
  exact H.
Defined.

Lemma setitem_then_getitem_witness :
  let h := mkHeap [false] [mkStore 0 "config" [] []] in
  exists h1,
    __setitem__ 0 "port" (OVal (PInt 80)) h = (h1, Ok tt)
    /\ __getitem__ 0 "port" h1 = (h1, Ok (OVal (PInt 80))).
Proof.
  intros h.
  destruct (setitem_then_getitem h 0 (mkStore 0 "config" [] []) "port" (OVal (PInt 80))
              eq_refl eq_refl) as (h1 & s1 & H1 & H2 & _).
  exists h1. by split.
Defined.

Lemma locked_is_shared_witness :
  let h := mkHeap [true] [mkStore 0 "config" [] [("a", ORef 1)];
                          mkStore 0 "config.a" ["a"] []] in
  exists h1,
    __setattr__ 1 "locked" (OVal (PBool false)) h = (h1, Ok tt)
    /\ get_locked 0 h1 = (h1, Ok false).
Proof.
  intros h.
  destruct (locked_is_shared h 1 (mkStore 0 "config.a" ["a"] []) false true
              eq_refl eq_refl) as (h1 & H1 & _ & H3 & _).
  exists h1. split; [exact H1|].
  exact (H3 0 (mkStore 0 "config" [] [("a", ORef 1)]) eq_refl eq_refl).
Defined.

Lemma locked_heap_is_frozen_witness :
  let h := mem (fresh_process "dev") in
  fst (update_dict 0 [("a", PDict [("b", PInt 1)])] h) = h.
Proof.
  intros h.
  assert (Hl : all_locked h).
  { intros [|t] b; simpl; [by intros [= <-]|done]. }
  destruct (locked_heap_is_frozen h 0 "a" (OVal PNone) [("a", PDict [("b", PInt 1)])] Hl)
    as (_ & _ & H & _).
  exact H.
Defined.

Lemma set_env_locked_raises_witness :
  set_env 1 "prod" (fresh_process "dev")
  = (mkWorld (mkConfiguration [] "prod" 0) (mem (fresh_process "dev")),
     Raise (UndefinedKeyError "Configuration key not found: config.attributes")).
Proof.
  exact (set_env_locked_raises 0 "prod" (fresh_process "dev") (mkStore 0 "config" [] [])
           eq_refl eq_refl eq_refl).
Defined.

Lemma clear_unlocked_descends_witness :
  let h := mkHeap [false] [mkStore 0 "config" [] []] in
  snd (clear 3 0 h) = Stuck /\ length (stores (fst (clear 3 0 h))) = 4.
Proof.
  intros h.
  exact (clear_unlocked_descends 3 h 0 (mkStore 0 "config" [] []) eq_refl eq_refl eq_refl).
Defined.

Lemma mixin_config_environment_test_witness :
  let w := fresh_process "dev" in
  snd (mixin_config (mkDirective (PDict []) (Some "/e.yaml") false false None) w)
  = Raise (MissingEnvironment (missing_environment_message "dev" "/e.yaml"))
  /\ snd (mixin_config (mkDirective (PInt 5) (Some "/e.yaml") false false None) w)
     = Raise (TypeError "argument of type 'int' is not iterable").
Proof.
  intros w. split.
  - destruct (mixin_config_environment_test w
                (mkDirective (PDict []) (Some "/e.yaml") false false None)
                eq_refl eq_refl eq_refl) as [H _].
    by rewrite (H eq_refl).
  - destruct (mixin_config_environment_test w
                (mkDirective (PInt 5) (Some "/e.yaml") false false None)
                eq_refl eq_refl eq_refl) as [_ H].
    by rewrite (H _ eq_refl).
Defined.

Lemma mixin_config_null_document_witness :
  mixin_config (mkDirective PNone (Some "/empty.yaml") false false None)
    (fresh_process "dev")
  = (fresh_process "dev", Ok tt).
Proof.
  exact (mixin_config_null_document (fresh_process "dev")
           (mkDirective PNone (Some "/empty.yaml") false false None)
           (mkStore 0 "config" [] []) eq_refl eq_refl eq_refl eq_refl eq_refl eq_refl).
Defined.

Lemma mixin_config_raw_without_filepath_witness :
  mixin_config (mkDirective env_yaml None false false None) (fresh_process "dev")
  = mixin_config (mkDirective env_yaml None true false None) (fresh_process "dev").
Proof.
  exact (mixin_config_raw_without_filepath (fresh_process "dev")
           (mkDirective env_yaml None false false None) eq_refl).
Defined.

Lemma register_selects_environment_witness :
  exists w',
    register example_fs example_yaml "/env.yaml" false false (Some "db")
      (fresh_process "prod") = (w', Ok tt)
    /\ reads w' [("db", PDict [("x", PInt 1)])].
Proof.
  assert (Hd : distinct_keys (PDict [("x", PInt 1)])).
  { simpl. split; [|done]. apply NoDup_singleton. }
  destruct (register_selects_environment example_fs example_yaml "prod" "/env.yaml"
              "prod: {x: 1}
dev: {x: 2}"
              [("prod", PDict [("x", PInt 1)]); ("dev", PDict [("x", PInt 2)])]
              [("x", PInt 1)] false (Some "db") eq_refl eq_refl eq_refl eq_refl Hd)
    as (w' & H1 & _ & H3).
  exists w'. by split.
Defined.

Lemma register_parsed_raw_mounts_witness :
  exists w',
    register_parsed (PDict [("x", PInt 1)]) None true false (Some "a.b")
      (fresh_process "dev") = (w', Ok tt)
    /\ reads w' [("a", PDict [("b", PDict [("x", PInt 1)])])].
Proof.
  assert (Hd : distinct_keys (PDict [("x", PInt 1)])).
  { simpl. split; [|done]. apply NoDup_singleton. }
  destruct (register_parsed_raw_mounts "dev" "a.b" [("x", PInt 1)] None false Hd)
    as (w' & H1 & _ & H3).
  exists w'. by split.
Defined.

Lemma register_raw_twice_witness :
  let w1 := fresh_process "dev" in
  let w2 := fst (register_raw [("x", PInt 1)] w1) in
  exists w3 p, register_raw [("x", PInt 1)] w2 = (w3, Ok tt) /\ reads w2 p /\ reads w3 p.
Proof.
  intros w1 w2.
  assert (Hd : distinct_keys (PDict [("x", PInt 1)])).
  { simpl. split; [|done]. apply NoDup_singleton. }
  exact (register_raw_twice "dev" [] [("x", PInt 1)] w1 w2 eq_refl eq_refl Hd).
Defined.

Lemma register_raw_overrides_witness :
  let w1 := fst (for_each register_raw [[("x", PInt 1); ("y", PInt 2)]]
                   (fresh_process "dev")) in
  let w2 := fst (register_raw [("x", PInt 7)] w1) in
  exists p2, reads w2 p2 /\ dict_get "x" p2 = Some (PInt 7).
Proof.
  intros w1 w2.
  destruct (register_raw_overrides "dev" [[("x", PInt 1); ("y", PInt 2)]]
              [("x", PInt 7)] w1 w2 eq_refl eq_refl (NoDup_singleton "x"))
    as (p1 & p2 & _ & H2 & H3 & _).
  exists p2. split; [exact H2|]. apply H3; [by left|done].
Defined.

Lemma repr_ignores_insertion_order_witness :
  let h := mkHeap [true] [mkStore 0 "config" []
                            [("b", OVal (PInt 2)); ("a", OVal (PInt 1))]] in
  let s' := mkStore 0 "config" [] [("a", OVal (PInt 1)); ("b", OVal (PInt 2))] in
  snd (__repr__ (fun _ => "?") 2 0 (mkHeap (trees h) (<[0 := s']> (stores h))))
  = snd (__repr__ (fun _ => "?") 2 0 h).
Proof.
  intros h s'.
  apply (repr_ignores_insertion_order (fun _ => "?") h 0
           (mkStore 0 "config" [] [("b", OVal (PInt 2)); ("a", OVal (PInt 1))]) s'
           eq_refl eq_refl (Permutation_swap _ _ _)).
  apply NoDup_cons. split; [|apply NoDup_singleton].
  intros H. apply list_elem_of_singleton in H. discriminate H.
Defined.

Lemma repr_of_tree_without_values_witness :
  let h := mkHeap [true] [mkStore 0 "config" [] [("a", ORef 1)];
                          mkStore 0 "config.a" ["a"] []] in
  exists n, forall fuel, n <= fuel -> __repr__ (fun _ => "?") fuel 0 h = (h, Ok "").
Proof.
  intros h.
  apply (repr_of_tree_without_values (fun _ => "?") 0 h 0 [("a", PDict [])] [0; 1]).
  - apply shape_node with (s := mkStore 0 "config" [] [("a", ORef 1)]); [done|done| |].
    + apply (kids_ref 0 h "a" 1 [] [1] [] [] []); [|done|constructor|].
      * apply shape_node with (s := mkStore 0 "config.a" ["a"] []);
          [done|done|constructor|].
        intros H. by apply elem_of_nil in H.
      * intros x _ H. by apply elem_of_nil in H.
    + intros H. apply list_elem_of_singleton in H. discriminate H.
  - simpl. done.
Defined.

Lemma discover_env_stripped_witness :
  discover_env (fun p => if String.eqb p "/etc/flags/env"
                         then Some (String " " ("prod" ++ newline))
                         else None)
  = "prod".
Proof.
  destruct (discover_env_stripped
              (fun p => if String.eqb p "/etc/flags/env"
                        then Some (String " " ("prod" ++ newline))
                        else None)) as [_ H].
  destruct (H _ eq_refl) as (_ & _ & _ & Hcut & _).
  apply (Hcut " " "prod" newline); try reflexivity.
  - by intros c [= <-].
  - by intros c [= <-].
Defined.
